(** * Dictator Battle: the chase simulation and its outcome bias

    A shallow embedding of the TypeScript sources (Rng.ts, Entity.ts,
    Physics.ts, Ai.ts, OutcomeController.ts, Dictator.ts, Game.ts,
    Simulation.ts) and the properties claimed about them.

    Numbers.  A JavaScript [number] that carries a physical quantity is
    modelled as a real number: rounding of the IEEE doubles is not modelled,
    and every statement below is a statement of real arithmetic.  The one
    exception is the payout of the ledger, where [Math.floor] turns a rounding
    error into a cent: there the product is the double product, rounded as
    [Float64.fl] rounds.  The state of the random generator is an integer and
    is modelled in [Z] with the 32-bit wrap-around written out, so the
    generator itself computes. *)

From Stdlib Require Import Reals Lra Lia ZArith List Bool.
Import ListNotations.

#[local] Open Scope R_scope.

(** ** Numeric helpers *)

(** [x < y] and [x <= y] as the booleans a JavaScript comparison yields. *)
Definition Rltb (x y : R) : bool := if Rlt_dec x y then true else false.
Definition Rleb (x y : R) : bool := if Rle_dec x y then true else false.

(** [Math.sign]. *)
Definition Rsign (x : R) : R :=
  if Rlt_dec 0 x then 1 else if Rlt_dec x 0 then -1 else 0.

(** [interface Vec2 { x: number; y: number }]. *)
Record Vec2 : Type := mkVec2 { vx : R; vy : R }.

(** The Euclidean norm [Math.sqrt(x * x + y * y)] that the sources spell out
    at every use. *)
Definition norm2 (x y : R) : R := sqrt (x * x + y * y).

(** ** Rng.ts: the seeded generator (mulberry32) *)

Module Rng.

#[local] Open Scope Z_scope.

(** ToInt32 and ToUint32 of ECMAScript, on integers. *)
Definition toInt32 (z : Z) : Z := (z + 2147483648) mod 4294967296 - 2147483648.
Definition toUint32 (z : Z) : Z := z mod 4294967296.

(** [a >>> n]: the unsigned right shift. *)
Definition ushr (a n : Z) : Z := Z.shiftr (toUint32 a) n.

(** [Math.imul(a, b)]: the low 32 bits of the product, signed. *)
Definition imul (a b : Z) : Z := toInt32 (toInt32 a * toInt32 b).

(** [a ^ b] and [a | b] of JavaScript: both operands through ToInt32. *)
Definition jxor (a b : Z) : Z := Z.lxor (toInt32 a) (toInt32 b).
Definition jor (a b : Z) : Z := Z.lor (toInt32 a) (toInt32 b).

(** [class Rng { private state; readonly seed }]. *)
Record t : Type := mk { state : Z; seed : Z }.

(** [constructor(seed)], for a seed that is given. *)
Definition new (s : Z) : t := {| state := s; seed := s |}.

(** The integer the generator draws: the numerator of [next()], together
    with the state it leaves behind. *)
Definition next_u32 (r : t) : Z * t :=
  let s0 := jor (state r) 0 in
  let s1 := jor (s0 + 1831565813) 0 in
  let t1 := imul (jxor s1 (ushr s1 15)) (jor 1 s1) in
  let t2 := jxor (t1 + imul (jxor t1 (ushr t1 7)) (jor 61 t1)) t1 in
  (ushr (jxor t2 (ushr t2 14)) 0, {| state := s1; seed := seed r |}).

(** [next()]: a float in [0, 1). *)
Definition next (r : t) : R * t :=
  let '(u, r') := next_u32 r in ((IZR u / 4294967296)%R, r').

(** [range(min, max)]. *)
Definition range (r : t) (lo hi : R) : R * t :=
  let '(u, r') := next r in ((lo + u * (hi - lo))%R, r').

(** [Math.floor] of a real, as an integer. *)
Definition floor (x : R) : Z := (up x - 1)%Z.

(** [int(min, max)], inclusive. *)
Definition int (r : t) (lo hi : Z) : Z * t :=
  let '(x, r') := range r (IZR lo) (IZR (hi + 1)) in (floor x, r').

(** [sign()]. *)
Definition sign (r : t) : R * t :=
  let '(u, r') := next r in ((if Rltb u (1 / 2) then -1 else 1)%R, r').

(** [reset()]. *)
Definition reset (r : t) : t := {| state := seed r; seed := seed r |}.

(** The generator after one draw, whichever method made it. *)
Definition advance (r : t) : t := snd (next_u32 r).

(** [pick(arr)]: [None] is the [undefined] that an index outside the array
    reads. *)
Definition pick {A : Type} (r : t) (arr : list A) : option A * t :=
  let '(i, r') := int r 0 (Z.of_nat (length arr) - 1) in
  ((if (i <? 0)%Z then None else nth_error arr (Z.to_nat i)), r').

End Rng.

(** ** Doubles, where a [Math.floor] observes their rounding *)

Module Float64.

(** The nearest integer, ties to the even one. *)
Definition rne (x : R) : Z :=
  let f := Rng.floor x in
  let d := x - IZR f in
  if Rltb d (1 / 2) then f
  else if Rltb (1 / 2) d then (f + 1)%Z
  else if Z.even f then f else (f + 1)%Z.

(** The binary exponent of [x <> 0]: the [e] with [2^(e-1) <= |x| < 2^e]. *)
Definition mag (x : R) : Z := (Rng.floor (ln (Rabs x) / ln 2) + 1)%Z.

(** Rounding to the nearest number of 53 significant bits, ties to even: the
    rounding of a binary64 operation whose result is in the normal range
    (overflow and subnormal results are not modelled). *)
Definition fl (x : R) : R :=
  if Req_dec_T x 0 then 0
  else IZR (rne (x * powerRZ 2 (53 - mag x))) * powerRZ 2 (mag x - 53).

(** The unit roundoff [2^-53]. *)
Definition u : R := / 9007199254740992.

(** [a * b] on two doubles. *)
Definition mul (a b : R) : R := fl (a * b).

End Float64.

(** ** OutcomeController.ts *)

Module OutcomeController.

(** [interface BiasParams]: the eight bias scalars. *)
Record BiasParams : Type := mkBias {
  knifeAttractionWin : R;
  knifeAttractionLose : R;
  hunterBonusWin : R;
  hunterPenaltyLose : R;
  runnerBonusWin : R;
  runnerPenaltyLose : R;
  speedBonusWin : R;
  speedPenaltyLose : R
}.

Definition DEFAULT_BIAS : BiasParams := {|
  knifeAttractionWin := 60;
  knifeAttractionLose := -40;
  hunterBonusWin := 10 / 100;
  hunterPenaltyLose := - (10 / 100);
  runnerBonusWin := 10 / 100;
  runnerPenaltyLose := - (10 / 100);
  speedBonusWin := 3 / 100;
  speedPenaltyLose := - (3 / 100)
|}.

(** [class OutcomeController { winChance; bias; targetWin = false }]. *)
Record t : Type := mk {
  winChance : R;
  bias : BiasParams;
  targetWin : bool
}.

(** [constructor(winChance, bias)]: the argument is stored as it is. *)
Definition new_with (p : R) (b : BiasParams) : t :=
  {| winChance := p; bias := b; targetWin := false |}.

(** [constructor(winChance)] with the default bias. *)
Definition new (p : R) : t := new_with p DEFAULT_BIAS.

(** [setWinChance(p)]: [Math.max(0, Math.min(1, p))]. *)
Definition setWinChance (c : t) (p : R) : t :=
  {| winChance := Rmax 0 (Rmin 1 p); bias := bias c; targetWin := targetWin c |}.

(** [sampleOutcome(rng)]: one draw, compared with the stored probability. *)
Definition sampleOutcome (c : t) (rng : Rng.t) : t * Rng.t :=
  let '(u, rng') := Rng.next rng in
  ({| winChance := winChance c; bias := bias c;
      targetWin := Rltb u (winChance c) |}, rng').

Definition knifeAttractionStrength (c : t) : R :=
  if targetWin c then knifeAttractionWin (bias c)
  else knifeAttractionLose (bias c).

Definition steeringMultiplier (c : t) (isHunter : bool) : R :=
  if isHunter
  then 1 + (if targetWin c then hunterBonusWin (bias c)
            else hunterPenaltyLose (bias c))
  else 1 + (if targetWin c then runnerBonusWin (bias c)
            else runnerPenaltyLose (bias c)).

Definition speedMultiplier (c : t) : R :=
  1 + (if targetWin c then speedBonusWin (bias c)
       else speedPenaltyLose (bias c)).

End OutcomeController.

(** ** Arena.ts *)

Module Arena.

Record t : Type := mk { x : R; y : R; size : R }.

Definition left (a : t) : R := x a.
Definition right (a : t) : R := x a + size a.
Definition top (a : t) : R := y a.
Definition bottom (a : t) : R := y a + size a.
Definition centerX (a : t) : R := x a + size a / 2.
Definition centerY (a : t) : R := y a + size a / 2.

End Arena.

(** ** Entity.ts *)

Module Entity.

(** [class Entity { pos; vel; radius }]. *)
Record t : Type := mk { pos : Vec2; vel : Vec2; radius : R }.

Definition set_pos (e : t) (p : Vec2) : t :=
  {| pos := p; vel := vel e; radius := radius e |}.
Definition set_vel (e : t) (v : Vec2) : t :=
  {| pos := pos e; vel := v; radius := radius e |}.

(** [get speed()]. *)
Definition speed (e : t) : R := norm2 (vx (vel e)) (vy (vel e)).

(** [setVelocityAngle(angle, speed)]. *)
Definition setVelocityAngle (e : t) (angle s : R) : t :=
  set_vel e (mkVec2 (cos angle * s) (sin angle * s)).

(** [normalizeSpeed(targetSpeed)]. *)
Definition normalizeSpeed (e : t) (targetSpeed : R) : t :=
  let s := speed e in
  if Rltb s (1 / 10000) then e
  else set_vel e (mkVec2 (vx (vel e) / s * targetSpeed)
                         (vy (vel e) / s * targetSpeed)).

(** A division that reports a zero divisor, where JavaScript would produce
    an infinity or a NaN. *)
Definition checked_div (a b : R) : option R :=
  if Req_dec_T b 0 then None else Some (a / b).

(** [normalizeSpeed] again, with each division of the source checked:
    [None] stands for a division by zero. *)
Definition normalizeSpeed_checked (e : t) (targetSpeed : R) : option t :=
  let s := speed e in
  if Rltb s (1 / 10000) then Some e
  else
    match checked_div (vx (vel e)) s, checked_div (vy (vel e)) s with
    | Some qx, Some qy =>
        Some (set_vel e (mkVec2 (qx * targetSpeed) (qy * targetSpeed)))
    | _, _ => None
    end.

(** [clampSpeed(maxSpeed)]. *)
Definition clampSpeed (e : t) (maxSpeed : R) : t :=
  let s := speed e in
  if Rltb maxSpeed s
  then set_vel e (mkVec2 (vx (vel e) / s * maxSpeed) (vy (vel e) / s * maxSpeed))
  else e.

End Entity.

(** ** Physics.ts *)

Module Physics.

Import Entity.

(** [integrateEntity(entity, dt)]. *)
Definition integrateEntity (e : Entity.t) (dt : R) : Entity.t :=
  set_pos e (mkVec2 (vx (pos e) + vx (vel e) * dt) (vy (pos e) + vy (vel e) * dt)).

(** One axis of [bounceWalls]: position and velocity component against the
    lower and the upper bound. *)
Definition bounceAxis (p v r lo hi : R) : R * R :=
  if Rltb (p - r) lo then (lo + r, Rabs v)
  else if Rltb hi (p + r) then (hi - r, - Rabs v)
  else (p, v).

(** [bounceWalls(entity, arena)]. *)
Definition bounceWalls (e : Entity.t) (a : Arena.t) : Entity.t :=
  let r := radius e in
  let '(px, wx) := bounceAxis (vx (pos e)) (vx (vel e)) r (Arena.left a) (Arena.right a) in
  let '(py, wy) := bounceAxis (vy (pos e)) (vy (vel e)) r (Arena.top a) (Arena.bottom a) in
  {| pos := mkVec2 px py; vel := mkVec2 wx wy; radius := r |}.

(** [bounceEntities(a, b)]: the two entities after the call and the boolean
    it returns. *)
Definition bounceEntities (a b : Entity.t) : bool * (Entity.t * Entity.t) :=
  let dx := vx (pos b) - vx (pos a) in
  let dy := vy (pos b) - vy (pos a) in
  let dist := norm2 dx dy in
  let minDist := radius a + radius b in
  if Rleb minDist dist || Rltb dist (1 / 10000) then (false, (a, b))
  else
    let overlap := minDist - dist in
    let nx := dx / dist in
    let ny := dy / dist in
    let pa := mkVec2 (vx (pos a) - nx * overlap * (1 / 2))
                     (vy (pos a) - ny * overlap * (1 / 2)) in
    let pb := mkVec2 (vx (pos b) + nx * overlap * (1 / 2))
                     (vy (pos b) + ny * overlap * (1 / 2)) in
    let relVx := vx (vel a) - vx (vel b) in
    let relVy := vy (vel a) - vy (vel b) in
    let dot := relVx * nx + relVy * ny in
    if Rltb 0 dot
    then (true,
          ({| pos := pa;
              vel := mkVec2 (vx (vel a) - dot * nx) (vy (vel a) - dot * ny);
              radius := radius a |},
           {| pos := pb;
              vel := mkVec2 (vx (vel b) + dot * nx) (vy (vel b) + dot * ny);
              radius := radius b |}))
    else (true,
          ({| pos := pa; vel := vel a; radius := radius a |},
           {| pos := pb; vel := vel b; radius := radius b |})).

(** [entityDistance(a, b)]. *)
Definition entityDistance (a b : Entity.t) : R :=
  norm2 (vx (pos b) - vx (pos a)) (vy (pos b) - vy (pos a)).

(** [entitiesOverlap(a, b)]. *)
Definition entitiesOverlap (a b : Entity.t) : bool :=
  Rleb (entityDistance a b) (radius a + radius b).

(** [clampToArena(entity, arena)]. *)
Definition clampToArena (e : Entity.t) (a : Arena.t) : Entity.t :=
  let r := radius e in
  set_pos e
    (mkVec2 (Rmax (Arena.left a + r) (Rmin (Arena.right a - r) (vx (pos e))))
            (Rmax (Arena.top a + r) (Rmin (Arena.bottom a - r) (vy (pos e))))).

End Physics.

(** ** Ai.ts: steering behaviours *)

Module Ai.

Import Entity.

Definition MAX_WANDER_IMPULSE : R := 80.
Definition MAX_HUNT_IMPULSE : R := 200.
Definition MAX_EVADE_IMPULSE : R := 200.
Definition MAX_KNIFE_SEEK_IMPULSE : R := 200.
Definition TURN_RATE_CAP : R := 3.

(** Components of a vector [(ax, ay)] across and along a unit direction
    [(nx, ny)]; the source computes the first as [perpComp]. *)
Definition perpOf (ax ay nx ny : R) : R := ax * (- ny) + ay * nx.
Definition parOf (ax ay nx ny : R) : R := ax * nx + ay * ny.

(** [applyImpulse(entity, ix, iy, dt, impulseMul)]. *)
Definition applyImpulse (e : Entity.t) (ix iy dt impulseMul : R) : Entity.t :=
  let scaledX := ix * impulseMul * dt in
  let scaledY := iy * impulseMul * dt in
  let e1 := set_vel e (mkVec2 (vx (vel e) + scaledX) (vy (vel e) + scaledY)) in
  let spd := speed e1 in
  if Rltb (1 / 1000) spd then
    let maxDelta := spd * tan (TURN_RATE_CAP * dt) in
    let nx := vx (vel e1) / spd in
    let ny := vy (vel e1) / spd in
    let perpComp := perpOf scaledX scaledY nx ny in
    if Rltb maxDelta (Rabs perpComp) then
      let clamp := maxDelta * Rsign perpComp in
      let factor := clamp / perpComp in
      set_vel e1 (mkVec2 (vx (vel e1) - scaledX + scaledX * factor)
                         (vy (vel e1) - scaledY + scaledY * factor))
    else e1
  else e1.

(** [applyWanderSteering(entity, rng, dt, impulseMul)]. *)
Definition applyWanderSteering (e : Entity.t) (rng : Rng.t) (dt impulseMul : R)
  : Entity.t * Rng.t :=
  let '(angle, rng1) := Rng.range rng 0 (PI * 2) in
  let '(m, rng2) := Rng.range rng1 0 MAX_WANDER_IMPULSE in
  let magnitude := m * impulseMul in
  (applyImpulse e (cos angle * magnitude) (sin angle * magnitude) dt 1, rng2).

(** [applyKnifeSeekSteering(entity, knifeX, knifeY, dt, biasDelta)]. *)
Definition applyKnifeSeekSteering (e : Entity.t) (knifeX knifeY dt biasDelta : R)
  : Entity.t :=
  let dx := knifeX - vx (pos e) in
  let dy := knifeY - vy (pos e) in
  let dist := norm2 dx dy in
  if Rltb dist (1 / 1000) then e
  else
    let nx := dx / dist in
    let ny := dy / dist in
    let strength := MAX_KNIFE_SEEK_IMPULSE + biasDelta in
    applyImpulse e (nx * strength) (ny * strength) dt 1.

(** [applyCenterAttraction(entity, centerX, centerY, dt, strength)]. *)
Definition applyCenterAttraction (e : Entity.t) (centerX centerY dt strength : R)
  : Entity.t :=
  let dx := centerX - vx (pos e) in
  let dy := centerY - vy (pos e) in
  let dist := norm2 dx dy in
  if Rltb dist (1 / 1000) then e
  else applyImpulse e (dx / dist * strength) (dy / dist * strength) dt 1.

(** [applyHunterSteering(hunter, target, dt, impulseMul)]. *)
Definition applyHunterSteering (hunter target : Entity.t) (dt impulseMul : R)
  : Entity.t :=
  let dx := vx (pos target) - vx (pos hunter) in
  let dy := vy (pos target) - vy (pos hunter) in
  let dist := norm2 dx dy in
  if Rltb dist (1 / 1000) then hunter
  else
    let nx := dx / dist in
    let ny := dy / dist in
    applyImpulse hunter (nx * MAX_HUNT_IMPULSE) (ny * MAX_HUNT_IMPULSE) dt impulseMul.

(** [applyRunnerSteering(runner, pursuer, rng, dt, impulseMul)]: the draw is
    made only past the distance guard. *)
Definition applyRunnerSteering (runner pursuer : Entity.t) (rng : Rng.t)
  (dt impulseMul : R) : Entity.t * Rng.t :=
  let dx := vx (pos runner) - vx (pos pursuer) in
  let dy := vy (pos runner) - vy (pos pursuer) in
  let dist := norm2 dx dy in
  if Rltb dist (1 / 1000) then (runner, rng)
  else
    let nx := dx / dist in
    let ny := dy / dist in
    let '(perp, rng') := Rng.range rng (- (4 / 10)) (4 / 10) in
    let evadeX := nx + (- ny) * perp in
    let evadeY := ny + nx * perp in
    (applyImpulse runner (evadeX * MAX_EVADE_IMPULSE) (evadeY * MAX_EVADE_IMPULSE)
       dt impulseMul, rng').

End Ai.

(** ** Dictator.ts, Knife.ts, Economy.ts: the parts the round logic reads *)

Module Dictator.

(** The identifiers of [DICTATOR_CONFIGS], in the order of the table. *)
Inductive Config : Type := arafat | hussein | gaddafi | lukashenko.

Definition DICTATOR_CONFIGS : list Config := [arafat; hussein; gaddafi; lukashenko].

Definition config_eqb (a b : Config) : bool :=
  match a, b with
  | arafat, arafat | hussein, hussein | gaddafi, gaddafi
  | lukashenko, lukashenko => true
  | _, _ => false
  end.

Inductive DictatorRole : Type := none | hunter | runner.

Definition role_eqb (a b : DictatorRole) : bool :=
  match a, b with
  | none, none | hunter, hunter | runner, runner => true
  | _, _ => false
  end.

(** [class Dictator extends Entity]: the entity it extends, and the fields
    the simulation reads (the display objects are left out). *)
Record t : Type := mk {
  entity : Entity.t;
  config : Config;
  isPlayer : bool;
  role : DictatorRole;
  baseSpeed : R;
  speedMul : R
}.

(** [constructor(config, radius, isPlayer)]. *)
Definition new (c : Config) (radius : R) (player : bool) : t :=
  {| entity := Entity.mk (mkVec2 0 0) (mkVec2 0 0) radius;
     config := c; isPlayer := player; role := none;
     baseSpeed := 120; speedMul := 1 |}.

Definition set_entity (d : t) (e : Entity.t) : t :=
  {| entity := e; config := config d; isPlayer := isPlayer d; role := role d;
     baseSpeed := baseSpeed d; speedMul := speedMul d |}.

Definition setRole (d : t) (r : DictatorRole) : t :=
  {| entity := entity d; config := config d; isPlayer := isPlayer d; role := r;
     baseSpeed := baseSpeed d; speedMul := speedMul d |}.

Definition set_baseSpeed (d : t) (s : R) : t :=
  {| entity := entity d; config := config d; isPlayer := isPlayer d; role := role d;
     baseSpeed := s; speedMul := speedMul d |}.

Definition set_speedMul (d : t) (m : R) : t :=
  {| entity := entity d; config := config d; isPlayer := isPlayer d; role := role d;
     baseSpeed := baseSpeed d; speedMul := m |}.

(** [get currentSpeed()]. *)
Definition currentSpeed (d : t) : R := baseSpeed d * speedMul d.

End Dictator.

Module Knife.

(** [class Knife { pos; radius = 20; pickedUp }] and whether its container
    is shown. *)
Record t : Type := mk { pos : Vec2; pickedUp : bool; visible : bool }.

Definition radius : R := 20.

Definition new (x y : R) : t := {| pos := mkVec2 x y; pickedUp := false; visible := true |}.
Definition hide (k : t) : t := {| pos := pos k; pickedUp := pickedUp k; visible := false |}.

End Knife.

Module Economy.

Definition PAYOUT_MULTIPLIER : R := 19 / 10.

Record t : Type := mk { balance : R; lastBet : R }.

Definition new (startingBalance : R) : t := {| balance := startingBalance; lastBet := 0 |}.

(** [placeBet(amount)]: [None] is the [false] of an insufficient balance. *)
Definition placeBet (e : t) (amount : R) : option t :=
  if Rltb (balance e) amount then None
  else Some {| balance := balance e - amount; lastBet := amount |}.

(** [applyWin()].  [Math.floor] is taken of the double product
    [this._lastBet * PAYOUT_MULTIPLIER * 100]: two rounded multiplications,
    the first by the double that the literal [1.9] denotes. *)
Definition applyWin (e : t) : R * t :=
  let payout :=
    IZR (Rng.floor (Float64.mul (Float64.mul (lastBet e) (Float64.fl PAYOUT_MULTIPLIER))
                      100)) / 100 in
  (payout, {| balance := balance e + payout; lastBet := lastBet e |}).

(** [get winPayout()]: the same expression. *)
Definition winPayout (e : t) : R :=
  IZR (Rng.floor (Float64.mul (Float64.mul (lastBet e) (Float64.fl PAYOUT_MULTIPLIER))
                    100)) / 100.

End Economy.

(** ** Game.ts: the interactive round state machine *)

Module Game.

Import Dictator.

Definition ARENA_PADDING : R := 20.
Definition BALL_RADIUS : R := 28.
Definition BASE_SPEED : R := 120.
Definition CHASE_SPEED_MUL : R := 2.
Definition PREWAIT_DURATION : R := 1.
Definition PREKNIFE_DURATION : R := 3 / 2.
Definition CHASE_DURATION : R := 10.
Definition FIXED_DT : R := 1 / 60.

Inductive GamePhase : Type := idle | prewait | preknife | kniferace | chase | ended.

Definition phase_eqb (a b : GamePhase) : bool :=
  match a, b with
  | idle, idle | prewait, prewait | preknife, preknife
  | kniferace, kniferace | chase, chase | ended, ended => true
  | _, _ => false
  end.

(** The fields of [class Game] that the round logic reads or writes.  [dA]
    and [dB] are [dictators[0]] (the player's) and [dictators[1]];
    [playerWon] records the argument of the last [_endRound], which the
    source hands to the ledger and the status line.  [rng] is unassigned in
    the source until [_onPlay] assigns it. *)
Record t : Type := mk {
  arena : Arena.t;
  dA : Dictator.t;
  dB : Dictator.t;
  knife : option Knife.t;
  economy : Economy.t;
  rng : Rng.t;
  outcome : OutcomeController.t;
  phase : GamePhase;
  phaseTimer : R;
  accumulator : R;
  playerDictId : Config;
  knifePickedUp : bool;
  playerWon : option bool
}.

Definition set_dictators (g : t) (a b : Dictator.t) : t :=
  mk (arena g) a b (knife g) (economy g) (rng g) (outcome g) (phase g)
     (phaseTimer g) (accumulator g) (playerDictId g) (knifePickedUp g) (playerWon g).
Definition set_knife (g : t) (k : option Knife.t) (picked : bool) : t :=
  mk (arena g) (dA g) (dB g) k (economy g) (rng g) (outcome g) (phase g)
     (phaseTimer g) (accumulator g) (playerDictId g) picked (playerWon g).
Definition set_rng (g : t) (r : Rng.t) : t :=
  mk (arena g) (dA g) (dB g) (knife g) (economy g) r (outcome g) (phase g)
     (phaseTimer g) (accumulator g) (playerDictId g) (knifePickedUp g) (playerWon g).
Definition set_phase (g : t) (p : GamePhase) (timer : R) : t :=
  mk (arena g) (dA g) (dB g) (knife g) (economy g) (rng g) (outcome g) p
     timer (accumulator g) (playerDictId g) (knifePickedUp g) (playerWon g).
Definition set_accumulator (g : t) (acc : R) : t :=
  mk (arena g) (dA g) (dB g) (knife g) (economy g) (rng g) (outcome g) (phase g)
     (phaseTimer g) acc (playerDictId g) (knifePickedUp g) (playerWon g).

(** [_buildArena()] for a screen of the given width and height. *)
Definition _buildArena (width height : R) : Arena.t :=
  let size := Rmin width height - ARENA_PADDING * 2 in
  Arena.mk ((width - size) / 2) ((height - size) / 2) size.

(** [new Game(app)], as far as the round logic goes.  The constructor leaves
    [rng] unassigned; the generator given here is a placeholder that no run
    of the program reads: the phase leaves [idle] only in [_onPlay], which
    assigns the generator before the first draw ([onPlay_assigns_rng]). *)
Definition new (width height : R) : t :=
  {| arena := _buildArena width height;
     dA := Dictator.new arafat BALL_RADIUS true;
     dB := Dictator.new hussein BALL_RADIUS false;
     knife := None;
     economy := Economy.new 1000;
     rng := Rng.new 0;
     outcome := OutcomeController.new (1 / 2);
     phase := idle; phaseTimer := 0; accumulator := 0;
     playerDictId := arafat; knifePickedUp := false; playerWon := None |}.

(** [_cleanupKnife()]. *)
Definition _cleanupKnife (g : t) : t :=
  set_knife g
    (match knife g with
     | Some k => Some {| Knife.pos := Knife.pos k; Knife.pickedUp := false;
                         Knife.visible := false |}
     | None => None
     end) false.

(** [_pickOpponent(playerConfig)]: one draw of the generator.  The index is
    within the three other configurations, the default of [nth] is never
    taken. *)
Definition _pickOpponent (r : Rng.t) (playerConfig : Config) : Config * Rng.t :=
  let others := filter (fun d => negb (config_eqb d playerConfig)) DICTATOR_CONFIGS in
  let '(i, r') := Rng.int r 0 (Z.of_nat (length others) - 1) in
  (nth (Z.to_nat i) others playerConfig, r').

Definition place (d : Dictator.t) (x y angle s : R) : Dictator.t :=
  set_entity d
    (Entity.setVelocityAngle
       (Entity.set_pos (entity d) (mkVec2 x y)) angle s).

(** [_startRound()]. *)
Definition _startRound (g : t) : t :=
  let g := _cleanupKnife g in
  let playerConfig := playerDictId g in
  let '(opponentConfig, r1) := _pickOpponent (rng g) playerConfig in
  let dPlayer := set_speedMul (Dictator.new playerConfig BALL_RADIUS true)
                   (OutcomeController.speedMultiplier (outcome g)) in
  let dOpponent := set_speedMul (Dictator.new opponentConfig BALL_RADIUS false) 1 in
  let cx := Arena.centerX (arena g) in
  let cy := Arena.centerY (arena g) in
  let sep := BALL_RADIUS * 3 in
  let '(angle1, r2) := Rng.range r1 0 (PI * 2) in
  let '(j, r3) := Rng.range r2 (- (1 / 2)) (1 / 2) in
  let angle2 := angle1 + PI + j in
  let dPlayer := setRole (place dPlayer (cx - sep) cy angle1 BASE_SPEED) none in
  let dOpponent := setRole (place dOpponent (cx + sep) cy angle2 BASE_SPEED) none in
  set_accumulator
    (set_phase (set_rng (set_dictators g dPlayer dOpponent) r3) prewait PREWAIT_DURATION)
    0.

(** [_onPlay(state)] for the bet, the dictator, the win chance and the
    parsed seed of the controls. *)
Definition _onPlay (g : t) (betAmount : R) (selectedDictatorId : Config)
  (winChance : R) (seedVal : Z) : t :=
  if negb (phase_eqb (phase g) idle) && negb (phase_eqb (phase g) ended) then g
  else
    match Economy.placeBet (economy g) betAmount with
    | None => g
    | Some eco =>
        let oc := OutcomeController.setWinChance (outcome g) winChance in
        let '(oc', r) := OutcomeController.sampleOutcome oc (Rng.new seedVal) in
        _startRound
          (mk (arena g) (dA g) (dB g) (knife g) eco r oc' (phase g)
              (phaseTimer g) (accumulator g) selectedDictatorId
              (knifePickedUp g) (playerWon g))
    end.

(** [_endRound(playerWon)]. *)
Definition _endRound (g : t) (won : bool) : t :=
  mk (arena g) (dA g) (dB g) (knife g)
     (if won then snd (Economy.applyWin (economy g)) else economy g)
     (rng g) (outcome g) ended (phaseTimer g) (accumulator g)
     (playerDictId g) (knifePickedUp g) (Some won).

Definition wander (d : Dictator.t) (r : Rng.t) (dt mul : R) : Dictator.t * Rng.t :=
  let '(e, r') := Ai.applyWanderSteering (entity d) r dt mul in (set_entity d e, r').

(** [_tickPrewait(dt, dA, dB)]. *)
Definition _tickPrewait (g : t) (dt : R) : t :=
  let timer := phaseTimer g - dt in
  let '(a, r1) := wander (dA g) (rng g) dt (1 / 2) in
  let '(b, r2) := wander (dB g) r1 dt (1 / 2) in
  let g := set_rng (set_dictators g a b) r2 in
  if Rleb timer 0 then set_phase g preknife PREKNIFE_DURATION
  else set_phase g (phase g) timer.

(** [_spawnKnife()]. *)
Definition _spawnKnife (g : t) : t :=
  let cx := Arena.centerX (arena g) in
  let cy := Arena.centerY (arena g) in
  let k := match knife g with
           | None => Knife.new cx cy
           | Some _ => {| Knife.pos := mkVec2 cx cy; Knife.pickedUp := false;
                          Knife.visible := true |}
           end in
  set_phase (set_knife g (Some k) false) kniferace (phaseTimer g).

(** [_tickPreknife(dt, dA, dB)]. *)
Definition _tickPreknife (g : t) (dt : R) : t :=
  let timer := phaseTimer g - dt in
  let '(a, r1) := wander (dA g) (rng g) dt 1 in
  let '(b, r2) := wander (dB g) r1 dt 1 in
  let g := set_phase (set_rng (set_dictators g a b) r2) (phase g) timer in
  if Rleb timer 0 then _spawnKnife g else g.

(** [_assignRoles(hunterIdx)]: [hunterIsA] is [hunterIdx === 0]. *)
Definition _assignRoles (g : t) (hunterIsA : bool) : t :=
  let k := option_map Knife.hide (knife g) in
  let chaseSpeed := BASE_SPEED * CHASE_SPEED_MUL in
  let a := set_baseSpeed (setRole (dA g) (if hunterIsA then hunter else runner)) chaseSpeed in
  let b := set_baseSpeed (setRole (dB g) (if hunterIsA then runner else hunter)) chaseSpeed in
  let a := set_entity a (Entity.normalizeSpeed (entity a) (currentSpeed a)) in
  let b := set_entity b (Entity.normalizeSpeed (entity b) (currentSpeed b)) in
  set_phase (set_dictators (set_knife g k true) a b) chase CHASE_DURATION.

(** The [biasDelta] of [_tickKnifeRace]: a tenth of the knife attraction. *)
Definition biasDelta (oc : OutcomeController.t) : R :=
  OutcomeController.knifeAttractionStrength oc * (1 / 10).

(** [_tickKnifeRace(dt, dA, dB)]. *)
Definition _tickKnifeRace (g : t) (dt : R) : t :=
  match knife g with
  | None => g
  | Some k =>
      let kx := vx (Knife.pos k) in
      let ky := vy (Knife.pos k) in
      let biasDelta := biasDelta (outcome g) in
      let a := set_entity (dA g)
                 (Ai.applyKnifeSeekSteering (entity (dA g)) kx ky dt biasDelta) in
      let b := set_entity (dB g)
                 (Ai.applyKnifeSeekSteering (entity (dB g)) kx ky dt 0) in
      let g := set_dictators g a b in
      let pickupRadius := BALL_RADIUS + Knife.radius in
      let distA := norm2 (vx (Entity.pos (entity a)) - kx) (vy (Entity.pos (entity a)) - ky) in
      let distB := norm2 (vx (Entity.pos (entity b)) - kx) (vy (Entity.pos (entity b)) - ky) in
      if Rleb distA pickupRadius || Rleb distB pickupRadius
      then _assignRoles g (Rltb distA distB)
      else g
  end.

(** [this.dictators.find(d => d.role === r)]: [Some true] for
    [dictators[0]], [Some false] for [dictators[1]], [None] for
    [undefined]. *)
Definition findRole (g : t) (r : DictatorRole) : option bool :=
  if role_eqb (role (dA g)) r then Some true
  else if role_eqb (role (dB g)) r then Some false
  else None.

(** [_tickChase(dt, dA, dB)].  [None] is the TypeError of steering an
    [undefined] dictator, when no hunter or no runner is found. *)
Definition _tickChase (g : t) (dt : R) : option t :=
  let timer := phaseTimer g - dt in
  match findRole g hunter, findRole g runner with
  | Some hA, Some rA =>
      let get (isA : bool) := if isA then dA g else dB g in
      let hunterD := get hA in
      let runnerD := get rA in
      let isPlayerHunter := role_eqb (role (dA g)) hunter in
      let playerSteerMul :=
        OutcomeController.steeringMultiplier (outcome g) isPlayerHunter in
      let hunterMul := if hA then playerSteerMul else 1 in
      let runnerMul := if rA then playerSteerMul else 1 in
      let hE := Ai.applyHunterSteering (entity hunterD) (entity runnerD) dt hunterMul in
      let '(rE, r') := Ai.applyRunnerSteering (entity runnerD) hE (rng g) dt runnerMul in
      let hunterD := set_entity hunterD hE in
      let runnerD := set_entity runnerD rE in
      let a := if hA then hunterD else if rA then runnerD else dA g in
      let b := if hA then (if rA then dB g else runnerD) else hunterD in
      let g := set_phase (set_rng (set_dictators g a b) r') (phase g) timer in
      let dist := Physics.entityDistance hE rE in
      if Rleb dist (Entity.radius hE + Entity.radius rE) then Some (_endRound g hA)
      else if Rleb timer 0 then Some (_endRound g rA)
      else Some g
  | _, _ => None
  end.

(** The tail of [_tick] for one dictator: renormalise, integrate, bounce. *)
Definition move (d : Dictator.t) (a : Arena.t) (dt : R) : Dictator.t :=
  set_entity d
    (Physics.bounceWalls
       (Physics.integrateEntity
          (Entity.normalizeSpeed (entity d) (currentSpeed d)) dt) a).

(** [_tick(dt)]. *)
Definition _tick (g : t) (dt : R) : option t :=
  let stepped :=
    match phase g with
    | prewait => Some (_tickPrewait g dt)
    | preknife => Some (_tickPreknife g dt)
    | kniferace => Some (_tickKnifeRace g dt)
    | chase => _tickChase g dt
    | idle | ended => Some g
    end in
  match stepped with
  | None => None
  | Some g1 =>
      if phase_eqb (phase g1) ended then Some g1
      else
        let a := move (dA g1) (arena g1) dt in
        let b := move (dB g1) (arena g1) dt in
        let '(_, (ea, eb)) := Physics.bounceEntities (entity a) (entity b) in
        Some (set_dictators g1 (set_entity a ea) (set_entity b eb))
  end.

(** The [while] loop of [_update]: a step and the accumulator lowered by one
    step, as long as a whole step is left in the accumulator and the round
    has not ended.  [fuel] bounds the iterations. *)
Fixpoint drain (fuel : nat) (g : t) : option t :=
  match fuel with
  | O => Some g
  | S k =>
      if Rleb FIXED_DT (accumulator g) then
        match _tick g FIXED_DT with
        | None => None
        | Some g1 =>
            let g2 := set_accumulator g1 (accumulator g1 - FIXED_DT) in
            if phase_eqb (phase g2) ended then Some g2 else drain k g2
        end
      else Some g
  end.

(** [_update(dt)], as far as the round goes: the loop is given the number of
    whole steps in the accumulator as its bound. *)
Definition _update (g : t) (dt : R) : option t :=
  if phase_eqb (phase g) idle || phase_eqb (phase g) ended then Some g
  else
    let g1 := set_accumulator g (accumulator g + dt) in
    drain (Z.to_nat (Rng.floor (accumulator g1 / FIXED_DT))) g1.

(** [n] calls of [_tick(FIXED_DT)] in a row, as the loop of [_update] makes
    them: none once the round has ended. *)
Fixpoint ticks (n : nat) (g : t) : option t :=
  match n with
  | O => Some g
  | S k =>
      if phase_eqb (phase g) ended then Some g
      else match _tick g FIXED_DT with
           | None => None
           | Some g' => ticks k g'
           end
  end.

End Game.

(** ** Simulation.ts: the headless round and the batch runner *)

Module Simulation.

(** [interface SimEntity]. *)
Record SimEntity : Type := mkEntity {
  pos : Vec2;
  vel : Vec2;
  radius : R;
  speedMul : R
}.

(** [interface SimArena]. *)
Record SimArena : Type := mkArena {
  left : R; right : R; top : R; bottom : R; centerX : R; centerY : R
}.

Definition BASE_SPEED : R := 120.
Definition CHASE_SPEED_MUL : R := 2.
Definition PREWAIT_DURATION : R := 1.
Definition PREKNIFE_DURATION : R := 3.
Definition CHASE_DURATION : R := 10.
Definition BALL_RADIUS : R := 28.
Definition KNIFE_RADIUS : R := 20.
Definition FIXED_DT : R := 1 / 60.
Definition ARENA_SIZE : R := 520.

Definition set_pos (e : SimEntity) (p : Vec2) : SimEntity :=
  {| pos := p; vel := vel e; radius := radius e; speedMul := speedMul e |}.
Definition set_vel (e : SimEntity) (v : Vec2) : SimEntity :=
  {| pos := pos e; vel := v; radius := radius e; speedMul := speedMul e |}.
Definition set_speedMul (e : SimEntity) (m : R) : SimEntity :=
  {| pos := pos e; vel := vel e; radius := radius e; speedMul := m |}.

(** [integrate(e, dt)]. *)
Definition integrate (e : SimEntity) (dt : R) : SimEntity :=
  set_pos e (mkVec2 (vx (pos e) + vx (vel e) * dt) (vy (pos e) + vy (vel e) * dt)).

(** [bounceWalls(e, arena)]. *)
Definition bounceWalls (e : SimEntity) (a : SimArena) : SimEntity :=
  let r := radius e in
  let '(px, wx) :=
    if Rltb (vx (pos e) - r) (left a) then (left a + r, Rabs (vx (vel e)))
    else if Rltb (right a) (vx (pos e) + r) then (right a - r, - Rabs (vx (vel e)))
    else (vx (pos e), vx (vel e)) in
  let '(py, wy) :=
    if Rltb (vy (pos e) - r) (top a) then (top a + r, Rabs (vy (vel e)))
    else if Rltb (bottom a) (vy (pos e) + r) then (bottom a - r, - Rabs (vy (vel e)))
    else (vy (pos e), vy (vel e)) in
  {| pos := mkVec2 px py; vel := mkVec2 wx wy; radius := r; speedMul := speedMul e |}.

(** [bounceEntities(a, b)]: it returns nothing. *)
Definition bounceEntities (a b : SimEntity) : SimEntity * SimEntity :=
  let dx := vx (pos b) - vx (pos a) in
  let dy := vy (pos b) - vy (pos a) in
  let dist := norm2 dx dy in
  let minDist := radius a + radius b in
  if Rleb minDist dist || Rltb dist (1 / 10000) then (a, b)
  else
    let overlap := minDist - dist in
    let nx := dx / dist in
    let ny := dy / dist in
    let a1 := set_pos a (mkVec2 (vx (pos a) - nx * overlap * (1 / 2))
                                (vy (pos a) - ny * overlap * (1 / 2))) in
    let b1 := set_pos b (mkVec2 (vx (pos b) + nx * overlap * (1 / 2))
                                (vy (pos b) + ny * overlap * (1 / 2))) in
    let relVx := vx (vel a1) - vx (vel b1) in
    let relVy := vy (vel a1) - vy (vel b1) in
    let dot := relVx * nx + relVy * ny in
    if Rltb 0 dot
    then (set_vel a1 (mkVec2 (vx (vel a1) - dot * nx) (vy (vel a1) - dot * ny)),
          set_vel b1 (mkVec2 (vx (vel b1) + dot * nx) (vy (vel b1) + dot * ny)))
    else (a1, b1).

(** [dist2D(a, b)]. *)
Definition dist2D (a b : Vec2) : R := norm2 (vx a - vx b) (vy a - vy b).

(** [normSpeed(e, speed)]. *)
Definition normSpeed (e : SimEntity) (speed : R) : SimEntity :=
  let s := norm2 (vx (vel e)) (vy (vel e)) in
  if Rltb s (1 / 10000) then e
  else set_vel e (mkVec2 (vx (vel e) / s * speed) (vy (vel e) / s * speed)).

(** [normSpeed] with each division of the source checked, [None] standing
    for a division by zero. *)
Definition normSpeed_checked (e : SimEntity) (speed : R) : option SimEntity :=
  let s := norm2 (vx (vel e)) (vy (vel e)) in
  if Rltb s (1 / 10000) then Some e
  else
    match Entity.checked_div (vx (vel e)) s, Entity.checked_div (vy (vel e)) s with
    | Some qx, Some qy => Some (set_vel e (mkVec2 (qx * speed) (qy * speed)))
    | _, _ => None
    end.

(** [wanderImpulse(e, rng, dt, mul)]. *)
Definition wanderImpulse (e : SimEntity) (rng : Rng.t) (dt mul : R)
  : SimEntity * Rng.t :=
  let '(a, r1) := Rng.range rng 0 (PI * 2) in
  let '(m, r2) := Rng.range r1 0 80 in
  let mag := m * mul in
  (set_vel e (mkVec2 (vx (vel e) + cos a * mag * dt) (vy (vel e) + sin a * mag * dt)), r2).

(** [hunterImpulse(hunter, target, dt, mul)]. *)
Definition hunterImpulse (hunter target : SimEntity) (dt mul : R) : SimEntity :=
  let dx := vx (pos target) - vx (pos hunter) in
  let dy := vy (pos target) - vy (pos hunter) in
  let d := norm2 dx dy in
  if Rltb d (1 / 1000) then hunter
  else set_vel hunter (mkVec2 (vx (vel hunter) + dx / d * 200 * mul * dt)
                              (vy (vel hunter) + dy / d * 200 * mul * dt)).

(** [runnerImpulse(runner, pursuer, rng, dt, mul)]. *)
Definition runnerImpulse (runner pursuer : SimEntity) (rng : Rng.t) (dt mul : R)
  : SimEntity * Rng.t :=
  let dx := vx (pos runner) - vx (pos pursuer) in
  let dy := vy (pos runner) - vy (pos pursuer) in
  let d := norm2 dx dy in
  if Rltb d (1 / 1000) then (runner, rng)
  else
    let '(perp, r') := Rng.range rng (- (4 / 10)) (4 / 10) in
    let ex := dx / d + (- dy / d) * perp in
    let ey := dy / d + dx / d * perp in
    (set_vel runner (mkVec2 (vx (vel runner) + ex * 200 * mul * dt)
                            (vy (vel runner) + ey * 200 * mul * dt)), r').

(** [centerAttract(e, cx, cy, dt, strength)]. *)
Definition centerAttract (e : SimEntity) (cx cy dt strength : R) : SimEntity :=
  let dx := cx - vx (pos e) in
  let dy := cy - vy (pos e) in
  let d := norm2 dx dy in
  if Rltb d (1 / 1000) then e
  else set_vel e (mkVec2 (vx (vel e) + dx / d * strength * dt)
                         (vy (vel e) + dy / d * strength * dt)).

(** The local variables of [simulateRound] that live across iterations of
    its loop; [phaseTimer] and [preknifeDone], which the source declares and
    never reads, are left out. *)
Record Loop : Type := mkLoop {
  ePlayer : SimEntity;
  eOpponent : SimEntity;
  rng : Rng.t;
  knifePickedUp : bool;
  playerIsHunter : bool;
  chaseTimer : R;
  knifeSpawned : bool;
  prewaitDone : bool;
  prewaitTimer : R;
  preknifeDone2Timer : R
}.

(** The phase an iteration of the loop runs in, by the flags the chain of
    conditionals tests. *)
Definition phaseOf (st : Loop) : Game.GamePhase :=
  if negb (prewaitDone st) then Game.prewait
  else if negb (knifeSpawned st) then Game.preknife
  else if negb (knifePickedUp st) then Game.kniferace
  else Game.chase.

(** [MAX_TICKS]: [Math.ceil((1 + 3 + 10 + 5) / FIXED_DT)], the integer 1140
    that the quotient is in real arithmetic. *)
Definition MAX_TICKS : nat := 1140.

(** The state at the head of the loop: the first lines of [simulateRound],
    after [sampleOutcome]. *)
Definition initRound (r : Rng.t) (oc : OutcomeController.t) (arena : SimArena) : Loop :=
  let cx := centerX arena in
  let cy := centerY arena in
  let sep := BALL_RADIUS * 3 in
  let ePlayer := {| pos := mkVec2 (cx - sep) cy; vel := mkVec2 0 0;
                    radius := BALL_RADIUS;
                    speedMul := OutcomeController.speedMultiplier oc |} in
  let eOpponent := {| pos := mkVec2 (cx + sep) cy; vel := mkVec2 0 0;
                      radius := BALL_RADIUS; speedMul := 1 |} in
  let '(a1, r1) := Rng.range r 0 (PI * 2) in
  let '(j, r2) := Rng.range r1 (- (1 / 2)) (1 / 2) in
  let a2 := a1 + PI + j in
  {| ePlayer := set_vel ePlayer (mkVec2 (cos a1 * BASE_SPEED) (sin a1 * BASE_SPEED));
     eOpponent := set_vel eOpponent (mkVec2 (cos a2 * BASE_SPEED) (sin a2 * BASE_SPEED));
     rng := r2;
     knifePickedUp := false; playerIsHunter := false;
     chaseTimer := CHASE_DURATION;
     knifeSpawned := false; prewaitDone := false;
     prewaitTimer := PREWAIT_DURATION;
     preknifeDone2Timer := PREKNIFE_DURATION |}.

(** The chain of conditionals at the head of the loop body: [inl b] is
    [return b]. *)
Definition phaseStep (oc : OutcomeController.t) (arena : SimArena) (st : Loop)
  : bool + Loop :=
  let dt := FIXED_DT in
  let cx := centerX arena in
  let cy := centerY arena in
  if negb (prewaitDone st) then
    let timer := prewaitTimer st - dt in
    let '(p, r1) := wanderImpulse (ePlayer st) (rng st) dt (1 / 2) in
    let '(o, r2) := wanderImpulse (eOpponent st) r1 dt (1 / 2) in
    inr (mkLoop p o r2 (knifePickedUp st) (playerIsHunter st) (chaseTimer st)
           (knifeSpawned st) (Rleb timer 0) timer (preknifeDone2Timer st))
  else if negb (knifeSpawned st) then
    let timer := preknifeDone2Timer st - dt in
    let '(p, r1) := wanderImpulse (ePlayer st) (rng st) dt 1 in
    let '(o, r2) := wanderImpulse (eOpponent st) r1 dt 1 in
    inr (mkLoop p o r2 (knifePickedUp st) (playerIsHunter st) (chaseTimer st)
           (Rleb timer 0) (prewaitDone st) (prewaitTimer st) timer)
  else if negb (knifePickedUp st) then
    let knifeAttr := OutcomeController.knifeAttractionStrength oc in
    let p0 := centerAttract (ePlayer st) cx cy dt knifeAttr in
    let '(p, r1) := wanderImpulse p0 (rng st) dt (8 / 10) in
    let '(o, r2) := wanderImpulse (eOpponent st) r1 dt (8 / 10) in
    let pickupRadius := BALL_RADIUS + KNIFE_RADIUS in
    let dpA := dist2D (pos p) (mkVec2 cx cy) in
    let dpB := dist2D (pos o) (mkVec2 cx cy) in
    if Rleb dpA pickupRadius || Rleb dpB pickupRadius then
      let chaseSpeed := BASE_SPEED * CHASE_SPEED_MUL in
      let p1 := set_speedMul p (OutcomeController.speedMultiplier oc) in
      inr (mkLoop (normSpeed p1 (chaseSpeed * speedMul p1)) (normSpeed o chaseSpeed) r2
             true (Rltb dpA dpB) (chaseTimer st)
             (knifeSpawned st) (prewaitDone st) (prewaitTimer st)
             (preknifeDone2Timer st))
    else
      inr (mkLoop p o r2 (knifePickedUp st) (playerIsHunter st) (chaseTimer st)
             (knifeSpawned st) (prewaitDone st) (prewaitTimer st)
             (preknifeDone2Timer st))
  else
    let timer := chaseTimer st - dt in
    let isPlayerHunter := playerIsHunter st in
    let playerSteerMul := OutcomeController.steeringMultiplier oc isPlayerHunter in
    let hunter := if isPlayerHunter then ePlayer st else eOpponent st in
    let runner := if isPlayerHunter then eOpponent st else ePlayer st in
    let hunterMul := if isPlayerHunter then playerSteerMul else 1 in
    let runnerMul := if negb isPlayerHunter then playerSteerMul else 1 in
    let hunter := hunterImpulse hunter runner dt hunterMul in
    let '(runner, r1) := runnerImpulse runner hunter (rng st) dt runnerMul in
    let hunter := normSpeed hunter (BASE_SPEED * CHASE_SPEED_MUL * speedMul hunter) in
    let runner := normSpeed runner (BASE_SPEED * CHASE_SPEED_MUL * speedMul runner) in
    let d := dist2D (pos hunter) (pos runner) in
    if Rleb d (radius hunter + radius runner) then inl (playerIsHunter st)
    else if Rleb timer 0 then inl (negb (playerIsHunter st))
    else
      inr (mkLoop (if isPlayerHunter then hunter else runner)
             (if isPlayerHunter then runner else hunter) r1
             (knifePickedUp st) (playerIsHunter st) timer
             (knifeSpawned st) (prewaitDone st) (prewaitTimer st)
             (preknifeDone2Timer st)).

(** The two [normSpeed] calls that precede the integration. *)
Definition preIntegrate (st : Loop) : Loop :=
  mkLoop (normSpeed (ePlayer st) (BASE_SPEED * speedMul (ePlayer st)))
    (normSpeed (eOpponent st) BASE_SPEED) (rng st)
    (knifePickedUp st) (playerIsHunter st) (chaseTimer st)
    (knifeSpawned st) (prewaitDone st) (prewaitTimer st) (preknifeDone2Timer st).

(** The tail of the loop body: integrate and bounce. *)
Definition integrateAndBounce (arena : SimArena) (st : Loop) : Loop :=
  let p := bounceWalls (integrate (ePlayer st) FIXED_DT) arena in
  let o := bounceWalls (integrate (eOpponent st) FIXED_DT) arena in
  let '(p', o') := bounceEntities p o in
  mkLoop p' o' (rng st)
    (knifePickedUp st) (playerIsHunter st) (chaseTimer st)
    (knifeSpawned st) (prewaitDone st) (prewaitTimer st) (preknifeDone2Timer st).

(** One iteration of the loop. *)
Definition tickBody (oc : OutcomeController.t) (arena : SimArena) (st : Loop)
  : bool + Loop :=
  match phaseStep oc arena st with
  | inl b => inl b
  | inr st1 => inr (integrateAndBounce arena (preIntegrate st1))
  end.

(** The loop of [simulateRound], bounded by the tick ceiling, with the state
    after each completed iteration recorded; past the ceiling the fallback
    [!playerIsHunter] is returned. *)
Fixpoint loop (fuel : nat) (oc : OutcomeController.t) (arena : SimArena) (st : Loop)
  : list Loop * bool :=
  match fuel with
  | O => ([], negb (playerIsHunter st))
  | S k =>
      match tickBody oc arena st with
      | inl b => ([], b)
      | inr st' => let '(tr, b) := loop k oc arena st' in (st' :: tr, b)
      end
  end.

(** What one call of [simulateRound] leaves behind: the boolean it returns,
    the states it went through, and the controller it has written to. *)
Record Run : Type := mkRun {
  result : bool;
  trace : list Loop;
  outcomeAfter : OutcomeController.t
}.

Definition runRound (r : Rng.t) (outcome : OutcomeController.t) (arena : SimArena)
  : Run :=
  let '(oc, r1) := OutcomeController.sampleOutcome outcome r in
  let st0 := initRound r1 oc arena in
  let '(tr, b) := loop MAX_TICKS oc arena st0 in
  {| result := b; trace := st0 :: tr; outcomeAfter := oc |}.

(** [simulateRound(rng, outcome, arena)]. *)
Definition simulateRound (r : Rng.t) (outcome : OutcomeController.t)
  (arena : SimArena) : bool :=
  result (runRound r outcome arena).

(** [interface SimulationResult]. *)
Record SimulationResult : Type := mkResult {
  rounds : nat;
  wins : nat;
  losses : nat;
  observedWinRate : R;
  totalBet : R;
  totalPayout : R;
  rtp : R;
  configuredWinChance : R;
  expectedRtp : R
}.

Definition PAYOUT_MUL : R := 19 / 10.

Definition defaultArena : SimArena :=
  {| left := 0; right := ARENA_SIZE; top := 0; bottom := ARENA_SIZE;
     centerX := ARENA_SIZE / 2; centerY := ARENA_SIZE / 2 |}.

(** The loop of [runSimulation] from round [i] on, for [n] more rounds: the
    one controller is handed from round to round. *)
Fixpoint batch (n : nat) (i : Z) (baseSeed : Z) (betAmount : R)
  (outcome : OutcomeController.t) (wins : nat) (totalPayout : R) : nat * R :=
  match n with
  | O => (wins, totalPayout)
  | S k =>
      let run := runRound (Rng.new (baseSeed + i)) outcome defaultArena in
      if result run
      then batch k (i + 1) baseSeed betAmount (outcomeAfter run)
             (S wins) (totalPayout + betAmount * PAYOUT_MUL)
      else batch k (i + 1) baseSeed betAmount (outcomeAfter run) wins totalPayout
  end.

(** [runSimulation(rounds, winChance, betAmount, baseSeed)]. *)
Definition runSimulation (rounds : nat) (winChance betAmount : R) (baseSeed : Z)
  : SimulationResult :=
  let outcome := OutcomeController.new winChance in
  let '(wins, totalPayout) := batch rounds 0 baseSeed betAmount outcome 0 0 in
  let totalBet := INR rounds * betAmount in
  {| rounds := rounds; wins := wins; losses := rounds - wins;
     observedWinRate := INR wins / INR rounds;
     totalBet := totalBet; totalPayout := totalPayout;
     rtp := totalPayout / totalBet;
     configuredWinChance := winChance;
     expectedRtp := PAYOUT_MUL * winChance |}.

End Simulation.

(** ** Relating the headless types to the interactive ones *)

(** The entity a [SimEntity] is, without its speed multiplier. *)
Definition toEntity (s : Simulation.SimEntity) : Entity.t :=
Entity.mk (Simulation.pos s) (Simulation.vel s) (Simulation.radius s).

(** The arena a [SimArena] describes when it is a square. *)
Definition toSimArena (a : Arena.t) : Simulation.SimArena :=
Simulation.mkArena (Arena.left a) (Arena.right a) (Arena.top a) (Arena.bottom a)
  (Arena.centerX a) (Arena.centerY a).

(** ** Independent rounds *)

(** The number of rounds won among [n] rounds run one by one, each on its own
    generator seeded [baseSeed + i], [baseSeed + i + 1], ... and each with the
    same controller [oc] as it is before any round. *)
Fixpoint independentWins (n : nat) (i : Z) (baseSeed : Z) (oc : OutcomeController.t)
  : nat :=
  match n with
  | O => 0%nat
  | S k =>
      ((if Simulation.simulateRound (Rng.new (baseSeed + i)) oc Simulation.defaultArena
        then 1 else 0)
       + independentWins k (i + 1) baseSeed oc)%nat
  end.

(** ** The state of the headless round after a number of iterations *)

(** [n] iterations of the loop of [simulateRound] from [st]; [None] once the
    round has returned. *)
Fixpoint stateAfter (n : nat) (oc : OutcomeController.t) (arena : Simulation.SimArena)
  (st : Simulation.Loop) : option Simulation.Loop :=
  match n with
  | O => Some st
  | S k =>
      match Simulation.tickBody oc arena st with
      | inl _ => None
      | inr st' => stateAfter k oc arena st'
      end
  end.

(** ** The phases past the knife spawn, in the interactive path *)

(** One dictator is the hunter and the other the runner. *)
Definition rolesAssigned (g : Game.t) : Prop :=
  (Dictator.role (Game.dA g) = Dictator.hunter
   /\ Dictator.role (Game.dB g) = Dictator.runner)
  \/ (Dictator.role (Game.dA g) = Dictator.runner
      /\ Dictator.role (Game.dB g) = Dictator.hunter).

(** The round is in the knife race, in the chase with the roles assigned, or
    has ended. *)
Definition pastPreknife (g : Game.t) : Prop :=
  Game.phase g = Game.kniferace
  \/ (Game.phase g = Game.chase /\ rolesAssigned g)
  \/ Game.phase g = Game.ended.

(** * Properties *)

(** ** Comparisons and norms *)

Lemma Rltb_true (x y : R) : Rltb x y = true <-> x < y.
Proof. unfold Rltb; destruct (Rlt_dec x y); split; intros; try easy. Qed.

Lemma Rltb_false (x y : R) : Rltb x y = false <-> y <= x.
Proof.
  unfold Rltb; destruct (Rlt_dec x y); split; intros; try easy; lra.
Qed.

Lemma Rleb_true (x y : R) : Rleb x y = true <-> x <= y.
Proof. unfold Rleb; destruct (Rle_dec x y); split; intros; try easy. Qed.

Lemma Rleb_false (x y : R) : Rleb x y = false <-> y < x.
Proof.
  unfold Rleb; destruct (Rle_dec x y); split; intros; try easy; lra.
Qed.

Lemma norm2_nonneg (x y : R) : 0 <= norm2 x y.
Proof. apply sqrt_pos. Qed.

Lemma norm2_sqr (x y : R) : norm2 x y * norm2 x y = x * x + y * y.
Proof. unfold norm2. apply sqrt_sqrt. nra. Qed.

(** The norm of a scaled vector. *)
Lemma norm2_scale (k x y : R) : norm2 (k * x) (k * y) = Rabs k * norm2 x y.
Proof.
  unfold norm2.
  replace (k * x * (k * x) + k * y * (k * y)) with ((k * k) * (x * x + y * y))
    by ring.
  rewrite sqrt_mult_alt by nra.
  f_equal.
  replace (k * k) with (Rsqr k) by (unfold Rsqr; ring).
  apply sqrt_Rsqr_abs.
Qed.

(** A lower bound on a norm, used to evaluate guards at concrete inputs. *)
Lemma norm2_lower (c x y : R) : 0 <= c -> c * c <= x * x + y * y -> c <= norm2 x y.
Proof.
  intros Hc H. unfold norm2.
  rewrite <- (sqrt_square c) by exact Hc.
  apply sqrt_le_1_alt. exact H.
Qed.

(** The norm of an axis-aligned vector. *)
Lemma norm2_axis_x (x : R) : norm2 x 0 = Rabs x.
Proof.
  unfold norm2. replace (x * x + 0 * 0) with (Rsqr x) by (unfold Rsqr; ring).
  apply sqrt_Rsqr_abs.
Qed.

(** The first draw for the seed 42 is the one mulberry32 is known to give,
    0.6011037519201636 * 2^32. *)
Example rng_first_draw_42 :
  fst (Rng.next_u32 (Rng.new 42)) = 2581720956%Z.
Proof. vm_compute. reflexivity. Qed.

(** ** Norms of directions *)

Lemma norm2_unit (x y : R) :
  0 < norm2 x y -> norm2 (x / norm2 x y) (y / norm2 x y) = 1.
Proof.
  intros Hpos.
  replace (x / norm2 x y) with (/ norm2 x y * x) by (field; lra).
  replace (y / norm2 x y) with (/ norm2 x y * y) by (field; lra).
  rewrite norm2_scale.
  rewrite Rabs_right.
  - field; lra.
  - left. apply Rinv_0_lt_compat. exact Hpos.
Qed.

Lemma norm2_3_4 : norm2 3 4 = 5.
Proof.
  unfold norm2. replace (3 * 3 + 4 * 4) with (5 * 5) by ring.
  apply sqrt_square. lra.
Qed.

Lemma norm2_0_0 : norm2 0 0 = 0.
Proof. unfold norm2. replace (0 * 0 + 0 * 0) with 0 by ring. apply sqrt_0. Qed.

(** ** The stored win probability (OutcomeController.ts) *)

Section WinChance.

Import OutcomeController.

(** [setWinChance] stores a probability, whatever it is given. *)
Lemma setWinChance_unit (c : t) (p : R) :
  0 <= winChance (setWinChance c p) <= 1.
Proof.
  simpl. split.
  - apply Rmax_l.
  - apply Rmax_lub; [lra | apply Rmin_l].
Qed.

(** [sampleOutcome] leaves the stored probability and the bias alone. *)
Lemma sampleOutcome_keeps (c : t) (r : Rng.t) :
  winChance (fst (sampleOutcome c r)) = winChance c
  /\ bias (fst (sampleOutcome c r)) = bias c.
Proof.
  unfold sampleOutcome. destruct (Rng.next r) as [u r']. simpl. split; reflexivity.
Qed.

(** The probability every round of the interactive path samples against:
    [_onPlay] goes through [setWinChance] first. *)
Lemma onPlay_winChance_unit (c : t) (p : R) (r : Rng.t) :
  0 <= winChance (fst (sampleOutcome (setWinChance c p) r)) <= 1.
Proof.
  destruct (sampleOutcome_keeps (setWinChance c p) r) as [-> _].
  apply setWinChance_unit.
Qed.

End WinChance.

(** C9, at the constructor argument 1.5: the controller stores 1.5, which is
    outside [0, 1], it is what [sampleOutcome] then compares the draw with,
    and it is the controller [runSimulation] runs its rounds with; the sibling
    [setWinChance] stores 1 for the same argument. *)
Theorem C9_constructor_stores_unclamped :
  let c := OutcomeController.new (3 / 2) in
  OutcomeController.winChance c = 3 / 2
  /\ ~ (0 <= OutcomeController.winChance c <= 1)
  /\ OutcomeController.winChance
       (fst (OutcomeController.sampleOutcome c (Rng.new 42))) = 3 / 2
  /\ OutcomeController.winChance
       (Simulation.outcomeAfter (Simulation.runRound (Rng.new 42) c Simulation.defaultArena))
     = 3 / 2
  /\ OutcomeController.winChance (OutcomeController.setWinChance c (3 / 2)) = 1.
Proof.
  cbv zeta. repeat split.
  - simpl. lra.
  - unfold Simulation.runRound.
    destruct (OutcomeController.sampleOutcome _ _) as [oc r1] eqn:E.
    destruct (Simulation.loop _ _ _ _) as [tr b]. simpl.
    pose proof (sampleOutcome_keeps (OutcomeController.new (3 / 2)) (Rng.new 42)) as [H _].
    rewrite E in H. exact H.
  - simpl. rewrite Rmin_left by lra. rewrite Rmax_right by lra. reflexivity.
Qed.

(** ** Speed renormalisation (Entity.normalizeSpeed, Simulation.normSpeed) *)

Section NormalizeSpeed.

(** The core of both functions: a velocity [(x, y)] of norm at least the
    guard, rescaled to [target]. *)
Lemma rescale_norm (x y target : R) :
  1 / 10000 <= norm2 x y ->
  norm2 (x / norm2 x y * target) (y / norm2 x y * target) = Rabs target.
Proof.
  intros Hs.
  replace (x / norm2 x y * target) with (target * (x / norm2 x y)) by ring.
  replace (y / norm2 x y * target) with (target * (y / norm2 x y)) by ring.
  rewrite norm2_scale, norm2_unit by lra. ring.
Qed.

Lemma checked_div_some (a b : R) :
  b <> 0 -> Entity.checked_div a b = Some (a / b).
Proof.
  intros Hb. unfold Entity.checked_div.
  destruct (Req_dec_T b 0) as [E | _]; [contradiction | reflexivity].
Qed.

(** Neither function divides by zero: the checked versions never fail and
    return what the plain ones return. *)
Lemma normalizeSpeed_total (e : Entity.t) (target : R) :
  Entity.normalizeSpeed_checked e target = Some (Entity.normalizeSpeed e target).
Proof.
  unfold Entity.normalizeSpeed_checked, Entity.normalizeSpeed.
  destruct (Rltb (Entity.speed e) (1 / 10000)) eqn:G; [reflexivity |].
  apply Rltb_false in G.
  rewrite !checked_div_some by lra. reflexivity.
Qed.

Lemma normSpeed_total (e : Simulation.SimEntity) (target : R) :
  Simulation.normSpeed_checked e target = Some (Simulation.normSpeed e target).
Proof.
  unfold Simulation.normSpeed_checked, Simulation.normSpeed.
  destruct (Rltb _ (1 / 10000)) eqn:G; [reflexivity |].
  apply Rltb_false in G.
  rewrite !checked_div_some by lra. reflexivity.
Qed.

(** Below the guard the entity is returned as it is. *)
Lemma normSpeed_slow (e : Simulation.SimEntity) (target : R) :
  norm2 (vx (Simulation.vel e)) (vy (Simulation.vel e)) < 1 / 10000 ->
  Simulation.normSpeed e target = e.
Proof.
  intros H. unfold Simulation.normSpeed.
  apply Rltb_true in H. rewrite H. reflexivity.
Qed.

(** At or above the guard the speed becomes the absolute value of the
    target. *)
Lemma normSpeed_fast (e : Simulation.SimEntity) (target : R) :
  1 / 10000 <= norm2 (vx (Simulation.vel e)) (vy (Simulation.vel e)) ->
  let e' := Simulation.normSpeed e target in
  norm2 (vx (Simulation.vel e')) (vy (Simulation.vel e')) = Rabs target
  /\ Simulation.pos e' = Simulation.pos e
  /\ Simulation.radius e' = Simulation.radius e
  /\ Simulation.speedMul e' = Simulation.speedMul e.
Proof.
  intros H. cbv zeta. unfold Simulation.normSpeed.
  pose proof H as G. apply Rltb_false in G. rewrite G. simpl.
  rewrite rescale_norm by exact H. repeat split.
Qed.

Lemma normalizeSpeed_fast (e : Entity.t) (target : R) :
  1 / 10000 <= Entity.speed e ->
  Entity.speed (Entity.normalizeSpeed e target) = Rabs target.
Proof.
  intros H. unfold Entity.normalizeSpeed.
  pose proof H as G. apply Rltb_false in G. rewrite G.
  unfold Entity.speed in *. simpl. apply rescale_norm. exact H.
Qed.

End NormalizeSpeed.

(** C10.  [normalizeSpeed] and [normSpeed] are total: the radicand of the
    square root is never negative and the divisor is never zero (the checked
    versions always succeed), so no operation of theirs is undefined.  Below
    the guard of 0.0001 the entity is unchanged.  From the guard on, position
    and radius are kept and the new velocity is the old one times
    [k = target / speed]: for a target speed, which is not negative, the new
    speed is the target, and for a positive one, as every caller passes, [k]
    is positive, the direction is the old one.  (In general the new speed is
    the absolute value of the target.) *)
Theorem C10_normalize_speed (e : Entity.t) (s : Simulation.SimEntity) (target : R) :
  Entity.normalizeSpeed_checked e target = Some (Entity.normalizeSpeed e target)
  /\ Simulation.normSpeed_checked s target = Some (Simulation.normSpeed s target)
  /\ 0 <= vx (Entity.vel e) * vx (Entity.vel e) + vy (Entity.vel e) * vy (Entity.vel e)
  /\ 0 <= vx (Simulation.vel s) * vx (Simulation.vel s)
          + vy (Simulation.vel s) * vy (Simulation.vel s)
  /\ (Entity.speed e < 1 / 10000 -> Entity.normalizeSpeed e target = e)
  /\ (norm2 (vx (Simulation.vel s)) (vy (Simulation.vel s)) < 1 / 10000 ->
      Simulation.normSpeed s target = s)
  /\ (1 / 10000 <= Entity.speed e ->
      let e' := Entity.normalizeSpeed e target in
      let k := target / Entity.speed e in
      Entity.vel e' = mkVec2 (k * vx (Entity.vel e)) (k * vy (Entity.vel e))
      /\ Entity.pos e' = Entity.pos e /\ Entity.radius e' = Entity.radius e
      /\ Entity.speed e' = Rabs target
      /\ (0 <= target -> Entity.speed e' = target /\ 0 <= k /\ (0 < target -> 0 < k)))
  /\ (1 / 10000 <= norm2 (vx (Simulation.vel s)) (vy (Simulation.vel s)) ->
      let s' := Simulation.normSpeed s target in
      let k := target / norm2 (vx (Simulation.vel s)) (vy (Simulation.vel s)) in
      Simulation.vel s' = mkVec2 (k * vx (Simulation.vel s)) (k * vy (Simulation.vel s))
      /\ Simulation.pos s' = Simulation.pos s
      /\ Simulation.radius s' = Simulation.radius s
      /\ norm2 (vx (Simulation.vel s')) (vy (Simulation.vel s')) = Rabs target
      /\ (0 <= target ->
          norm2 (vx (Simulation.vel s')) (vy (Simulation.vel s')) = target
          /\ 0 <= k /\ (0 < target -> 0 < k))).
Proof.
  split; [apply normalizeSpeed_total |].
  split; [apply normSpeed_total |].
  split; [nra |]. split; [nra |].
  split.
  { intros H. unfold Entity.normalizeSpeed. apply Rltb_true in H. rewrite H. reflexivity. }
  split; [apply normSpeed_slow |].
  split.
  - intros H. cbv zeta.
    pose proof (normalizeSpeed_fast e target H) as Hn.
    assert (Hi : 0 < / Entity.speed e) by (apply Rinv_0_lt_compat; lra).
    split; [| split; [| split; [| split; [exact Hn |]]]].
    + unfold Entity.normalizeSpeed.
      pose proof H as G. apply Rltb_false in G. rewrite G. simpl.
      f_equal; field; lra.
    + unfold Entity.normalizeSpeed. destruct (Rltb _ _); reflexivity.
    + unfold Entity.normalizeSpeed. destruct (Rltb _ _); reflexivity.
    + intros Ht. split; [| split].
      * rewrite Hn. apply Rabs_right. lra.
      * apply Rmult_le_pos; [exact Ht | lra].
      * intros Hp. apply Rmult_lt_0_compat; assumption.
  - intros H. cbv zeta.
    destruct (normSpeed_fast s target H) as (Hn & Hp & Hr & _).
    assert (Hi : 0 < / norm2 (vx (Simulation.vel s)) (vy (Simulation.vel s)))
      by (apply Rinv_0_lt_compat; lra).
    split; [| split; [exact Hp | split; [exact Hr | split; [exact Hn |]]]].
    + unfold Simulation.normSpeed.
      pose proof H as G. apply Rltb_false in G. rewrite G. simpl.
      f_equal; field; lra.
    + intros Ht. split; [| split].
      * rewrite Hn. apply Rabs_right. lra.
      * apply Rmult_le_pos; [exact Ht | lra].
      * intros Hq. apply Rmult_lt_0_compat; assumption.
Qed.

(** C10 at the velocity (3, 4) and the target 10: the new velocity is twice
    the old one. *)
Lemma C10_normalize_speed_witness :
  let e := Entity.mk (mkVec2 0 0) (mkVec2 3 4) 28 in
  Entity.speed (Entity.normalizeSpeed e 10) = 10
  /\ 0 < 10 / Entity.speed e.
Proof.
  cbv zeta.
  pose proof (C10_normalize_speed (Entity.mk (mkVec2 0 0) (mkVec2 3 4) 28)
                (Simulation.mkEntity (mkVec2 0 0) (mkVec2 3 4) 28 1) 10)
    as (_ & _ & _ & _ & _ & _ & H & _).
  assert (Hs : 1 / 10000 <= Entity.speed (Entity.mk (mkVec2 0 0) (mkVec2 3 4) 28)).
  { unfold Entity.speed; simpl. rewrite norm2_3_4. lra. }
  destruct (H Hs) as (_ & _ & _ & _ & H10).
  destruct (H10 ltac:(lra)) as (Hv & _ & Hk).
  split; [exact Hv | apply Hk; lra].
Defined.

(** ** Wall bounce (Physics.bounceWalls, Simulation.bounceWalls) *)

Section BounceWalls.

(** What one axis does, case by case. *)
Lemma bounceAxis_cases (p v r lo hi : R) :
  (p - r < lo -> Physics.bounceAxis p v r lo hi = (lo + r, Rabs v))
  /\ (lo <= p - r -> hi < p + r -> Physics.bounceAxis p v r lo hi = (hi - r, - Rabs v))
  /\ (lo <= p - r -> p + r <= hi -> Physics.bounceAxis p v r lo hi = (p, v)).
Proof.
  unfold Physics.bounceAxis. repeat split.
  - intros H. apply Rltb_true in H. rewrite H. reflexivity.
  - intros H1 H2. apply Rltb_false in H1. apply Rltb_true in H2.
    rewrite H1, H2. reflexivity.
  - intros H1 H2. apply Rltb_false in H1. apply Rltb_false in H2.
    rewrite H1, H2. reflexivity.
Qed.

(** [bounceWalls] is [bounceAxis] on each axis. *)
Lemma bounceWalls_axes (e : Entity.t) (a : Arena.t) :
  let bx := Physics.bounceAxis (vx (Entity.pos e)) (vx (Entity.vel e)) (Entity.radius e)
              (Arena.left a) (Arena.right a) in
  let by_ := Physics.bounceAxis (vy (Entity.pos e)) (vy (Entity.vel e)) (Entity.radius e)
               (Arena.top a) (Arena.bottom a) in
  Physics.bounceWalls e a
  = Entity.mk (mkVec2 (fst bx) (fst by_)) (mkVec2 (snd bx) (snd by_)) (Entity.radius e).
Proof.
  cbv zeta. unfold Physics.bounceWalls.
  destruct (Physics.bounceAxis (vx _) _ _ _ _) as [px wx].
  destruct (Physics.bounceAxis (vy _) _ _ _ _) as [py wy]. reflexivity.
Qed.

(** The headless copy does to a [SimEntity] what [Physics.bounceWalls] does
    to the entity in it. *)
Lemma sim_bounceWalls_agrees (s : Simulation.SimEntity) (a : Arena.t) :
  toEntity (Simulation.bounceWalls s (toSimArena a)) = Physics.bounceWalls (toEntity s) a
  /\ Simulation.speedMul (Simulation.bounceWalls s (toSimArena a)) = Simulation.speedMul s.
Proof.
  unfold Simulation.bounceWalls, Physics.bounceWalls, Physics.bounceAxis, toEntity,
    toSimArena. simpl.
  repeat match goal with
         | |- context [Rltb ?u ?v] => destruct (Rltb u v)
         end; split; reflexivity.
Qed.

End BounceWalls.

(** C6, as the code has it, per axis (x shown against left and right, y
    against top and bottom): past the lower bound the position becomes
    bound + radius and the velocity component its absolute value; otherwise,
    past the upper bound, the position becomes bound - radius and the velocity
    component minus its absolute value; otherwise the axis is unchanged.  So
    the sign flips when the body was moving outward, and an entity past no
    bound is left as it is. *)
Theorem C6_bounce_walls (e : Entity.t) (a : Arena.t) :
  let e' := Physics.bounceWalls e a in
  let r := Entity.radius e in
  (vx (Entity.pos e) - r < Arena.left a ->
     vx (Entity.pos e') = Arena.left a + r
     /\ vx (Entity.vel e') = Rabs (vx (Entity.vel e))
     /\ (vx (Entity.vel e) <= 0 -> vx (Entity.vel e') = - vx (Entity.vel e)))
  /\ (Arena.left a <= vx (Entity.pos e) - r -> Arena.right a < vx (Entity.pos e) + r ->
     vx (Entity.pos e') = Arena.right a - r
     /\ vx (Entity.vel e') = - Rabs (vx (Entity.vel e))
     /\ (0 <= vx (Entity.vel e) -> vx (Entity.vel e') = - vx (Entity.vel e)))
  /\ (Arena.left a <= vx (Entity.pos e) - r -> vx (Entity.pos e) + r <= Arena.right a ->
     vx (Entity.pos e') = vx (Entity.pos e) /\ vx (Entity.vel e') = vx (Entity.vel e))
  /\ (vy (Entity.pos e) - r < Arena.top a ->
     vy (Entity.pos e') = Arena.top a + r
     /\ vy (Entity.vel e') = Rabs (vy (Entity.vel e))
     /\ (vy (Entity.vel e) <= 0 -> vy (Entity.vel e') = - vy (Entity.vel e)))
  /\ (Arena.top a <= vy (Entity.pos e) - r -> Arena.bottom a < vy (Entity.pos e) + r ->
     vy (Entity.pos e') = Arena.bottom a - r
     /\ vy (Entity.vel e') = - Rabs (vy (Entity.vel e))
     /\ (0 <= vy (Entity.vel e) -> vy (Entity.vel e') = - vy (Entity.vel e)))
  /\ (Arena.top a <= vy (Entity.pos e) - r -> vy (Entity.pos e) + r <= Arena.bottom a ->
     vy (Entity.pos e') = vy (Entity.pos e) /\ vy (Entity.vel e') = vy (Entity.vel e))
  /\ (Arena.left a <= vx (Entity.pos e) - r -> vx (Entity.pos e) + r <= Arena.right a ->
      Arena.top a <= vy (Entity.pos e) - r -> vy (Entity.pos e) + r <= Arena.bottom a ->
      e' = e)
  /\ Entity.radius e' = r.
Proof.
  cbv zeta. rewrite bounceWalls_axes. simpl.
  destruct (bounceAxis_cases (vx (Entity.pos e)) (vx (Entity.vel e)) (Entity.radius e)
              (Arena.left a) (Arena.right a)) as (Xl & Xr & Xn).
  destruct (bounceAxis_cases (vy (Entity.pos e)) (vy (Entity.vel e)) (Entity.radius e)
              (Arena.top a) (Arena.bottom a)) as (Yl & Yr & Yn).
  repeat apply conj.
  - intros H. rewrite (Xl H). simpl. repeat split.
    intros Hv. apply Rabs_left1. exact Hv.
  - intros H1 H2. rewrite (Xr H1 H2). simpl. repeat split.
    intros Hv. rewrite Rabs_right by lra. reflexivity.
  - intros H1 H2. rewrite (Xn H1 H2). simpl. split; reflexivity.
  - intros H. rewrite (Yl H). simpl. repeat split.
    intros Hv. apply Rabs_left1. exact Hv.
  - intros H1 H2. rewrite (Yr H1 H2). simpl. repeat split.
    intros Hv. rewrite Rabs_right by lra. reflexivity.
  - intros H1 H2. rewrite (Yn H1 H2). simpl. split; reflexivity.
  - intros H1 H2 H3 H4. rewrite (Xn H1 H2), (Yn H3 H4). simpl.
    destruct e as [[px py] [wx wy] r]. reflexivity.
  - reflexivity.
Qed.

(** C6 as stated fails: a body past the left bound that already moves inward
    (x = 10, radius 28, left = 0, velocity 5) is clamped to x = 28 and keeps
    its velocity 5; it is not turned to -5. *)
Lemma C6_counterexample :
  let e := Entity.mk (mkVec2 10 100) (mkVec2 5 0) 28 in
  let a := Arena.mk 0 0 520 in
  vx (Entity.pos e) - Entity.radius e < Arena.left a
  /\ vx (Entity.pos (Physics.bounceWalls e a)) = Arena.left a + Entity.radius e
  /\ vx (Entity.vel (Physics.bounceWalls e a)) = 5
  /\ vx (Entity.vel (Physics.bounceWalls e a)) <> - vx (Entity.vel e).
Proof.
  cbv zeta.
  assert (H : 10 - 28 < 0) by lra.
  rewrite bounceWalls_axes. simpl.
  destruct (bounceAxis_cases 10 5 28 (Arena.left (Arena.mk 0 0 520))
              (Arena.right (Arena.mk 0 0 520))) as (Xl & _).
  unfold Arena.left, Arena.right in *. simpl in *.
  rewrite (Xl H). simpl. rewrite Rabs_right by lra.
  repeat split; lra.
Qed.

(** C6 at a body past the right bound and moving outward. *)
Lemma C6_bounce_walls_witness :
  let e := Entity.mk (mkVec2 500 100) (mkVec2 7 0) 28 in
  let a := Arena.mk 0 0 520 in
  vx (Entity.pos (Physics.bounceWalls e a)) = Arena.right a - 28
  /\ vx (Entity.vel (Physics.bounceWalls e a)) = - 7.
Proof.
  cbv zeta.
  pose proof (C6_bounce_walls (Entity.mk (mkVec2 500 100) (mkVec2 7 0) 28)
                (Arena.mk 0 0 520)) as (_ & H & _).
  cbv zeta in H. unfold Arena.left, Arena.right in *. simpl in *.
  destruct H as (Hp & _ & Hv); [lra | lra |].
  split; [exact Hp | apply Hv; lra].
Defined.

(** ** Collision of the two bodies (Physics.bounceEntities, Simulation.bounceEntities) *)

Section BounceEntities.

Lemma norm2_opp (x y : R) : norm2 (- x) (- y) = norm2 x y.
Proof. unfold norm2. f_equal. ring. Qed.

(** The centres after the push are [minDist] apart: the difference vector
    [(dx, dy)] of length [dist] grows by [overlap] along itself. *)
Lemma pushed_distance (dx dy minDist : R) :
  0 < norm2 dx dy -> norm2 dx dy < minDist ->
  norm2 (minDist / norm2 dx dy * dx) (minDist / norm2 dx dy * dy) = minDist.
Proof.
  intros Hpos Hlt.
  rewrite norm2_scale, Rabs_right.
  - field; lra.
  - apply Rle_ge. apply Rmult_le_pos; [lra |].
    left. apply Rinv_0_lt_compat. exact Hpos.
Qed.

(** Each body moves by half the overlap. *)
Lemma half_push (dx dy overlap : R) :
  0 < norm2 dx dy -> 0 <= overlap ->
  norm2 (dx / norm2 dx dy * overlap * (1 / 2)) (dy / norm2 dx dy * overlap * (1 / 2))
  = overlap / 2.
Proof.
  intros Hpos Ho.
  replace (dx / norm2 dx dy * overlap * (1 / 2))
    with (overlap / 2 * (dx / norm2 dx dy)) by (field; lra).
  replace (dy / norm2 dx dy * overlap * (1 / 2))
    with (overlap / 2 * (dy / norm2 dx dy)) by (field; lra).
  rewrite norm2_scale, norm2_unit by exact Hpos.
  rewrite Rabs_right by lra. ring.
Qed.

(** The guard of [bounceEntities], as a boolean. *)
Lemma collide_guard (minDist dist : R) :
  (Rleb minDist dist || Rltb dist (1 / 10000) = false
   <-> 1 / 10000 <= dist /\ dist < minDist).
Proof.
  rewrite orb_false_iff, Rleb_false, Rltb_false. tauto.
Qed.

(** Past the guard: the boolean, the new positions and the radii. *)
Lemma bounceEntities_hit (a b : Entity.t) :
  let dx := vx (Entity.pos b) - vx (Entity.pos a) in
  let dy := vy (Entity.pos b) - vy (Entity.pos a) in
  let d := norm2 dx dy in
  let overlap := Entity.radius a + Entity.radius b - d in
  let res := Physics.bounceEntities a b in
  1 / 10000 <= d -> d < Entity.radius a + Entity.radius b ->
  fst res = true
  /\ vx (Entity.pos (fst (snd res))) = vx (Entity.pos a) - dx / d * overlap * (1 / 2)
  /\ vy (Entity.pos (fst (snd res))) = vy (Entity.pos a) - dy / d * overlap * (1 / 2)
  /\ vx (Entity.pos (snd (snd res))) = vx (Entity.pos b) + dx / d * overlap * (1 / 2)
  /\ vy (Entity.pos (snd (snd res))) = vy (Entity.pos b) + dy / d * overlap * (1 / 2)
  /\ Entity.radius (fst (snd res)) = Entity.radius a
  /\ Entity.radius (snd (snd res)) = Entity.radius b.
Proof.
  cbv zeta. intros Hlo Hhi. unfold Physics.bounceEntities.
  assert (G := proj2 (collide_guard _ _) (conj Hlo Hhi)). rewrite G.
  destruct (Rltb 0 _); simpl; repeat split.
Qed.

(** The headless copy moves the two [SimEntity] values as
    [Physics.bounceEntities] moves the entities in them, and keeps their speed
    multipliers. *)
Lemma sim_bounceEntities_agrees (a b : Simulation.SimEntity) :
  let r := Simulation.bounceEntities a b in
  (toEntity (fst r), toEntity (snd r))
  = snd (Physics.bounceEntities (toEntity a) (toEntity b))
  /\ Simulation.speedMul (fst r) = Simulation.speedMul a
  /\ Simulation.speedMul (snd r) = Simulation.speedMul b.
Proof.
  cbv zeta. unfold Simulation.bounceEntities, Physics.bounceEntities, toEntity. simpl.
  destruct (Rleb _ _ || Rltb _ _); [repeat split |].
  destruct (Rltb 0 _); repeat split.
Qed.

End BounceEntities.

(** C7.  For two entities whose centres are at a distance [d] with
    [0.0001 <= d < radiusA + radiusB], [bounceEntities] returns true, the
    centres end [radiusA + radiusB] apart, and the two displacements are
    opposite and of length half the overlap each; outside that range it
    returns false and changes nothing.  The headless copy, which returns
    nothing, leaves the centres at the same distance. *)
Theorem C7_bounce_entities (a b : Entity.t) :
  let d := Physics.entityDistance a b in
  let minDist := Entity.radius a + Entity.radius b in
  let res := Physics.bounceEntities a b in
  let a' := fst (snd res) in
  let b' := snd (snd res) in
  (1 / 10000 <= d -> d < minDist ->
     fst res = true
     /\ Physics.entityDistance a' b' = minDist
     /\ vx (Entity.pos a') - vx (Entity.pos a) = - (vx (Entity.pos b') - vx (Entity.pos b))
     /\ vy (Entity.pos a') - vy (Entity.pos a) = - (vy (Entity.pos b') - vy (Entity.pos b))
     /\ norm2 (vx (Entity.pos a') - vx (Entity.pos a)) (vy (Entity.pos a') - vy (Entity.pos a))
        = (minDist - d) / 2
     /\ norm2 (vx (Entity.pos b') - vx (Entity.pos b)) (vy (Entity.pos b') - vy (Entity.pos b))
        = (minDist - d) / 2
     /\ Entity.radius a' = Entity.radius a /\ Entity.radius b' = Entity.radius b
     /\ forall sa sb : Simulation.SimEntity, toEntity sa = a -> toEntity sb = b ->
        Simulation.dist2D (Simulation.pos (snd (Simulation.bounceEntities sa sb)))
          (Simulation.pos (fst (Simulation.bounceEntities sa sb))) = minDist)
  /\ (minDist <= d \/ d < 1 / 10000 -> res = (false, (a, b))).
Proof.
  cbv zeta. split.
  - intros Hlo Hhi. unfold Physics.entityDistance in Hlo, Hhi.
    destruct (bounceEntities_hit a b Hlo Hhi) as (Hr & Hax & Hay & Hbx & Hby & Hra & Hrb).
    set (dx := vx (Entity.pos b) - vx (Entity.pos a)) in *.
    set (dy := vy (Entity.pos b) - vy (Entity.pos a)) in *.
    assert (Hpos : 0 < norm2 dx dy) by lra.
    assert (Hd : Physics.entityDistance (fst (snd (Physics.bounceEntities a b)))
                   (snd (snd (Physics.bounceEntities a b)))
                 = Entity.radius a + Entity.radius b).
    { unfold Physics.entityDistance. rewrite Hax, Hay, Hbx, Hby.
      etransitivity; [| apply (pushed_distance dx dy _ Hpos Hhi)].
      subst dx dy. f_equal; field; lra. }
    split; [exact Hr |].
    split; [exact Hd |].
    split; [rewrite Hax, Hbx; ring |].
    split; [rewrite Hay, Hby; ring |].
    split.
    { rewrite Hax, Hay. unfold Physics.entityDistance. fold dx dy.
      etransitivity; [| apply (half_push dx dy _ Hpos); lra].
      rewrite <- norm2_opp. f_equal; ring. }
    split.
    { rewrite Hbx, Hby. unfold Physics.entityDistance. fold dx dy.
      etransitivity; [| apply (half_push dx dy _ Hpos); lra].
      f_equal; ring. }
    split; [exact Hra |].
    split; [exact Hrb |].
    intros sa sb Ha Hb.
    destruct (sim_bounceEntities_agrees sa sb) as (Hag & _).
    cbv zeta in Hag. rewrite Ha, Hb in Hag.
    unfold Simulation.dist2D.
    change (Simulation.pos (snd (Simulation.bounceEntities sa sb)))
      with (Entity.pos (toEntity (snd (Simulation.bounceEntities sa sb)))).
    change (Simulation.pos (fst (Simulation.bounceEntities sa sb)))
      with (Entity.pos (toEntity (fst (Simulation.bounceEntities sa sb)))).
    replace (toEntity (snd (Simulation.bounceEntities sa sb)))
      with (snd (snd (Physics.bounceEntities a b))) by (rewrite <- Hag; reflexivity).
    replace (toEntity (fst (Simulation.bounceEntities sa sb)))
      with (fst (snd (Physics.bounceEntities a b))) by (rewrite <- Hag; reflexivity).
    exact Hd.
  - intros H. unfold Physics.bounceEntities, Physics.entityDistance in *.
    assert (G : Rleb (Entity.radius a + Entity.radius b)
                  (norm2 (vx (Entity.pos b) - vx (Entity.pos a))
                         (vy (Entity.pos b) - vy (Entity.pos a)))
                || Rltb (norm2 (vx (Entity.pos b) - vx (Entity.pos a))
                               (vy (Entity.pos b) - vy (Entity.pos a))) (1 / 10000) = true).
    { apply orb_true_iff. destruct H as [H | H].
      - left. apply Rleb_true. exact H.
      - right. apply Rltb_true. exact H. }
    rewrite G. reflexivity.
Qed.

(** C7 at two bodies of radius 3 whose centres are 5 apart. *)
Lemma C7_bounce_entities_witness :
  let a := Entity.mk (mkVec2 0 0) (mkVec2 1 0) 3 in
  let b := Entity.mk (mkVec2 3 4) (mkVec2 0 0) 3 in
  fst (Physics.bounceEntities a b) = true
  /\ Physics.entityDistance (fst (snd (Physics.bounceEntities a b)))
       (snd (snd (Physics.bounceEntities a b))) = 3 + 3.
Proof.
  cbv zeta.
  assert (Hd : Physics.entityDistance (Entity.mk (mkVec2 0 0) (mkVec2 1 0) 3)
                 (Entity.mk (mkVec2 3 4) (mkVec2 0 0) 3) = 5).
  { unfold Physics.entityDistance. simpl.
    replace (3 - 0) with 3 by ring. replace (4 - 0) with 4 by ring. apply norm2_3_4. }
  destruct (C7_bounce_entities (Entity.mk (mkVec2 0 0) (mkVec2 1 0) 3)
              (Entity.mk (mkVec2 3 4) (mkVec2 0 0) 3)) as [H _].
  cbv zeta in H. rewrite Hd in H.
  destruct H as (H1 & H2 & _); [lra | simpl; lra |].
  split; assumption.
Defined.

(** ** The turn-rate cap (Ai.applyImpulse) *)

Section ApplyImpulse.

(** The tangent of the turn allowed in one fixed step. *)
Lemma tan_fixed_step : 0 < tan (Ai.TURN_RATE_CAP * Game.FIXED_DT) < 1.
Proof.
  unfold Ai.TURN_RATE_CAP, Game.FIXED_DT.
  pose proof PI2_1 as Hpi.
  split.
  - apply tan_gt_0; lra.
  - apply Rlt_le_trans with (tan (PI / 4)).
    + apply tan_increasing_1; lra.
    + rewrite tan_PI4. lra.
Qed.

(** [clamp / perpComp] of the source is the cap over the size of the
    perpendicular component. *)
Lemma clamp_factor (cap perp : R) :
  perp <> 0 -> cap * Rsign perp / perp = cap / Rabs perp.
Proof.
  intros Hp. unfold Rsign.
  destruct (Rlt_dec 0 perp) as [Hpos | Hnpos].
  - rewrite Rabs_right by lra. field. exact Hp.
  - destruct (Rlt_dec perp 0) as [Hneg | Hnneg]; [| lra].
    rewrite Rabs_left by exact Hneg. field. exact Hp.
Qed.

Lemma Rsign_abs (x : R) : Rsign x * Rabs x = x.
Proof.
  unfold Rsign.
  destruct (Rlt_dec 0 x) as [Hpos | Hnpos].
  - rewrite Rabs_right by lra. ring.
  - destruct (Rlt_dec x 0) as [Hneg | Hnneg].
    + rewrite Rabs_left by exact Hneg. ring.
    + replace x with 0 by lra. rewrite Rabs_R0. ring.
Qed.

Lemma Rabs_Rsign (x : R) : x <> 0 -> Rabs (Rsign x) = 1.
Proof.
  intros Hx. unfold Rsign.
  destruct (Rlt_dec 0 x); [apply Rabs_R1 |].
  destruct (Rlt_dec x 0); [| lra].
  rewrite Rabs_left; lra.
Qed.

(** What [applyImpulse] does to the velocity when the cap is exceeded: the
    whole impulse is scaled by [cap / |perpComp|]. *)
Lemma applyImpulse_capped (e : Entity.t) (ix iy dt mul : R) :
  let sx := ix * mul * dt in
  let sy := iy * mul * dt in
  let wx := vx (Entity.vel e) + sx in
  let wy := vy (Entity.vel e) + sy in
  let spd := norm2 wx wy in
  let cap := spd * tan (Ai.TURN_RATE_CAP * dt) in
  let perp := Ai.perpOf sx sy (wx / spd) (wy / spd) in
  1 / 1000 < spd -> 0 <= cap -> cap < Rabs perp ->
  Ai.applyImpulse e ix iy dt mul
  = Entity.mk (Entity.pos e)
      (mkVec2 (vx (Entity.vel e) + cap / Rabs perp * sx)
              (vy (Entity.vel e) + cap / Rabs perp * sy))
      (Entity.radius e).
Proof.
  cbv zeta. intros Hspd Hcap Hperp.
  unfold Ai.applyImpulse, Entity.speed, Entity.set_vel. simpl.
  apply Rltb_true in Hspd. rewrite Hspd.
  pose proof Hperp as G. apply Rltb_true in G. rewrite G.
  assert (Hne : Ai.perpOf (ix * mul * dt) (iy * mul * dt)
                  ((vx (Entity.vel e) + ix * mul * dt) /
                   norm2 (vx (Entity.vel e) + ix * mul * dt) (vy (Entity.vel e) + iy * mul * dt))
                  ((vy (Entity.vel e) + iy * mul * dt) /
                   norm2 (vx (Entity.vel e) + ix * mul * dt) (vy (Entity.vel e) + iy * mul * dt))
                <> 0).
  { intros E. rewrite E, Rabs_R0 in Hperp. lra. }
  rewrite clamp_factor by exact Hne.
  f_equal. f_equal; ring.
Qed.

(** Below the cap the impulse is added as it is. *)
Lemma applyImpulse_free (e : Entity.t) (ix iy dt mul : R) :
  let sx := ix * mul * dt in
  let sy := iy * mul * dt in
  let wx := vx (Entity.vel e) + sx in
  let wy := vy (Entity.vel e) + sy in
  let spd := norm2 wx wy in
  let cap := spd * tan (Ai.TURN_RATE_CAP * dt) in
  let perp := Ai.perpOf sx sy (wx / spd) (wy / spd) in
  1 / 1000 < spd -> Rabs perp <= cap ->
  Ai.applyImpulse e ix iy dt mul
  = Entity.mk (Entity.pos e) (mkVec2 wx wy) (Entity.radius e).
Proof.
  cbv zeta. intros Hspd Hperp.
  unfold Ai.applyImpulse, Entity.speed, Entity.set_vel. simpl.
  apply Rltb_true in Hspd. rewrite Hspd.
  apply Rltb_false in Hperp. rewrite Hperp. reflexivity.
Qed.

End ApplyImpulse.

(** C5, as the code has it.  When the speed after the impulse is above the
    guard of 0.001 and the perpendicular component of the impulse exceeds the
    cap [speed * tan(TURN_RATE_CAP * dt)] (a cap that is not negative), the
    velocity change applied is the whole impulse scaled by
    [cap / |perpComp|]: its perpendicular component is the cap with the sign
    of [perpComp], and its parallel component is the parallel component of the
    impulse scaled by the same factor, which is below 1.  Position and radius
    are untouched. *)
Theorem C5_apply_impulse (e : Entity.t) (ix iy dt mul : R) :
  let sx := ix * mul * dt in
  let sy := iy * mul * dt in
  let wx := vx (Entity.vel e) + sx in
  let wy := vy (Entity.vel e) + sy in
  let spd := norm2 wx wy in
  let nx := wx / spd in
  let ny := wy / spd in
  let cap := spd * tan (Ai.TURN_RATE_CAP * dt) in
  let perp := Ai.perpOf sx sy nx ny in
  let e' := Ai.applyImpulse e ix iy dt mul in
  let ax := vx (Entity.vel e') - vx (Entity.vel e) in
  let ay := vy (Entity.vel e') - vy (Entity.vel e) in
  let factor := cap / Rabs perp in
  1 / 1000 < spd -> 0 <= cap -> cap < Rabs perp ->
  ax = factor * sx /\ ay = factor * sy
  /\ Ai.perpOf ax ay nx ny = cap * Rsign perp
  /\ Rabs (Ai.perpOf ax ay nx ny) = cap
  /\ Ai.parOf ax ay nx ny = factor * Ai.parOf sx sy nx ny
  /\ 0 <= factor < 1
  /\ Entity.pos e' = Entity.pos e /\ Entity.radius e' = Entity.radius e.
Proof.
  cbv zeta. intros Hspd Hcap Hperp.
  rewrite (applyImpulse_capped e ix iy dt mul Hspd Hcap Hperp). simpl.
  set (sx := ix * mul * dt) in *. set (sy := iy * mul * dt) in *.
  set (spd := norm2 (vx (Entity.vel e) + sx) (vy (Entity.vel e) + sy)) in *.
  set (nx := (vx (Entity.vel e) + sx) / spd) in *.
  set (ny := (vy (Entity.vel e) + sy) / spd) in *.
  set (cap := spd * tan (Ai.TURN_RATE_CAP * dt)) in *.
  set (perp := Ai.perpOf sx sy nx ny) in *.
  assert (Hpos : 0 < Rabs perp) by lra.
  assert (Hf : 0 <= cap / Rabs perp < 1).
  { split.
    - apply Rmult_le_pos; [exact Hcap | left; apply Rinv_0_lt_compat; exact Hpos].
    - apply Rmult_lt_reg_r with (Rabs perp); [exact Hpos |].
      replace (cap / Rabs perp * Rabs perp) with cap by (field; lra). lra. }
  assert (Hp : Ai.perpOf (vx (Entity.vel e) + cap / Rabs perp * sx - vx (Entity.vel e))
                 (vy (Entity.vel e) + cap / Rabs perp * sy - vy (Entity.vel e)) nx ny
               = cap * Rsign perp).
  { transitivity (cap / Rabs perp * perp).
    - unfold perp, Ai.perpOf. ring.
    - rewrite <- (Rsign_abs perp) at 2. field. lra. }
  split; [ring |].
  split; [ring |].
  split; [exact Hp |].
  split.
  { rewrite Hp, Rabs_mult, Rabs_Rsign.
    - rewrite Rabs_right by lra. ring.
    - intros E. rewrite E, Rabs_R0 in Hpos. lra. }
  split; [unfold Ai.parOf; ring |].
  split; [exact Hf |].
  split; reflexivity.
Qed.

(** The velocity (8, -6) under the impulse (-300, 600) for one fixed step:
    the sum is (3, 4), of speed 5; the impulse is (-5, 10), with the component
    10 across the new direction and 5 along it; the cap is 5 tan(1/20). *)
Lemma applyImpulse_example :
  let t := tan (Ai.TURN_RATE_CAP * (1 / 60)) in
  norm2 (8 + -300 * 1 * (1 / 60)) (-6 + 600 * 1 * (1 / 60)) = 5
  /\ Ai.perpOf (-5) 10 (3 / 5) (4 / 5) = 10
  /\ Ai.parOf (-5) 10 (3 / 5) (4 / 5) = 5
  /\ 0 < t < 1
  /\ Ai.applyImpulse (Entity.mk (mkVec2 0 0) (mkVec2 8 (-6)) 28) (-300) 600 (1 / 60) 1
     = Entity.mk (mkVec2 0 0) (mkVec2 (8 + t / 2 * -5) (-6 + t / 2 * 10)) 28.
Proof.
  cbv zeta.
  assert (Hs : norm2 (8 + -300 * 1 * (1 / 60)) (-6 + 600 * 1 * (1 / 60)) = 5).
  { replace (8 + -300 * 1 * (1 / 60)) with 3 by lra.
    replace (-6 + 600 * 1 * (1 / 60)) with 4 by lra. apply norm2_3_4. }
  assert (Hp : Ai.perpOf (-5) 10 (3 / 5) (4 / 5) = 10) by (unfold Ai.perpOf; lra).
  assert (Ht := tan_fixed_step). unfold Game.FIXED_DT in Ht.
  split; [exact Hs |]. split; [exact Hp |].
  split; [unfold Ai.parOf; lra |]. split; [exact Ht |].
  pose proof (applyImpulse_capped (Entity.mk (mkVec2 0 0) (mkVec2 8 (-6)) 28)
                (-300) 600 (1 / 60) 1) as H.
  cbv zeta in H. simpl in H. rewrite Hs in H.
  replace (-300 * 1 * (1 / 60)) with (-5) in H by lra.
  replace (600 * 1 * (1 / 60)) with 10 in H by lra.
  replace (8 + -5) with 3 in H by lra.
  replace (-6 + 10) with 4 in H by lra.
  rewrite Hp in H. rewrite (Rabs_right 10) in H by lra.
  rewrite H by lra. f_equal. f_equal; field.
Qed.

(** C5 as stated fails: in the example the parallel component of the impulse
    is 5, and the parallel component of the velocity change applied is
    5 tan(1/20) / 2, below 5/2. *)
Lemma C5_counterexample :
  let e := Entity.mk (mkVec2 0 0) (mkVec2 8 (-6)) 28 in
  let e' := Ai.applyImpulse e (-300) 600 (1 / 60) 1 in
  let sx := -300 * 1 * (1 / 60) in
  let sy := 600 * 1 * (1 / 60) in
  let spd := norm2 (vx (Entity.vel e) + sx) (vy (Entity.vel e) + sy) in
  let nx := (vx (Entity.vel e) + sx) / spd in
  let ny := (vy (Entity.vel e) + sy) / spd in
  1 / 1000 < spd
  /\ spd * tan (Ai.TURN_RATE_CAP * (1 / 60)) < Rabs (Ai.perpOf sx sy nx ny)
  /\ Ai.parOf (vx (Entity.vel e') - vx (Entity.vel e))
       (vy (Entity.vel e') - vy (Entity.vel e)) nx ny
     <> Ai.parOf sx sy nx ny.
Proof.
  cbv zeta. simpl.
  destruct applyImpulse_example as (Hs & Hp & Hq & Ht & He).
  cbv zeta in He. rewrite He, Hs. simpl.
  replace (-300 * 1 * (1 / 60)) with (-5) by lra.
  replace (600 * 1 * (1 / 60)) with 10 by lra.
  replace ((8 + -5) / 5) with (3 / 5) by lra.
  replace ((-6 + 10) / 5) with (4 / 5) by lra.
  rewrite Hp, Hq. rewrite (Rabs_right 10) by lra.
  split; [lra |]. split; [lra |].
  unfold Ai.parOf. lra.
Qed.

(** C5 at the example. *)
Lemma C5_apply_impulse_witness :
  let e := Entity.mk (mkVec2 0 0) (mkVec2 8 (-6)) 28 in
  let e' := Ai.applyImpulse e (-300) 600 (1 / 60) 1 in
  Rabs (Ai.perpOf (vx (Entity.vel e') - 8) (vy (Entity.vel e') - -6) (3 / 5) (4 / 5))
  = 5 * tan (Ai.TURN_RATE_CAP * (1 / 60)).
Proof.
  cbv zeta.
  destruct applyImpulse_example as (Hs & Hp & Hq & Ht & _).
  pose proof (C5_apply_impulse (Entity.mk (mkVec2 0 0) (mkVec2 8 (-6)) 28)
                (-300) 600 (1 / 60) 1) as H.
  cbv zeta in H. simpl in H. rewrite Hs in H.
  replace (-300 * 1 * (1 / 60)) with (-5) in H by lra.
  replace (600 * 1 * (1 / 60)) with 10 in H by lra.
  replace ((8 + -5) / 5) with (3 / 5) in H by lra.
  replace ((-6 + 10) / 5) with (4 / 5) in H by lra.
  rewrite Hp in H. rewrite (Rabs_right 10) in H by lra.
  destruct H as (_ & _ & _ & H & _); [lra | lra | lra |].
  exact H.
Defined.

(** ** Bias magnitudes (OutcomeController.ts and its two users) *)

Section Bias.

Import OutcomeController.

(** The first draw of the generator seeded with 42, and the controller it
    leaves: the target is a win exactly when 0.6011... is below the stored
    probability. *)
Lemma sample_42 (c : t) :
  sampleOutcome c (Rng.new 42)
  = (mk (winChance c) (bias c) (Rltb (IZR 2581720956 / 4294967296) (winChance c)),
     Rng.mk 1831565855 42).
Proof.
  unfold sampleOutcome, Rng.next.
  replace (Rng.next_u32 (Rng.new 42)) with (2581720956%Z, Rng.mk 1831565855 42)
    by (vm_compute; reflexivity).
  reflexivity.
Qed.

(** The velocity [centerAttract] adds has the size [|strength| * dt], or is
    zero within the guard. *)
Lemma centerAttract_size (e : Simulation.SimEntity) (cx cy dt strength : R) :
  0 <= dt ->
  let e' := Simulation.centerAttract e cx cy dt strength in
  let d := norm2 (cx - vx (Simulation.pos e)) (cy - vy (Simulation.pos e)) in
  (1 / 1000 <= d ->
   norm2 (vx (Simulation.vel e') - vx (Simulation.vel e))
         (vy (Simulation.vel e') - vy (Simulation.vel e)) = Rabs strength * dt)
  /\ (d < 1 / 1000 -> e' = e).
Proof.
  intros Hdt. cbv zeta. unfold Simulation.centerAttract. split.
  - intros Hd. pose proof Hd as G. apply Rltb_false in G. rewrite G. simpl.
    set (dx := cx - vx (Simulation.pos e)) in *.
    set (dy := cy - vy (Simulation.pos e)) in *.
    replace (vx (Simulation.vel e) + dx / norm2 dx dy * strength * dt - vx (Simulation.vel e))
      with (strength * dt * (dx / norm2 dx dy)) by ring.
    replace (vy (Simulation.vel e) + dy / norm2 dx dy * strength * dt - vy (Simulation.vel e))
      with (strength * dt * (dy / norm2 dx dy)) by ring.
    rewrite norm2_scale, norm2_unit by lra.
    rewrite Rabs_mult, (Rabs_right dt) by lra. ring.
  - intros Hd. apply Rltb_true in Hd. rewrite Hd. reflexivity.
Qed.

(** The knife attraction of the default bias is 60 or -40. *)
Lemma default_knife_attraction (c : t) :
  bias c = DEFAULT_BIAS ->
  knifeAttractionStrength c = (if targetWin c then 60 else -40).
Proof.
  intros Hb. unfold knifeAttractionStrength. rewrite Hb.
  destruct (targetWin c); reflexivity.
Qed.

End Bias.

(** C8, as the code has it, for a controller with the default bias and either
    target.  The steering and speed multipliers are within 0.25 of 1 (they are
    0.10 and 0.03 away).  In the interactive path the knife bias added to the
    base knife-seek impulse of 200 is a tenth of the attraction, at most 3% of
    the base.  In the headless path the attraction is applied whole by
    [centerAttract]: the velocity it adds in a tick has the size
    [|strength| * dt], at most 30% of the base knife-seek impulse of the tick
    and equal to 30% of it when the target is a win. *)
Theorem C8_bias_bounds (c : OutcomeController.t) (isHunter : bool)
  (e : Simulation.SimEntity) (cx cy dt : R) :
  OutcomeController.bias c = OutcomeController.DEFAULT_BIAS ->
  0 <= dt ->
  let e' := Simulation.centerAttract e cx cy dt (OutcomeController.knifeAttractionStrength c) in
  let added := norm2 (vx (Simulation.vel e') - vx (Simulation.vel e))
                     (vy (Simulation.vel e') - vy (Simulation.vel e)) in
  Rabs (OutcomeController.steeringMultiplier c isHunter - 1) <= 25 / 100
  /\ Rabs (OutcomeController.speedMultiplier c - 1) <= 25 / 100
  /\ Rabs (Game.biasDelta c) <= 3 / 100 * Ai.MAX_KNIFE_SEEK_IMPULSE
  /\ added <= 30 / 100 * (Ai.MAX_KNIFE_SEEK_IMPULSE * dt)
  /\ (OutcomeController.targetWin c = true ->
      1 / 1000 <= norm2 (cx - vx (Simulation.pos e)) (cy - vy (Simulation.pos e)) ->
      added = 30 / 100 * (Ai.MAX_KNIFE_SEEK_IMPULSE * dt)).
Proof.
  intros Hb Hdt. cbv zeta.
  pose proof (default_knife_attraction c Hb) as Hk.
  destruct (centerAttract_size e cx cy dt (OutcomeController.knifeAttractionStrength c) Hdt)
    as (Hfar & Hnear).
  unfold OutcomeController.steeringMultiplier, OutcomeController.speedMultiplier,
    Game.biasDelta, Ai.MAX_KNIFE_SEEK_IMPULSE.
  rewrite Hb. simpl.
  repeat apply conj.
  - destruct isHunter, (OutcomeController.targetWin c);
      apply Rabs_le; lra.
  - destruct (OutcomeController.targetWin c); apply Rabs_le; lra.
  - rewrite Hk. destruct (OutcomeController.targetWin c); apply Rabs_le; lra.
  - destruct (Rlt_le_dec (norm2 (cx - vx (Simulation.pos e)) (cy - vy (Simulation.pos e)))
                (1 / 1000)) as [Hd | Hd].
    + rewrite (Hnear Hd).
      replace (vx (Simulation.vel e) - vx (Simulation.vel e)) with 0 by ring.
      replace (vy (Simulation.vel e) - vy (Simulation.vel e)) with 0 by ring.
      rewrite norm2_0_0. lra.
    + rewrite (Hfar Hd), Hk.
      destruct (OutcomeController.targetWin c).
      * rewrite Rabs_right by lra. lra.
      * rewrite Rabs_left by lra. lra.
  - intros Hw Hd. rewrite (Hfar Hd), Hk, Hw. rewrite Rabs_right by lra. lra.
Qed.

(** C8 as stated fails in the headless path.  With the win chance 0.7 and the
    seed 42 the sampled target is a win; a body at (100, 260) is then given, by
    [centerAttract] towards (260, 260) in one fixed step, a velocity of size
    1, above the quarter 0.8333... of the base knife-seek impulse 200/60 of
    the step. *)
Lemma C8_counterexample :
  let c := fst (OutcomeController.sampleOutcome (OutcomeController.new (7 / 10)) (Rng.new 42)) in
  let e := Simulation.mkEntity (mkVec2 100 260) (mkVec2 120 0) 28 1 in
  let e' := Simulation.centerAttract e 260 260 Simulation.FIXED_DT
              (OutcomeController.knifeAttractionStrength c) in
  OutcomeController.targetWin c = true
  /\ norm2 (vx (Simulation.vel e') - vx (Simulation.vel e))
           (vy (Simulation.vel e') - vy (Simulation.vel e)) = 1
  /\ ~ (norm2 (vx (Simulation.vel e') - vx (Simulation.vel e))
              (vy (Simulation.vel e') - vy (Simulation.vel e))
        <= 25 / 100 * (Ai.MAX_KNIFE_SEEK_IMPULSE * Simulation.FIXED_DT)).
Proof.
  cbv zeta. rewrite sample_42. simpl.
  assert (Hw : Rltb (IZR 2581720956 / 4294967296) (7 / 10) = true)
    by (apply Rltb_true; lra).
  rewrite Hw.
  assert (Hd : norm2 (260 - 100) (260 - 260) = 160).
  { replace (260 - 100) with 160 by ring. replace (260 - 260) with 0 by ring.
    rewrite norm2_axis_x. apply Rabs_right. lra. }
  assert (Hdt : 0 <= Simulation.FIXED_DT) by (unfold Simulation.FIXED_DT; lra).
  destruct (centerAttract_size (Simulation.mkEntity (mkVec2 100 260) (mkVec2 120 0) 28 1)
              260 260 Simulation.FIXED_DT 60 Hdt) as (Hfar & _).
  simpl in Hfar. rewrite Hd in Hfar.
  unfold OutcomeController.knifeAttractionStrength. simpl.
  rewrite Hfar by lra.
  rewrite Rabs_right by lra.
  unfold Simulation.FIXED_DT, Ai.MAX_KNIFE_SEEK_IMPULSE.
  split; [reflexivity |]. split; lra.
Qed.

(** C8 at the controller sampled for the win chance 0.7 and the seed 42. *)
Lemma C8_bias_bounds_witness :
  let c := OutcomeController.mk (7 / 10) OutcomeController.DEFAULT_BIAS true in
  Rabs (OutcomeController.steeringMultiplier c true - 1) <= 25 / 100
  /\ Rabs (OutcomeController.speedMultiplier c - 1) <= 25 / 100
  /\ Rabs (Game.biasDelta c) <= 3 / 100 * Ai.MAX_KNIFE_SEEK_IMPULSE.
Proof.
  cbv zeta.
  destruct (C8_bias_bounds
              (OutcomeController.mk (7 / 10) OutcomeController.DEFAULT_BIAS true) true
              (Simulation.mkEntity (mkVec2 100 260) (mkVec2 120 0) 28 1) 260 260 (1 / 60))
    as (H1 & H2 & H3 & _); [reflexivity | lra |].
  repeat split; assumption.
Defined.

(** ** Determinism of the headless round (Simulation.simulateRound) *)

Section Determinism.

(** After [sampleOutcome], nothing is left of the target the controller held
    before: two controllers with the same probability and bias come out
    equal, and the generator is left in the same state. *)
Lemma sampleOutcome_forgets (c1 c2 : OutcomeController.t) (r : Rng.t) :
  OutcomeController.winChance c1 = OutcomeController.winChance c2 ->
  OutcomeController.bias c1 = OutcomeController.bias c2 ->
  OutcomeController.sampleOutcome c1 r = OutcomeController.sampleOutcome c2 r.
Proof.
  intros Hw Hb. unfold OutcomeController.sampleOutcome.
  destruct (Rng.next r) as [u r']. rewrite Hw, Hb. reflexivity.
Qed.

(** A round does not depend on the target left in the controller by an
    earlier round. *)
Lemma runRound_forgets (r : Rng.t) (c1 c2 : OutcomeController.t)
  (arena : Simulation.SimArena) :
  OutcomeController.winChance c1 = OutcomeController.winChance c2 ->
  OutcomeController.bias c1 = OutcomeController.bias c2 ->
  Simulation.runRound r c1 arena = Simulation.runRound r c2 arena.
Proof.
  intros Hw Hb. unfold Simulation.runRound.
  rewrite (sampleOutcome_forgets c1 c2 r Hw Hb). reflexivity.
Qed.

(** The controller a round leaves behind has the probability and the bias it
    was given. *)
Lemma runRound_outcomeAfter (r : Rng.t) (c : OutcomeController.t)
  (arena : Simulation.SimArena) :
  OutcomeController.winChance (Simulation.outcomeAfter (Simulation.runRound r c arena))
  = OutcomeController.winChance c
  /\ OutcomeController.bias (Simulation.outcomeAfter (Simulation.runRound r c arena))
     = OutcomeController.bias c.
Proof.
  unfold Simulation.runRound.
  destruct (OutcomeController.sampleOutcome c r) as [oc r1] eqn:E.
  destruct (Simulation.loop _ _ _ _) as [tr b]. simpl.
  pose proof (sampleOutcome_keeps c r) as [H1 H2]. rewrite E in H1, H2.
  split; assumption.
Qed.

(** The trace of a round has one state per completed iteration, and never
    more than the tick ceiling allows. *)
Lemma loop_length (fuel : nat) (oc : OutcomeController.t) (arena : Simulation.SimArena)
  (st : Simulation.Loop) :
  (length (fst (Simulation.loop fuel oc arena st)) <= fuel)%nat.
Proof.
  revert st. induction fuel as [| k IH]; intros st; simpl.
  - lia.
  - destruct (Simulation.tickBody oc arena st) as [b | st']; simpl; [lia |].
    specialize (IH st'). destruct (Simulation.loop k oc arena st') as [tr b].
    simpl in *. lia.
Qed.

End Determinism.

(** C3.  Two executions of [simulateRound] on generators freshly built from
    the same seed, with controllers of the same win probability and bias
    (whatever target an earlier round left in either), and the same arena, go
    through the same states, tick by tick: the same phases, the same
    positions and velocities of both bodies, the same generator states; and
    they return the same boolean. *)
Theorem C3_simulate_round_deterministic (s : Z) (c1 c2 : OutcomeController.t)
  (arena : Simulation.SimArena) :
  OutcomeController.winChance c1 = OutcomeController.winChance c2 ->
  OutcomeController.bias c1 = OutcomeController.bias c2 ->
  let run1 := Simulation.runRound (Rng.new s) c1 arena in
  let run2 := Simulation.runRound (Rng.new s) c2 arena in
  Simulation.trace run1 = Simulation.trace run2
  /\ map Simulation.phaseOf (Simulation.trace run1)
     = map Simulation.phaseOf (Simulation.trace run2)
  /\ map (fun st => (Simulation.ePlayer st, Simulation.eOpponent st)) (Simulation.trace run1)
     = map (fun st => (Simulation.ePlayer st, Simulation.eOpponent st)) (Simulation.trace run2)
  /\ Simulation.simulateRound (Rng.new s) c1 arena
     = Simulation.simulateRound (Rng.new s) c2 arena
  /\ Simulation.outcomeAfter run1 = Simulation.outcomeAfter run2.
Proof.
  intros Hw Hb. cbv zeta. unfold Simulation.simulateRound.
  rewrite (runRound_forgets (Rng.new s) c1 c2 arena Hw Hb).
  repeat split.
Qed.

(** C3 at the seed 42: a fresh controller and one that an earlier round left
    with a winning target. *)
Lemma C3_simulate_round_deterministic_witness :
  Simulation.simulateRound (Rng.new 42) (OutcomeController.new (1 / 2))
    Simulation.defaultArena
  = Simulation.simulateRound (Rng.new 42)
      (OutcomeController.mk (1 / 2) OutcomeController.DEFAULT_BIAS true)
      Simulation.defaultArena.
Proof.
  destruct (C3_simulate_round_deterministic 42 (OutcomeController.new (1 / 2))
              (OutcomeController.mk (1 / 2) OutcomeController.DEFAULT_BIAS true)
              Simulation.defaultArena) as (_ & _ & _ & H & _);
    [reflexivity | reflexivity |].
  exact H.
Defined.

(** ** The batch runner (Simulation.runSimulation) *)

Section Batch.

(** The tick ceiling is the quotient the source rounds up. *)
Lemma MAX_TICKS_value :
  INR Simulation.MAX_TICKS
  = (Simulation.PREWAIT_DURATION + Simulation.PREKNIFE_DURATION
     + Simulation.CHASE_DURATION + 5) / Simulation.FIXED_DT.
Proof.
  unfold Simulation.MAX_TICKS, Simulation.PREWAIT_DURATION, Simulation.PREKNIFE_DURATION,
    Simulation.CHASE_DURATION, Simulation.FIXED_DT.
  rewrite INR_IZR_INZ. simpl. lra.
Qed.

(** The rounds of a batch are independent: although one controller object is
    handed from round to round, the batch wins exactly the rounds that win
    when run alone, and pays [betAmount * 1.9] for each. *)
Lemma batch_independent (n : nat) (i baseSeed : Z) (bet : R) (oc oc0 : OutcomeController.t)
  (w : nat) (tp : R) :
  OutcomeController.winChance oc = OutcomeController.winChance oc0 ->
  OutcomeController.bias oc = OutcomeController.bias oc0 ->
  Simulation.batch n i baseSeed bet oc w tp
  = ((w + independentWins n i baseSeed oc0)%nat,
     tp + INR (independentWins n i baseSeed oc0) * (bet * Simulation.PAYOUT_MUL)).
Proof.
  revert i oc w tp. induction n as [| k IH]; intros i oc w tp Hw Hb.
  - simpl. rewrite Nat.add_0_r. f_equal. ring.
  - cbn [Simulation.batch independentWins].
    destruct (runRound_outcomeAfter (Rng.new (baseSeed + i)) oc Simulation.defaultArena)
      as [Hw' Hb'].
    unfold Simulation.simulateRound.
    rewrite <- (runRound_forgets (Rng.new (baseSeed + i)) oc oc0 _ Hw Hb).
    destruct (Simulation.result _).
    + rewrite IH by congruence.
      rewrite plus_INR. f_equal; [lia |]. simpl INR. ring.
    + rewrite IH by congruence.
      f_equal.
Qed.

(** The figures [runSimulation] reports, in terms of the rounds won. *)
Lemma runSimulation_figures (rounds : nat) (p bet : R) (baseSeed : Z) :
  let res := Simulation.runSimulation rounds p bet baseSeed in
  let w := independentWins rounds 0 baseSeed (OutcomeController.new p) in
  Simulation.wins res = w
  /\ Simulation.totalPayout res = INR w * (bet * Simulation.PAYOUT_MUL)
  /\ Simulation.totalBet res = INR rounds * bet
  /\ Simulation.observedWinRate res = INR w / INR rounds
  /\ Simulation.rtp res = Simulation.totalPayout res / Simulation.totalBet res
  /\ Simulation.expectedRtp res = Simulation.PAYOUT_MUL * p.
Proof.
  cbv zeta. unfold Simulation.runSimulation.
  rewrite (batch_independent rounds 0 baseSeed bet (OutcomeController.new p)
             (OutcomeController.new p) 0 0 eq_refl eq_refl).
  simpl. repeat split; ring.
Qed.

(** For a bet that is not zero and at least one round, the realised RTP is
    1.9 times the observed win rate. *)
Lemma runSimulation_rtp (rounds : nat) (p bet : R) (baseSeed : Z) :
  rounds <> 0%nat -> bet <> 0 ->
  let res := Simulation.runSimulation rounds p bet baseSeed in
  Simulation.rtp res = Simulation.PAYOUT_MUL * Simulation.observedWinRate res.
Proof.
  intros Hr Hbet. cbv zeta.
  destruct (runSimulation_figures rounds p bet baseSeed) as (_ & Hp & Hb & Ho & Hrtp & _).
  rewrite Hrtp, Hp, Hb, Ho.
  assert (INR rounds <> 0) by (apply not_0_INR; exact Hr).
  field. split; assumption.
Qed.

(** For a bet of zero, nothing is wagered and nothing is paid: the realised
    RTP is the quotient of zero by zero. *)
Lemma runSimulation_zero_bet (rounds : nat) (p : R) (baseSeed : Z) :
  let res := Simulation.runSimulation rounds p 0 baseSeed in
  Simulation.totalBet res = 0 /\ Simulation.totalPayout res = 0.
Proof.
  cbv zeta.
  destruct (runSimulation_figures rounds p 0 baseSeed) as (_ & Hp & Hb & _).
  rewrite Hp, Hb. split; ring.
Qed.

End Batch.

(** ** The speed a body is integrated with (Simulation.simulateRound, Game._tick) *)

Section IntegrationSpeed.

Import Simulation.

(** The steering helpers and [normSpeed] write the velocity only. *)
Lemma normSpeed_keeps (e : SimEntity) (s : R) :
  pos (normSpeed e s) = pos e /\ radius (normSpeed e s) = radius e
  /\ speedMul (normSpeed e s) = speedMul e.
Proof. unfold normSpeed. destruct (Rltb _ _); repeat split. Qed.

Lemma hunterImpulse_keeps (h t : SimEntity) (dt mul : R) :
  pos (hunterImpulse h t dt mul) = pos h /\ radius (hunterImpulse h t dt mul) = radius h
  /\ speedMul (hunterImpulse h t dt mul) = speedMul h.
Proof. unfold hunterImpulse. destruct (Rltb _ _); repeat split. Qed.

Lemma runnerImpulse_keeps (r p : SimEntity) (g : Rng.t) (dt mul : R) :
  pos (fst (runnerImpulse r p g dt mul)) = pos r
  /\ radius (fst (runnerImpulse r p g dt mul)) = radius r
  /\ speedMul (fst (runnerImpulse r p g dt mul)) = speedMul r.
Proof.
  unfold runnerImpulse. destruct (Rltb _ _); [repeat split |].
  destruct (Rng.range g _ _). repeat split.
Qed.

(** A chase iteration that neither captures nor times out hands on the two
    bodies steered and renormalised to the chase speed. *)
Lemma chase_continues (oc : OutcomeController.t) (arena : SimArena) (st : Loop) :
  prewaitDone st = true -> knifeSpawned st = true -> knifePickedUp st = true ->
  let isH := playerIsHunter st in
  let mul := OutcomeController.steeringMultiplier oc isH in
  let hunter0 := if isH then ePlayer st else eOpponent st in
  let runner0 := if isH then eOpponent st else ePlayer st in
  let hunter1 := hunterImpulse hunter0 runner0 FIXED_DT (if isH then mul else 1) in
  let runner1 := runnerImpulse runner0 hunter1 (rng st) FIXED_DT
                   (if negb isH then mul else 1) in
  let hunter2 := normSpeed hunter1 (BASE_SPEED * CHASE_SPEED_MUL * speedMul hunter1) in
  let runner2 := normSpeed (fst runner1)
                   (BASE_SPEED * CHASE_SPEED_MUL * speedMul (fst runner1)) in
  radius hunter0 + radius runner0 < dist2D (pos hunter0) (pos runner0) ->
  0 < chaseTimer st - FIXED_DT ->
  phaseStep oc arena st
  = inr (mkLoop (if isH then hunter2 else runner2) (if isH then runner2 else hunter2)
           (snd runner1) true isH (chaseTimer st - FIXED_DT) true true
           (prewaitTimer st) (preknifeDone2Timer st)).
Proof.
  intros Hp Hk Hu. cbv zeta. intros Hd Ht.
  unfold phaseStep. rewrite Hp, Hk, Hu. cbn [negb].
  destruct (runnerImpulse _ _ (rng st) _ _) as [r1 g1] eqn:Er.
  cbn [fst snd].
  pose proof (runnerImpulse_keeps
                (if playerIsHunter st then eOpponent st else ePlayer st)
                (hunterImpulse (if playerIsHunter st then ePlayer st else eOpponent st)
                   (if playerIsHunter st then eOpponent st else ePlayer st) FIXED_DT
                   (if playerIsHunter st
                    then OutcomeController.steeringMultiplier oc (playerIsHunter st) else 1))
                (rng st) FIXED_DT
                (if negb (playerIsHunter st)
                 then OutcomeController.steeringMultiplier oc (playerIsHunter st) else 1))
    as (Rp & Rr & _).
  rewrite Er in Rp, Rr. cbn [fst] in Rp, Rr.
  destruct (normSpeed_keeps r1 (BASE_SPEED * CHASE_SPEED_MUL * speedMul r1)) as (Np & Nr & _).
  match goal with
  | |- context [normSpeed (hunterImpulse ?h ?t ?dt ?m) ?s] =>
      destruct (normSpeed_keeps (hunterImpulse h t dt m) s) as (Hnp & Hnr & _);
      destruct (hunterImpulse_keeps h t dt m) as (Hip & Hir & _)
  end.
  rewrite Hnp, Hnr, Hip, Hir, Np, Nr, Rp, Rr.
  apply Rleb_false in Hd. rewrite Hd.
  assert (G : Rleb (chaseTimer st - FIXED_DT) 0 = false) by (apply Rleb_false; exact Ht).
  rewrite G. reflexivity.
Qed.

(** Whatever the phase, the two [normSpeed] calls before the integration put
    the player at [BASE_SPEED * speedMul] and the opponent at [BASE_SPEED],
    unless a body is within the guard of standing still: the chase speed that
    the chase branch has just set does not reach the integration. *)
Lemma preIntegrate_speed (st : Loop) :
  let at_ := preIntegrate st in
  (1 / 10000 <= norm2 (vx (vel (ePlayer st))) (vy (vel (ePlayer st))) ->
   norm2 (vx (vel (ePlayer at_))) (vy (vel (ePlayer at_)))
   = Rabs (BASE_SPEED * speedMul (ePlayer st)))
  /\ (1 / 10000 <= norm2 (vx (vel (eOpponent st))) (vy (vel (eOpponent st))) ->
      norm2 (vx (vel (eOpponent at_))) (vy (vel (eOpponent at_))) = BASE_SPEED)
  /\ speedMul (ePlayer at_) = speedMul (ePlayer st)
  /\ speedMul (eOpponent at_) = speedMul (eOpponent st).
Proof.
  cbv zeta. unfold preIntegrate. cbn [ePlayer eOpponent].
  split; [| split].
  - intros H. destruct (normSpeed_fast (ePlayer st) (BASE_SPEED * speedMul (ePlayer st)) H)
      as (Hn & _). exact Hn.
  - intros H. destruct (normSpeed_fast (eOpponent st) BASE_SPEED H) as (Hn & _).
    rewrite Hn. apply Rabs_right. unfold BASE_SPEED. lra.
  - split; apply normSpeed_keeps.
Qed.

(** The integration moves a body by its velocity times the step. *)
Lemma integrate_displacement (e : SimEntity) (dt : R) :
  vx (pos (integrate e dt)) - vx (pos e) = vx (vel e) * dt
  /\ vy (pos (integrate e dt)) - vy (pos e) = vy (vel e) * dt
  /\ vel (integrate e dt) = vel e.
Proof. unfold integrate. simpl. repeat split; ring. Qed.

End IntegrationSpeed.

Section GameIntegrationSpeed.

Import Game.

(** The interactive path renormalises each dictator to its [currentSpeed]
    before it integrates it. *)
Lemma move_speed (d : Dictator.t) (a : Arena.t) (dt : R) :
  1 / 10000 <= Entity.speed (Dictator.entity d) ->
  Entity.speed (Entity.normalizeSpeed (Dictator.entity d) (Dictator.currentSpeed d))
  = Rabs (Dictator.baseSpeed d * Dictator.speedMul d)
  /\ Dictator.entity (move d a dt)
     = Physics.bounceWalls
         (Physics.integrateEntity
            (Entity.normalizeSpeed (Dictator.entity d) (Dictator.currentSpeed d)) dt) a.
Proof.
  intros H. split; [| reflexivity].
  apply normalizeSpeed_fast. exact H.
Qed.

(** [_assignRoles] raises the base speed of both dictators to the chase
    speed, and enters the chase. *)
Lemma assignRoles_baseSpeed (g : Game.t) (hunterIsA : bool) :
  let g' := _assignRoles g hunterIsA in
  Dictator.baseSpeed (dA g') = BASE_SPEED * CHASE_SPEED_MUL
  /\ Dictator.baseSpeed (dB g') = BASE_SPEED * CHASE_SPEED_MUL
  /\ Dictator.speedMul (dA g') = Dictator.speedMul (dA g)
  /\ Dictator.speedMul (dB g') = Dictator.speedMul (dB g)
  /\ phase g' = chase.
Proof. cbv zeta. unfold _assignRoles. simpl. repeat split. Qed.

(** A step of the chase keeps the base speed and the multiplier of both
    dictators. *)
Lemma tickChase_keeps (g g' : Game.t) (dt : R) :
  _tickChase g dt = Some g' ->
  Dictator.baseSpeed (dA g') = Dictator.baseSpeed (dA g)
  /\ Dictator.baseSpeed (dB g') = Dictator.baseSpeed (dB g)
  /\ Dictator.speedMul (dA g') = Dictator.speedMul (dA g)
  /\ Dictator.speedMul (dB g') = Dictator.speedMul (dB g).
Proof.
  unfold _tickChase.
  destruct (findRole g Dictator.hunter) as [hA |]; [| discriminate].
  destruct (findRole g Dictator.runner) as [rA |]; [| discriminate].
  destruct (Ai.applyRunnerSteering _ _ _ _ _) as [rE r'].
  destruct (Rleb _ _); [| destruct (Rleb _ _)];
    intros E; injection E as <-; destruct hA, rA; simpl; repeat split.
Qed.

(** So in the chase of the interactive path a dictator that [_tick] moves is
    integrated at the chase speed times its multiplier. *)
Lemma game_chase_integration_speed (g g1 : Game.t) (dt : R) :
  Dictator.baseSpeed (dA g) = BASE_SPEED * CHASE_SPEED_MUL ->
  Dictator.baseSpeed (dB g) = BASE_SPEED * CHASE_SPEED_MUL ->
  _tickChase g dt = Some g1 ->
  1 / 10000 <= Entity.speed (Dictator.entity (dA g1)) ->
  1 / 10000 <= Entity.speed (Dictator.entity (dB g1)) ->
  Entity.speed (Entity.normalizeSpeed (Dictator.entity (dA g1))
                  (Dictator.currentSpeed (dA g1)))
  = Rabs (BASE_SPEED * CHASE_SPEED_MUL * Dictator.speedMul (dA g))
  /\ Entity.speed (Entity.normalizeSpeed (Dictator.entity (dB g1))
                     (Dictator.currentSpeed (dB g1)))
     = Rabs (BASE_SPEED * CHASE_SPEED_MUL * Dictator.speedMul (dB g)).
Proof.
  intros Ha Hb Ht Hsa Hsb.
  destruct (tickChase_keeps g g1 dt Ht) as (Ka & Kb & Ma & Mb).
  destruct (move_speed (dA g1) (arena g1) dt Hsa) as (Sa & _).
  destruct (move_speed (dB g1) (arena g1) dt Hsb) as (Sb & _).
  rewrite Sa, Sb, Ka, Kb, Ma, Mb, Ha, Hb. split; reflexivity.
Qed.

End GameIntegrationSpeed.

(** C4, at a state of the headless chase: the player, hunter, at (100, 260)
    and the opponent at (400, 260), both moving along x, with the multiplier
    1.03 of a winning target.  The chase branch renormalises the player to
    240 * 1.03 = 247.2 and the opponent to 240; the iteration goes on, and the
    two [normSpeed] calls before [integrate] bring them back to
    120 * 1.03 = 123.6 and 120.  Those are the speeds the bodies are
    integrated with, not the chase speed times the multiplier. *)
Theorem C4_headless_chase_speed :
  let oc := OutcomeController.mk (7 / 10) OutcomeController.DEFAULT_BIAS true in
  let st := Simulation.mkLoop
              (Simulation.mkEntity (mkVec2 100 260) (mkVec2 (1236 / 10) 0) 28 (103 / 100))
              (Simulation.mkEntity (mkVec2 400 260) (mkVec2 120 0) 28 1)
              (Rng.new 42) true true 5 true true 0 0 in
  let speedOf := fun e : Simulation.SimEntity =>
                   norm2 (vx (Simulation.vel e)) (vy (Simulation.vel e)) in
  Simulation.phaseOf st = Game.chase
  /\ exists st1,
      Simulation.phaseStep oc Simulation.defaultArena st = inr st1
      /\ Simulation.tickBody oc Simulation.defaultArena st
         = inr (Simulation.integrateAndBounce Simulation.defaultArena
                  (Simulation.preIntegrate st1))
      /\ speedOf (Simulation.ePlayer st1) = 2472 / 10
      /\ speedOf (Simulation.eOpponent st1) = 240
      /\ speedOf (Simulation.ePlayer (Simulation.preIntegrate st1)) = 1236 / 10
      /\ speedOf (Simulation.eOpponent (Simulation.preIntegrate st1)) = 120
      /\ speedOf (Simulation.ePlayer (Simulation.preIntegrate st1))
         <> Simulation.BASE_SPEED * Simulation.CHASE_SPEED_MUL
            * Simulation.speedMul (Simulation.ePlayer (Simulation.preIntegrate st1))
      /\ speedOf (Simulation.eOpponent (Simulation.preIntegrate st1))
         <> Simulation.BASE_SPEED * Simulation.CHASE_SPEED_MUL
            * Simulation.speedMul (Simulation.eOpponent (Simulation.preIntegrate st1)).
Proof.
  cbv zeta. split; [reflexivity |].
  set (oc := OutcomeController.mk (7 / 10) OutcomeController.DEFAULT_BIAS true).
  set (P := Simulation.mkEntity (mkVec2 100 260) (mkVec2 (1236 / 10) 0) 28 (103 / 100)).
  set (O := Simulation.mkEntity (mkVec2 400 260) (mkVec2 120 0) 28 1).
  set (st := Simulation.mkLoop P O (Rng.new 42) true true 5 true true 0 0).
  assert (Hd300 : norm2 (400 - 100) (260 - 260) = 300).
  { replace (400 - 100) with 300 by ring. replace (260 - 260) with 0 by ring.
    rewrite norm2_axis_x. apply Rabs_right. lra. }
  assert (Hdm300 : norm2 (100 - 400) (260 - 260) = 300).
  { replace (100 - 400) with (-300) by ring. replace (260 - 260) with 0 by ring.
    rewrite norm2_axis_x. rewrite Rabs_left by lra. lra. }
  pose proof (chase_continues oc Simulation.defaultArena st eq_refl eq_refl eq_refl) as Hc.
  cbv zeta in Hc. cbn [Simulation.playerIsHunter Simulation.ePlayer Simulation.eOpponent
                         Simulation.rng Simulation.chaseTimer st negb] in Hc.
  (* the hunter after its impulse *)
  set (h1 := Simulation.hunterImpulse P O Simulation.FIXED_DT
               (OutcomeController.steeringMultiplier oc true)) in *.
  assert (Eh1 : Simulation.vel h1
                = mkVec2 (1236 / 10 + 300 / 300 * 200 * (1 + 10 / 100) * (1 / 60))
                         (0 + 0 / 300 * 200 * (1 + 10 / 100) * (1 / 60))).
  { unfold h1, Simulation.hunterImpulse. simpl.
    rewrite Hd300.
    assert (G : Rltb 300 (1 / 1000) = false) by (apply Rltb_false; lra).
    rewrite G. simpl. unfold Simulation.FIXED_DT. f_equal; lra. }
  destruct (hunterImpulse_keeps P O Simulation.FIXED_DT
              (OutcomeController.steeringMultiplier oc true)) as (Hh1p & Hh1r & Hh1m).
  fold h1 in Hh1p, Hh1r, Hh1m.
  (* the runner after its impulse *)
  set (r1 := Simulation.runnerImpulse O h1 (Rng.new 42) Simulation.FIXED_DT 1) in *.
  assert (Er1 : exists perp,
             Simulation.vel (fst r1)
             = mkVec2 (120 + (300 / 300 + - 0 / 300 * perp) * 200 * 1 * (1 / 60))
                      (0 + (0 / 300 + 300 / 300 * perp) * 200 * 1 * (1 / 60))).
  { unfold r1, Simulation.runnerImpulse. rewrite Hh1p.
    destruct (Rng.range (Rng.new 42) (- (4 / 10)) (4 / 10)) as [perp g'].
    exists perp. simpl. rewrite Hd300.
    assert (G : Rltb 300 (1 / 1000) = false) by (apply Rltb_false; lra).
    rewrite G. simpl. unfold Simulation.FIXED_DT. f_equal; lra. }
  destruct Er1 as (perp & Er1).
  destruct (runnerImpulse_keeps O h1 (Rng.new 42) Simulation.FIXED_DT 1)
    as (Hr1p & Hr1r & Hr1m).
  fold r1 in Hr1p, Hr1r, Hr1m.
  (* neither capture nor timeout *)
  specialize (Hc ltac:(simpl; unfold Simulation.dist2D; simpl; rewrite Hdm300; lra)
                 ltac:(unfold Simulation.FIXED_DT; lra)).
  assert (Hh1s : 1 / 10000 <= norm2 (vx (Simulation.vel h1)) (vy (Simulation.vel h1))).
  { rewrite Eh1. simpl. apply Rle_trans with 1; [lra |].
    apply norm2_lower; [lra | nra]. }
  assert (Hr1s : 1 / 10000 <= norm2 (vx (Simulation.vel (fst r1)))
                                    (vy (Simulation.vel (fst r1)))).
  { rewrite Er1. simpl. apply Rle_trans with 1; [lra |].
    apply norm2_lower; [lra | nra]. }
  destruct (normSpeed_fast h1
              (Simulation.BASE_SPEED * Simulation.CHASE_SPEED_MUL * Simulation.speedMul h1)
              Hh1s) as (Hh2s & _ & _ & Hh2m).
  destruct (normSpeed_fast (fst r1)
              (Simulation.BASE_SPEED * Simulation.CHASE_SPEED_MUL
               * Simulation.speedMul (fst r1)) Hr1s) as (Hr2s & _ & _ & Hr2m).
  cbv zeta in Hh2s, Hh2m, Hr2s, Hr2m.
  set (h2 := Simulation.normSpeed h1 _) in *.
  set (r2 := Simulation.normSpeed (fst r1) _) in *.
  assert (Mh : Simulation.speedMul h2 = 103 / 100) by (rewrite Hh2m, Hh1m; reflexivity).
  assert (Mr : Simulation.speedMul r2 = 1) by (rewrite Hr2m, Hr1m; reflexivity).
  assert (Sh : norm2 (vx (Simulation.vel h2)) (vy (Simulation.vel h2)) = 2472 / 10).
  { rewrite Hh2s, Hh1m. unfold Simulation.BASE_SPEED, Simulation.CHASE_SPEED_MUL. simpl.
    rewrite Rabs_right by lra. lra. }
  assert (Sr : norm2 (vx (Simulation.vel r2)) (vy (Simulation.vel r2)) = 240).
  { rewrite Hr2s, Hr1m. unfold Simulation.BASE_SPEED, Simulation.CHASE_SPEED_MUL. simpl.
    rewrite Rabs_right by lra. lra. }
  match type of Hc with
  | _ = inr ?s => set (st1 := s) in *
  end.
  exists st1. split; [exact Hc |].
  split; [unfold Simulation.tickBody; rewrite Hc; reflexivity |].
  destruct (preIntegrate_speed st1) as (Hps & Hos & Hpm & Hom).
  cbv zeta in Hps, Hos, Hpm, Hom.
  change (Simulation.ePlayer st1) with h2 in *.
  change (Simulation.eOpponent st1) with r2 in *.
  rewrite Hpm, Hom, Mh, Mr.
  rewrite Hps by (rewrite Sh; lra).
  rewrite Hos by (rewrite Sr; lra).
  rewrite Mh.
  unfold Simulation.BASE_SPEED, Simulation.CHASE_SPEED_MUL.
  rewrite Rabs_right by lra.
  split; [exact Sh |]. split; [exact Sr |].
  repeat split; lra.
Qed.

(** ** The two paths side by side (Game._tick, Simulation.simulateRound) *)

Section RngConsumption.

(** Every method that draws leaves the generator as one draw leaves it. *)
Lemma next_advance (r : Rng.t) : snd (Rng.next r) = Rng.advance r.
Proof. unfold Rng.next, Rng.advance. destruct (Rng.next_u32 r). reflexivity. Qed.

Lemma range_advance (r : Rng.t) (lo hi : R) : snd (Rng.range r lo hi) = Rng.advance r.
Proof.
  unfold Rng.range. rewrite <- next_advance. destruct (Rng.next r). reflexivity.
Qed.

Lemma int_advance (r : Rng.t) (lo hi : Z) : snd (Rng.int r lo hi) = Rng.advance r.
Proof.
  unfold Rng.int. rewrite <- (range_advance r (IZR lo) (IZR (hi + 1))).
  destruct (Rng.range r _ _). reflexivity.
Qed.

Lemma sampleOutcome_advance (c : OutcomeController.t) (r : Rng.t) :
  snd (OutcomeController.sampleOutcome c r) = Rng.advance r.
Proof.
  unfold OutcomeController.sampleOutcome. rewrite <- next_advance.
  destruct (Rng.next r). reflexivity.
Qed.

(** The state after a draw: the old one plus the constant of mulberry32, in
    32 bits. *)
Lemma advance_state (r : Rng.t) :
  Rng.state (Rng.advance r)
  = Rng.toInt32 (Rng.toInt32 (Rng.state r) + 1831565813).
Proof.
  unfold Rng.advance, Rng.next_u32, Rng.jor. cbn [snd Rng.state].
  change (Rng.toInt32 0) with 0%Z. rewrite !Z.lor_0_r. reflexivity.
Qed.

(** A draw changes the state: one draw more is never the same state. *)
Lemma advance_changes (r : Rng.t) :
  Rng.state (Rng.advance (Rng.advance r)) <> Rng.state (Rng.advance r).
Proof.
  rewrite (advance_state (Rng.advance r)).
  generalize (Rng.state (Rng.advance r)) (advance_state r).
  intros s Hs. unfold Rng.toInt32 in *.
  Z.div_mod_to_equations. lia.
Qed.

End RngConsumption.

Section GamePhases.

Import Game.

(** [_startRound] draws three times (the opponent, then the two angles),
    enters [prewait] with the timer at [PREWAIT_DURATION], and keeps the
    arena and the controller. *)
Lemma startRound_facts (g : Game.t) :
  let g' := _startRound g in
  rng g' = Rng.advance (Rng.advance (Rng.advance (rng g)))
  /\ phase g' = prewait /\ phaseTimer g' = PREWAIT_DURATION
  /\ arena g' = arena g /\ outcome g' = outcome g.
Proof.
  cbv zeta. unfold _startRound, _pickOpponent.
  change (rng (_cleanupKnife g)) with (rng g).
  rewrite <- (int_advance (rng g) 0
                (Z.of_nat (length (filter (fun d => negb (Dictator.config_eqb d
                   (playerDictId (_cleanupKnife g)))) Dictator.DICTATOR_CONFIGS)) - 1)).
  destruct (Rng.int (rng g) _ _) as [i r1]. cbn [snd].
  rewrite <- (range_advance r1 0 (PI * 2)).
  destruct (Rng.range r1 0 (PI * 2)) as [angle1 r2]. cbn [snd].
  rewrite <- (range_advance r2 (- (1 / 2)) (1 / 2)).
  destruct (Rng.range r2 _ _) as [j r3]. cbn [snd].
  repeat split.
Qed.

(** [_onPlay] from the idle game with a bet the balance covers: four draws
    in all, the first for the outcome. *)
Lemma onPlay_facts (bet p : R) (id : Dictator.Config) (seed : Z) (w h : R) :
  bet <= 1000 ->
  let g0 := _onPlay (Game.new w h) bet id p seed in
  rng g0 = Rng.advance (Rng.advance (Rng.advance (Rng.advance (Rng.new seed))))
  /\ phase g0 = prewait /\ phaseTimer g0 = PREWAIT_DURATION
  /\ arena g0 = _buildArena w h.
Proof.
  intros Hbet. cbv zeta. unfold _onPlay. cbn [Game.new phase phase_eqb negb andb].
  unfold Economy.placeBet.
  change (Economy.balance (economy (Game.new w h))) with 1000.
  change (outcome (Game.new w h)) with (OutcomeController.new (1 / 2)).
  change (arena (Game.new w h)) with (_buildArena w h).
  assert (G : Rltb 1000 bet = false) by (apply Rltb_false; exact Hbet).
  rewrite G.
  rewrite <- (sampleOutcome_advance
                (OutcomeController.setWinChance (OutcomeController.new (1 / 2)) p)
                (Rng.new seed)).
  destruct (OutcomeController.sampleOutcome _ (Rng.new seed)) as [oc r]. cbn [snd].
  match goal with
  | |- context [_startRound ?g] => destruct (startRound_facts g) as (H1 & H2 & H3 & H4 & _)
  end.
  rewrite H1, H2, H3, H4. repeat split.
Qed.

(** A step of the interactive path in [prewait]: only the timer decides the
    phase that follows. *)
Lemma tick_prewait (g : Game.t) :
  phase g = prewait ->
  exists g1, _tick g FIXED_DT = Some g1
    /\ phase g1 = (if Rleb (phaseTimer g - FIXED_DT) 0 then preknife else prewait)
    /\ phaseTimer g1 = (if Rleb (phaseTimer g - FIXED_DT) 0 then PREKNIFE_DURATION
                        else phaseTimer g - FIXED_DT).
Proof.
  intros Hp. unfold _tick. rewrite Hp.
  assert (E : exists a b r,
             _tickPrewait g FIXED_DT
             = if Rleb (phaseTimer g - FIXED_DT) 0
               then set_phase (set_rng (set_dictators g a b) r) preknife PREKNIFE_DURATION
               else set_phase (set_rng (set_dictators g a b) r) (phase g)
                      (phaseTimer g - FIXED_DT)).
  { unfold _tickPrewait.
    destruct (wander (dA g) (rng g) FIXED_DT (1 / 2)) as [a r1].
    destruct (wander (dB g) r1 FIXED_DT (1 / 2)) as [b r2].
    exists a, b, r2. reflexivity. }
  destruct E as (a & b & r & E). rewrite E, Hp.
  destruct (Rleb (phaseTimer g - FIXED_DT) 0); cbn [set_phase phase phase_eqb];
    destruct (Physics.bounceEntities _ _) as [c [ea eb]];
    eexists; repeat split.
Qed.

(** A step in [preknife]: when the timer runs out the knife is spawned and
    the knife race begins. *)
Lemma tick_preknife (g : Game.t) :
  phase g = preknife ->
  exists g1, _tick g FIXED_DT = Some g1
    /\ phase g1 = (if Rleb (phaseTimer g - FIXED_DT) 0 then kniferace else preknife)
    /\ phaseTimer g1 = phaseTimer g - FIXED_DT.
Proof.
  intros Hp. unfold _tick. rewrite Hp.
  assert (E : exists a b r,
             _tickPreknife g FIXED_DT
             = if Rleb (phaseTimer g - FIXED_DT) 0
               then _spawnKnife (set_phase (set_rng (set_dictators g a b) r) (phase g)
                                   (phaseTimer g - FIXED_DT))
               else set_phase (set_rng (set_dictators g a b) r) (phase g)
                      (phaseTimer g - FIXED_DT)).
  { unfold _tickPreknife.
    destruct (wander (dA g) (rng g) FIXED_DT 1) as [a r1].
    destruct (wander (dB g) r1 FIXED_DT 1) as [b r2].
    exists a, b, r2. reflexivity. }
  destruct E as (a & b & r & E). rewrite E, Hp.
  destruct (Rleb (phaseTimer g - FIXED_DT) 0);
    cbn [_spawnKnife set_phase set_knife phase phase_eqb];
    destruct (Physics.bounceEntities _ _) as [c [ea eb]];
    eexists; repeat split.
Qed.

(** From [prewait] with [k + 1] steps left on the timer, [k + 1] steps lead
    into [preknife] with the timer at [PREKNIFE_DURATION]. *)
Lemma prewait_countdown (k : nat) (g : Game.t) (m : nat) :
  phase g = prewait -> phaseTimer g = INR (S k) * FIXED_DT ->
  exists g', ticks (S k + m) g = ticks m g'
    /\ phase g' = preknife /\ phaseTimer g' = PREKNIFE_DURATION.
Proof.
  revert g. induction k as [| k IH]; intros g Hp Ht.
  - destruct (tick_prewait g Hp) as (g1 & E & P1 & T1).
    exists g1. cbn [Nat.add ticks]. rewrite Hp. cbn [phase_eqb]. rewrite E.
    assert (G : Rleb (phaseTimer g - FIXED_DT) 0 = true).
    { apply Rleb_true. rewrite Ht. simpl. lra. }
    rewrite G in P1, T1. repeat split; assumption.
  - destruct (tick_prewait g Hp) as (g1 & E & P1 & T1).
    assert (G : Rleb (phaseTimer g - FIXED_DT) 0 = false).
    { apply Rleb_false. rewrite Ht. rewrite S_INR.
      assert (0 < INR (S k)) by (apply lt_0_INR; lia).
      unfold FIXED_DT. lra. }
    rewrite G in P1, T1.
    destruct (IH g1 P1) as (g' & E' & P' & T').
    { rewrite T1, Ht. rewrite (S_INR (S k)). ring. }
    exists g'. split; [| split; assumption].
    change (S (S k) + m)%nat with (S (S k + m)).
    cbn [ticks]. rewrite Hp. cbn [phase_eqb]. rewrite E. exact E'.
Qed.

(** From [preknife] with [k + 1] steps left on the timer, [k + 1] steps lead
    into the knife race. *)
Lemma preknife_countdown (k : nat) (g : Game.t) (m : nat) :
  phase g = preknife -> phaseTimer g = INR (S k) * FIXED_DT ->
  exists g', ticks (S k + m) g = ticks m g' /\ phase g' = kniferace.
Proof.
  revert g. induction k as [| k IH]; intros g Hp Ht.
  - destruct (tick_preknife g Hp) as (g1 & E & P1 & T1).
    exists g1. cbn [Nat.add ticks]. rewrite Hp. cbn [phase_eqb]. rewrite E.
    assert (G : Rleb (phaseTimer g - FIXED_DT) 0 = true).
    { apply Rleb_true. rewrite Ht. simpl. lra. }
    rewrite G in P1. split; [reflexivity | exact P1].
  - destruct (tick_preknife g Hp) as (g1 & E & P1 & T1).
    assert (G : Rleb (phaseTimer g - FIXED_DT) 0 = false).
    { apply Rleb_false. rewrite Ht. rewrite S_INR.
      assert (0 < INR (S k)) by (apply lt_0_INR; lia).
      unfold FIXED_DT. lra. }
    rewrite G in P1.
    destruct (IH g1 P1) as (g' & E' & P').
    { rewrite T1, Ht. rewrite (S_INR (S k)). ring. }
    exists g'. split; [| assumption].
    change (S (S k) + m)%nat with (S (S k + m)).
    cbn [ticks]. rewrite Hp. cbn [phase_eqb]. rewrite E. exact E'.
Qed.

(** The tail of [_tick] keeps the phase and the roles. *)
Lemma tail_keeps (g1 : Game.t) (dt : R) :
  exists g2,
    (let a := move (dA g1) (arena g1) dt in
     let b := move (dB g1) (arena g1) dt in
     let '(_, (ea, eb)) := Physics.bounceEntities (Dictator.entity a) (Dictator.entity b) in
     Some (set_dictators g1 (Dictator.set_entity a ea) (Dictator.set_entity b eb))) = Some g2
    /\ phase g2 = phase g1
    /\ Dictator.role (dA g2) = Dictator.role (dA g1)
    /\ Dictator.role (dB g2) = Dictator.role (dB g1).
Proof.
  cbv zeta.
  destruct (Physics.bounceEntities _ _) as [c [ea eb]].
  eexists. split; [reflexivity |]. repeat split.
Qed.

(** Past the knife spawn a step never fails and never goes back: the knife
    race leads to the chase, with the roles assigned, and the chase to the
    end. *)
Lemma past_step (g : Game.t) :
  pastPreknife g -> phase_eqb (phase g) ended = false ->
  exists g1, _tick g FIXED_DT = Some g1 /\ pastPreknife g1.
Proof.
  intros [Hk | [[Hc Hr] | He]] Hne.
  - unfold _tick. rewrite Hk.
    assert (E : phase (_tickKnifeRace g FIXED_DT) = kniferace
                \/ (phase (_tickKnifeRace g FIXED_DT) = chase
                    /\ rolesAssigned (_tickKnifeRace g FIXED_DT))).
    { unfold _tickKnifeRace. destruct (knife g) as [k |]; [| left; exact Hk].
      destruct (Rleb _ _ || Rleb _ _).
      - right. split; [reflexivity |]. unfold rolesAssigned, _assignRoles.
        cbn [dA dB set_phase set_dictators set_knife Dictator.role Dictator.set_entity
             Dictator.set_baseSpeed Dictator.setRole].
        destruct (Rltb _ _); [left | right]; split; reflexivity.
      - left. exact Hk. }
    destruct (tail_keeps (_tickKnifeRace g FIXED_DT) FIXED_DT) as (g2 & E2 & P2 & Ra & Rb).
    cbv zeta in E2.
    destruct E as [E | [E Er]]; rewrite E; cbn [phase_eqb]; exists g2;
      (split; [exact E2 |]).
    + left. congruence.
    + right. left. split; [congruence |].
      unfold rolesAssigned in *. rewrite Ra, Rb. exact Er.
  - unfold _tick. rewrite Hc.
    assert (E : exists g1, _tickChase g FIXED_DT = Some g1
                /\ (phase g1 = ended \/ (phase g1 = chase /\ rolesAssigned g1))).
    { unfold _tickChase, findRole.
      destruct Hr as [[Ha Hb] | [Ha Hb]]; rewrite Ha, Hb; cbn [Dictator.role_eqb];
        destruct (Ai.applyRunnerSteering _ _ _ _ _) as [rE r'];
        (destruct (Rleb _ _); [eexists; split; [reflexivity | left; reflexivity] |]);
        (destruct (Rleb _ _); [eexists; split; [reflexivity | left; reflexivity] |]);
        eexists; (split; [reflexivity |]); right; (split; [exact Hc |]);
        unfold rolesAssigned; cbn [dA dB set_phase set_rng set_dictators Dictator.role
                                     Dictator.set_entity]; rewrite Ha, Hb; tauto. }
    destruct E as (g1 & E & [P | [P Pr]]); rewrite E.
    + rewrite P. cbn [phase_eqb]. exists g1. split; [reflexivity |]. right. right. exact P.
    + rewrite P. cbn [phase_eqb].
      destruct (tail_keeps g1 FIXED_DT) as (g2 & E2 & P2 & Ra & Rb).
      cbv zeta in E2. exists g2. split; [exact E2 |]. right. left.
      split; [congruence |]. unfold rolesAssigned in *. rewrite Ra, Rb. exact Pr.
  - rewrite He in Hne. discriminate.
Qed.

Lemma past_ticks (n : nat) (g : Game.t) :
  pastPreknife g -> exists g', ticks n g = Some g' /\ pastPreknife g'.
Proof.
  revert g. induction n as [| n IH]; intros g Hg.
  - exists g. split; [reflexivity | exact Hg].
  - cbn [ticks]. destruct (phase_eqb (phase g) ended) eqn:He.
    + exists g. split; [reflexivity | exact Hg].
    + destruct (past_step g Hg He) as (g1 & E & H1). rewrite E. apply IH. exact H1.
Qed.

End GamePhases.

Section FixedStepLoop.

Import Game.

Ltac unfold_setters :=
  cbn [set_phase set_rng set_dictators set_accumulator set_knife phase accumulator dA dB
       arena knife economy rng outcome phaseTimer playerDictId knifePickedUp playerWon].

(** No step reads the accumulator: a step commutes with writing it. *)
Lemma tickPrewait_acc (g : Game.t) (a dt : R) :
  _tickPrewait (set_accumulator g a) dt = set_accumulator (_tickPrewait g dt) a.
Proof.
  unfold _tickPrewait. unfold_setters.
  destruct (wander (dA g) (rng g) dt (1 / 2)) as [x r1].
  destruct (wander (dB g) r1 dt (1 / 2)) as [y r2].
  destruct (Rleb (phaseTimer g - dt) 0); reflexivity.
Qed.

Lemma tickPreknife_acc (g : Game.t) (a dt : R) :
  _tickPreknife (set_accumulator g a) dt = set_accumulator (_tickPreknife g dt) a.
Proof.
  unfold _tickPreknife. unfold_setters.
  destruct (wander (dA g) (rng g) dt 1) as [x r1].
  destruct (wander (dB g) r1 dt 1) as [y r2].
  destruct (Rleb (phaseTimer g - dt) 0); reflexivity.
Qed.

Lemma tickKnifeRace_acc (g : Game.t) (a dt : R) :
  _tickKnifeRace (set_accumulator g a) dt = set_accumulator (_tickKnifeRace g dt) a.
Proof.
  unfold _tickKnifeRace. unfold_setters.
  destruct (knife g) as [k |]; [| reflexivity].
  destruct (Rleb _ _ || Rleb _ _); reflexivity.
Qed.

Lemma tickChase_acc (g : Game.t) (a dt : R) :
  _tickChase (set_accumulator g a) dt
  = option_map (fun g1 => set_accumulator g1 a) (_tickChase g dt).
Proof.
  unfold _tickChase, findRole. unfold_setters.
  destruct (Dictator.role_eqb (Dictator.role (dA g)) Dictator.hunter);
    destruct (Dictator.role_eqb (Dictator.role (dB g)) Dictator.hunter);
    destruct (Dictator.role_eqb (Dictator.role (dA g)) Dictator.runner);
    destruct (Dictator.role_eqb (Dictator.role (dB g)) Dictator.runner);
    try reflexivity;
    destruct (Ai.applyRunnerSteering _ _ _ _ _) as [rE r'];
    destruct (Rleb _ _); try reflexivity;
    destruct (Rleb _ _); reflexivity.
Qed.

Lemma tick_acc (g : Game.t) (a dt : R) :
  _tick (set_accumulator g a) dt
  = option_map (fun g1 => set_accumulator g1 a) (_tick g dt).
Proof.
  unfold _tick.
  change (phase (set_accumulator g a)) with (phase g).
  rewrite tickPrewait_acc, tickPreknife_acc, tickKnifeRace_acc, tickChase_acc.
  assert (T : forall g1 : Game.t,
    (if phase_eqb (phase (set_accumulator g1 a)) ended then Some (set_accumulator g1 a)
     else let '(_, (ea, eb)) :=
            Physics.bounceEntities
              (Dictator.entity (move (dA (set_accumulator g1 a))
                                  (arena (set_accumulator g1 a)) dt))
              (Dictator.entity (move (dB (set_accumulator g1 a))
                                  (arena (set_accumulator g1 a)) dt)) in
          Some (set_dictators (set_accumulator g1 a)
                  (Dictator.set_entity (move (dA (set_accumulator g1 a))
                                          (arena (set_accumulator g1 a)) dt) ea)
                  (Dictator.set_entity (move (dB (set_accumulator g1 a))
                                          (arena (set_accumulator g1 a)) dt) eb)))
    = option_map (fun g2 => set_accumulator g2 a)
        (if phase_eqb (phase g1) ended then Some g1
         else let '(_, (ea, eb)) :=
                Physics.bounceEntities (Dictator.entity (move (dA g1) (arena g1) dt))
                  (Dictator.entity (move (dB g1) (arena g1) dt)) in
              Some (set_dictators g1 (Dictator.set_entity (move (dA g1) (arena g1) dt) ea)
                      (Dictator.set_entity (move (dB g1) (arena g1) dt) eb)))).
  { intros g1. unfold_setters.
    destruct (phase_eqb (phase g1) ended); [reflexivity |].
    destruct (Physics.bounceEntities _ _) as [c [ea eb]]. reflexivity. }
  destruct (phase g); try apply T.
  destruct (_tickChase g dt) as [g1 |]; [apply T | reflexivity].
Qed.

Lemma set_accumulator_same (g : Game.t) : set_accumulator g (accumulator g) = g.
Proof. destruct g. reflexivity. Qed.

Lemma set_accumulator_twice (g : Game.t) (a b : R) :
  set_accumulator (set_accumulator g a) b = set_accumulator g b.
Proof. reflexivity. Qed.

(** A step leaves the accumulator as it is. *)
Lemma tick_accumulator (g g1 : Game.t) (dt : R) :
  _tick g dt = Some g1 -> accumulator g1 = accumulator g.
Proof.
  intros E. pose proof (tick_acc g (accumulator g) dt) as H.
  rewrite set_accumulator_same, E in H. cbn [option_map] in H.
  injection H as H. rewrite H. reflexivity.
Qed.

Lemma ticks_acc (n : nat) (g : Game.t) (a : R) :
  ticks n (set_accumulator g a) = option_map (fun g1 => set_accumulator g1 a) (ticks n g).
Proof.
  revert g. induction n as [| n IH]; intros g; [reflexivity |].
  cbn [ticks]. change (phase (set_accumulator g a)) with (phase g).
  destruct (phase_eqb (phase g) ended); [reflexivity |].
  rewrite tick_acc. destruct (_tick g FIXED_DT) as [g1 |]; [apply IH | reflexivity].
Qed.

Lemma ticks_accumulator (n : nat) (g g1 : Game.t) :
  ticks n g = Some g1 -> accumulator g1 = accumulator g.
Proof.
  revert g. induction n as [| n IH]; intros g E; cbn [ticks] in E.
  - injection E as <-. reflexivity.
  - destruct (phase_eqb (phase g) ended); [injection E as <-; reflexivity |].
    destruct (_tick g FIXED_DT) as [g2 |] eqn:Et; [| discriminate].
    rewrite (IH g2 E). apply (tick_accumulator g g2 FIXED_DT Et).
Qed.

(** The loop of [_update] makes the steps of [ticks], some number [n] of them
    within its bound, and lowers the accumulator by [n] steps. *)
Lemma drain_ticks (fuel : nat) (g : Game.t) :
  phase_eqb (phase g) ended = false ->
  exists n, (n <= fuel)%nat
    /\ drain fuel g
       = option_map (fun g' => set_accumulator g' (accumulator g - INR n * FIXED_DT))
           (ticks n g).
Proof.
  revert g. induction fuel as [| k IH]; intros g Hp.
  - exists 0%nat. split; [lia |]. cbn [drain ticks option_map INR].
    replace (accumulator g - 0 * FIXED_DT) with (accumulator g) by ring.
    rewrite set_accumulator_same. reflexivity.
  - cbn [drain]. destruct (Rleb FIXED_DT (accumulator g)).
    + destruct (_tick g FIXED_DT) as [g1 |] eqn:E.
      * pose proof (tick_accumulator g g1 FIXED_DT E) as Ha.
        cbn zeta. change (phase (set_accumulator g1 (accumulator g1 - FIXED_DT)))
          with (phase g1).
        destruct (phase_eqb (phase g1) ended) eqn:Hp1.
        -- exists 1%nat. split; [lia |]. cbn [ticks]. rewrite Hp, E.
           cbn [ticks option_map INR]. rewrite Ha.
           replace (accumulator g - 1 * FIXED_DT) with (accumulator g - FIXED_DT) by ring.
           reflexivity.
        -- destruct (IH (set_accumulator g1 (accumulator g1 - FIXED_DT)) Hp1)
             as (n & Hn & Hd).
           exists (S n). split; [lia |]. rewrite Hd.
           cbn [ticks]. rewrite Hp, E. rewrite ticks_acc.
           destruct (ticks n g1) as [g' |]; [| reflexivity].
           cbn [option_map]. rewrite set_accumulator_twice.
           change (accumulator (set_accumulator g1 (accumulator g1 - FIXED_DT)))
             with (accumulator g1 - FIXED_DT).
           f_equal. f_equal. rewrite Ha, (S_INR n). ring.
      * exists 1%nat. split; [lia |]. cbn [ticks]. rewrite Hp, E. reflexivity.
    + exists 0%nat. split; [lia |]. cbn [ticks option_map INR].
      replace (accumulator g - 0 * FIXED_DT) with (accumulator g) by ring.
      rewrite set_accumulator_same. reflexivity.
Qed.

(** The bound is enough: with fewer than [fuel + 1] steps in the accumulator
    the loop stops by its own test, the round ended or less than a step
    left. *)
Lemma drain_exits (fuel : nat) (g g' : Game.t) :
  accumulator g < (INR fuel + 1) * FIXED_DT ->
  drain fuel g = Some g' ->
  phase_eqb (phase g') ended = true \/ accumulator g' < FIXED_DT.
Proof.
  revert g. induction fuel as [| k IH]; intros g Ha E.
  - cbn [drain] in E. injection E as <-. right. simpl in Ha. lra.
  - cbn [drain] in E. destruct (Rleb FIXED_DT (accumulator g)) eqn:Hc.
    + destruct (_tick g FIXED_DT) as [g1 |] eqn:Et; [| discriminate].
      pose proof (tick_accumulator g g1 FIXED_DT Et) as Hacc.
      cbn zeta in E.
      change (phase (set_accumulator g1 (accumulator g1 - FIXED_DT))) with (phase g1) in E.
      destruct (phase_eqb (phase g1) ended) eqn:Hp1.
      * injection E as <-. left. exact Hp1.
      * apply (IH (set_accumulator g1 (accumulator g1 - FIXED_DT))); [| exact E].
        cbn [accumulator set_accumulator]. rewrite Hacc. rewrite S_INR in Ha.
        unfold FIXED_DT in *. lra.
    + injection E as <-. right. apply Rleb_false in Hc. exact Hc.
Qed.

(** [_update] on a running round: it makes some number of the steps of
    [ticks], and returns with the round ended or with less than a step left
    in the accumulator. *)
Lemma update_ticks (g g' : Game.t) (dt : R) :
  phase_eqb (phase g) idle = false -> phase_eqb (phase g) ended = false ->
  _update g dt = Some g' ->
  (exists n, ticks n g = Some (set_accumulator g' (accumulator g)))
  /\ (phase_eqb (phase g') ended = true \/ accumulator g' < FIXED_DT).
Proof.
  intros Hi He E. unfold _update in E. rewrite Hi, He in E. cbn [orb] in E.
  cbn zeta in E. cbn [accumulator set_accumulator] in E.
  set (acc := accumulator g + dt) in *.
  set (fuel := Z.to_nat (Rng.floor (acc / FIXED_DT))) in *.
  split.
  - destruct (drain_ticks fuel (set_accumulator g acc) He) as (n & _ & Hd).
    rewrite E, ticks_acc in Hd. exists n.
    destruct (ticks n g) as [g1 |] eqn:E1; [| discriminate].
    cbn [option_map] in Hd. rewrite set_accumulator_twice in Hd. injection Hd as Hd.
    rewrite Hd, set_accumulator_twice.
    rewrite <- (ticks_accumulator n g g1 E1), set_accumulator_same. reflexivity.
  - apply (drain_exits fuel (set_accumulator g acc)); [| exact E].
    cbn [accumulator set_accumulator].
    destruct (archimed (acc / FIXED_DT)) as [Hup _].
    assert (Hdt : 0 < FIXED_DT) by (unfold FIXED_DT; lra).
    assert (Hq : acc = acc / FIXED_DT * FIXED_DT) by (field; lra).
    unfold fuel, Rng.floor.
    destruct (Z_lt_le_dec (up (acc / FIXED_DT) - 1) 0) as [Hneg | Hpos].
    + replace (Z.to_nat (up (acc / FIXED_DT) - 1)) with 0%nat by lia. simpl INR.
      assert (IZR (up (acc / FIXED_DT)) <= 0) by (apply IZR_le; lia).
      rewrite Hq. nra.
    + rewrite INR_IZR_INZ, Z2Nat.id by lia. rewrite minus_IZR.
      rewrite Hq at 1. nra.
Qed.

End FixedStepLoop.

Section HeadlessPhases.

Import Simulation.

Variable oc : OutcomeController.t.
Variable arena : SimArena.

(** The trace of the loop lists the states [stateAfter] computes. *)
Lemma trace_stateAfter (n fuel : nat) (st : Loop) :
  (n <= fuel)%nat ->
  nth_error (st :: fst (loop fuel oc arena st)) n = stateAfter n oc arena st.
Proof.
  revert fuel st. induction n as [| n IH]; intros fuel st Hn; [reflexivity |].
  destruct fuel as [| fuel]; [lia |].
  cbn [nth_error stateAfter loop].
  destruct (tickBody oc arena st) as [b | st'].
  - destruct n; reflexivity.
  - specialize (IH fuel st' ltac:(lia)).
    destruct (loop fuel oc arena st') as [tr b]. exact IH.
Qed.

(** The head of the loop: two draws after the one of [sampleOutcome], no flag
    set, the timers at the durations of the headless constants. *)
Lemma initRound_facts (r : Rng.t) :
  let st := initRound r oc arena in
  rng st = Rng.advance (Rng.advance r)
  /\ prewaitDone st = false /\ knifeSpawned st = false /\ knifePickedUp st = false
  /\ prewaitTimer st = PREWAIT_DURATION /\ preknifeDone2Timer st = PREKNIFE_DURATION.
Proof.
  cbv zeta. unfold initRound.
  rewrite <- (range_advance r 0 (PI * 2)).
  destruct (Rng.range r 0 (PI * 2)) as [a1 r1]. cbn [snd].
  rewrite <- (range_advance r1 (- (1 / 2)) (1 / 2)).
  destruct (Rng.range r1 _ _) as [j r2]. repeat split.
Qed.

(** An iteration before [prewaitDone]. *)
Lemma sim_tick_prewait (st : Loop) :
  prewaitDone st = false ->
  exists st', tickBody oc arena st = inr st'
    /\ prewaitDone st' = Rleb (prewaitTimer st - FIXED_DT) 0
    /\ prewaitTimer st' = prewaitTimer st - FIXED_DT
    /\ knifeSpawned st' = knifeSpawned st
    /\ knifePickedUp st' = knifePickedUp st
    /\ preknifeDone2Timer st' = preknifeDone2Timer st.
Proof.
  intros Hp. unfold tickBody, phaseStep. rewrite Hp. cbn [negb].
  destruct (wanderImpulse (ePlayer st) _ _ _) as [p r1].
  destruct (wanderImpulse (eOpponent st) _ _ _) as [o r2].
  unfold integrateAndBounce.
  destruct (bounceEntities _ _) as [p' o'].
  eexists. repeat split.
Qed.

(** An iteration after [prewaitDone] and before [knifeSpawned]. *)
Lemma sim_tick_preknife (st : Loop) :
  prewaitDone st = true -> knifeSpawned st = false ->
  exists st', tickBody oc arena st = inr st'
    /\ prewaitDone st' = true
    /\ knifeSpawned st' = Rleb (preknifeDone2Timer st - FIXED_DT) 0
    /\ preknifeDone2Timer st' = preknifeDone2Timer st - FIXED_DT
    /\ knifePickedUp st' = knifePickedUp st.
Proof.
  intros Hp Hk. unfold tickBody, phaseStep. rewrite Hp, Hk. cbn [negb].
  destruct (wanderImpulse (ePlayer st) _ _ _) as [p r1].
  destruct (wanderImpulse (eOpponent st) _ _ _) as [o r2].
  unfold integrateAndBounce.
  destruct (bounceEntities _ _) as [p' o'].
  eexists. repeat split.
Qed.

(** With [k + 1] steps on the prewait timer, [k + 1] iterations set
    [prewaitDone] and touch nothing of the later phases. *)
Lemma sim_prewait_countdown (k : nat) (st : Loop) (m : nat) :
  prewaitDone st = false -> prewaitTimer st = INR (S k) * FIXED_DT ->
  exists st', stateAfter (S k + m) oc arena st = stateAfter m oc arena st'
    /\ prewaitDone st' = true
    /\ knifeSpawned st' = knifeSpawned st
    /\ knifePickedUp st' = knifePickedUp st
    /\ preknifeDone2Timer st' = preknifeDone2Timer st.
Proof.
  revert st. induction k as [| k IH]; intros st Hp Ht.
  - destruct (sim_tick_prewait st Hp) as (st' & E & P & T & K & U & D).
    exists st'. cbn [Nat.add stateAfter]. rewrite E.
    assert (G : Rleb (prewaitTimer st - FIXED_DT) 0 = true).
    { apply Rleb_true. rewrite Ht. simpl. lra. }
    rewrite G in P. repeat split; assumption.
  - destruct (sim_tick_prewait st Hp) as (st1 & E & P & T & K & U & D).
    assert (G : Rleb (prewaitTimer st - FIXED_DT) 0 = false).
    { apply Rleb_false. rewrite Ht. rewrite S_INR.
      assert (0 < INR (S k)) by (apply lt_0_INR; lia).
      unfold FIXED_DT. lra. }
    rewrite G in P.
    destruct (IH st1 P) as (st' & E' & P' & K' & U' & D').
    { rewrite T, Ht. rewrite (S_INR (S k)). ring. }
    exists st'. split; [| repeat split; congruence].
    change (S (S k) + m)%nat with (S (S k + m)).
    cbn [stateAfter]. rewrite E. exact E'.
Qed.

(** While the preknife timer has more than [j] steps left, [j] iterations
    leave the round before [knifeSpawned]. *)
Lemma sim_preknife_holds (j : nat) (st : Loop) :
  prewaitDone st = true -> knifeSpawned st = false ->
  0 < preknifeDone2Timer st - INR j * FIXED_DT ->
  exists st', stateAfter j oc arena st = Some st'
    /\ prewaitDone st' = true /\ knifeSpawned st' = false
    /\ preknifeDone2Timer st' = preknifeDone2Timer st - INR j * FIXED_DT.
Proof.
  revert st. induction j as [| j IH]; intros st Hp Hk Ht.
  - exists st. simpl. repeat split; try assumption. ring.
  - destruct (sim_tick_preknife st Hp Hk) as (st1 & E & P & K & T & _).
    rewrite S_INR in Ht.
    assert (Hj : 0 <= INR j) by apply pos_INR.
    assert (G : Rleb (preknifeDone2Timer st - FIXED_DT) 0 = false).
    { apply Rleb_false. unfold FIXED_DT in *. lra. }
    rewrite G in K.
    destruct (IH st1 P K) as (st' & E' & P' & K' & T').
    { rewrite T. lra. }
    exists st'. cbn [stateAfter]. rewrite E.
    repeat split; try assumption.
    rewrite T', T, S_INR. ring.
Qed.

End HeadlessPhases.

(** C2, for every seed and win chance, on the 560 by 560 screen of the game
    and the same arena handed to the headless round.  After 160 fixed steps
    the interactive path has spent its 1 s of prewait and its 1.5 s of
    preknife and is past the knife spawn (in the knife race, the chase or
    ended), while the headless path, whose preknife lasts 3 s, is still in
    preknife; and already before the first tick the two generators are in
    different states, the interactive path having drawn once more (for the
    opponent) before the two start angles. *)
Theorem C2_paths_diverge (seed : Z) (p : R) :
  let g0 := Game._onPlay (Game.new 560 560) 10 Dictator.arafat p seed in
  let run := Simulation.runRound (Rng.new seed) (OutcomeController.new p)
               (toSimArena (Game.arena g0)) in
  Game.phase g0 = Game.prewait
  /\ (exists g, Game.ticks 160 g0 = Some g
                /\ (Game.phase g = Game.kniferace \/ Game.phase g = Game.chase
                    \/ Game.phase g = Game.ended))
  /\ (exists st, nth_error (Simulation.trace run) 160 = Some st
                 /\ Simulation.phaseOf st = Game.preknife)
  /\ (exists st0, nth_error (Simulation.trace run) 0 = Some st0
                  /\ Simulation.phaseOf st0 = Game.prewait
                  /\ Rng.state (Game.rng g0) <> Rng.state (Simulation.rng st0)).
Proof.
  cbv zeta.
  destruct (onPlay_facts 10 p Dictator.arafat seed 560 560 ltac:(lra))
    as (Hrng & Hph & Htm & Har).
  set (g0 := Game._onPlay (Game.new 560 560) 10 Dictator.arafat p seed) in *.
  split; [exact Hph |].
  split.
  { destruct (prewait_countdown 59 g0 100 Hph) as (g1 & E1 & P1 & T1).
    { rewrite Htm. unfold Game.PREWAIT_DURATION, Game.FIXED_DT.
      rewrite INR_IZR_INZ. simpl. lra. }
    destruct (preknife_countdown 89 g1 10 P1) as (g2 & E2 & P2).
    { rewrite T1. unfold Game.PREKNIFE_DURATION, Game.FIXED_DT.
      rewrite INR_IZR_INZ. simpl. lra. }
    destruct (past_ticks 10 g2 (or_introl P2)) as (g3 & E3 & P3).
    exists g3. split.
    - change 160%nat with (60 + 100)%nat. rewrite E1.
      change 100%nat with (90 + 10)%nat. rewrite E2. exact E3.
    - destruct P3 as [P3 | [[P3 _] | P3]]; tauto. }
  unfold Simulation.runRound.
  destruct (OutcomeController.sampleOutcome (OutcomeController.new p) (Rng.new seed))
    as [oc r1] eqn:Es.
  set (arena := toSimArena (Game.arena g0)).
  destruct (initRound_facts oc arena r1) as (Ir & Ip & Ik & Iu & It & Id).
  set (st0 := Simulation.initRound r1 oc arena) in *.
  pose proof (trace_stateAfter oc arena 160 Simulation.MAX_TICKS st0
                ltac:(unfold Simulation.MAX_TICKS; lia)) as Htr.
  destruct (Simulation.loop Simulation.MAX_TICKS oc arena st0) as [tr b].
  cbn [Simulation.trace fst] in *.
  split.
  - destruct (sim_prewait_countdown oc arena 59 st0 100 Ip) as (st1 & E1 & P1 & K1 & _ & D1).
    { rewrite It. unfold Simulation.PREWAIT_DURATION, Simulation.FIXED_DT.
      rewrite INR_IZR_INZ. simpl. lra. }
    destruct (sim_preknife_holds oc arena 100 st1 P1) as (st2 & E2 & P2 & K2 & _).
    { congruence. }
    { rewrite D1, Id. unfold Simulation.PREKNIFE_DURATION, Simulation.FIXED_DT.
      rewrite INR_IZR_INZ. simpl. lra. }
    exists st2. split.
    + rewrite Htr. change 160%nat with (60 + 100)%nat. rewrite E1. exact E2.
    + unfold Simulation.phaseOf. rewrite P2, K2. reflexivity.
  - exists st0. split; [reflexivity |].
    split; [unfold Simulation.phaseOf; rewrite Ip; reflexivity |].
    rewrite Hrng, Ir.
    pose proof (sampleOutcome_advance (OutcomeController.new p) (Rng.new seed)) as Ha.
    rewrite Es in Ha. cbn [snd] in Ha. rewrite Ha.
    apply advance_changes.
Qed.

(** * Further properties of the modelled code *)

(** ** Rng.ts: ranges of the draws *)

Section RngRanges.

Lemma floor_spec (x : R) : IZR (Rng.floor x) <= x < IZR (Rng.floor x) + 1.
Proof.
  unfold Rng.floor. rewrite minus_IZR.
  destruct (archimed x) as [H1 H2]. lra.
Qed.

(** [Math.floor] of a real between two integers lies between them. *)
Lemma floor_between (a b : Z) (x : R) :
  IZR a <= x -> x < IZR b -> (a <= Rng.floor x < b)%Z.
Proof.
  intros Ha Hb. destruct (floor_spec x) as [H1 H2].
  split.
  - assert (IZR a < IZR (Rng.floor x + 1)) by (rewrite plus_IZR; lra).
    apply lt_IZR in H. lia.
  - apply lt_IZR. lra.
Qed.

Lemma next_u32_range (r : Rng.t) : (0 <= fst (Rng.next_u32 r) < 4294967296)%Z.
Proof.
  unfold Rng.next_u32, Rng.ushr at 1. cbn [fst].
  rewrite Z.shiftr_0_r. unfold Rng.toUint32.
  apply Z.mod_pos_bound. lia.
Qed.

Lemma next_range (r : Rng.t) : 0 <= fst (Rng.next r) < 1.
Proof.
  unfold Rng.next. pose proof (next_u32_range r) as [H0 H1].
  destruct (Rng.next_u32 r) as [u r']. cbn [fst] in *.
  apply IZR_le in H0. apply IZR_lt in H1. lra.
Qed.

Lemma range_between (r : Rng.t) (lo hi : R) :
  lo < hi -> lo <= fst (Rng.range r lo hi) < hi.
Proof.
  intros H. unfold Rng.range. pose proof (next_range r) as [H0 H1].
  destruct (Rng.next r) as [u r']. cbn [fst] in *. nra.
Qed.

Lemma int_between (r : Rng.t) (lo hi : Z) :
  (lo <= hi)%Z -> (lo <= fst (Rng.int r lo hi) <= hi)%Z.
Proof.
  intros H. unfold Rng.int.
  assert (Hlt : IZR lo < IZR (hi + 1)) by (apply IZR_lt; lia).
  pose proof (range_between r (IZR lo) (IZR (hi + 1)) Hlt) as [H0 H1].
  destruct (Rng.range r (IZR lo) (IZR (hi + 1))) as [x r']. cbn [fst] in *.
  pose proof (floor_between lo (hi + 1) x H0 H1). lia.
Qed.

End RngRanges.

(** X1.  Every draw of [next()] is in [0, 1), whatever the state of the
    generator: its numerator is an unsigned 32-bit integer. *)
Theorem X1_next_unit_interval (r : Rng.t) :
  (0 <= fst (Rng.next_u32 r) < 4294967296)%Z
  /\ fst (Rng.next r) = IZR (fst (Rng.next_u32 r)) / 4294967296
  /\ 0 <= fst (Rng.next r) < 1.
Proof.
  split; [apply next_u32_range |]. split; [| apply next_range].
  unfold Rng.next. destruct (Rng.next_u32 r). reflexivity.
Qed.

(** X2.  For [min < max], [range(min, max)] is in [min, max); for
    [min = max] it is [min]. *)
Theorem X2_range_bounds (r : Rng.t) (lo hi : R) :
  lo <= hi ->
  lo <= fst (Rng.range r lo hi) <= hi
  /\ (lo < hi -> fst (Rng.range r lo hi) < hi)
  /\ (lo = hi -> fst (Rng.range r lo hi) = lo).
Proof.
  intros H. pose proof (next_range r) as [H0 H1].
  unfold Rng.range. destruct (Rng.next r) as [u r']. cbn [fst] in *.
  split; [nra |]. split; intros; nra.
Qed.

Lemma X2_range_bounds_witness :
  - (4 / 10) <= fst (Rng.range (Rng.new 42) (- (4 / 10)) (4 / 10)) <= 4 / 10.
Proof.
  destruct (X2_range_bounds (Rng.new 42) (- (4 / 10)) (4 / 10)) as [H _]; [lra |].
  exact H.
Defined.

(** X3.  For integers [min <= max], [int(min, max)] is an integer of
    [min .. max], both ends included. *)
Theorem X3_int_inclusive (r : Rng.t) (lo hi : Z) :
  (lo <= hi)%Z -> (lo <= fst (Rng.int r lo hi) <= hi)%Z.
Proof. apply int_between. Qed.

Lemma X3_int_inclusive_witness : (0 <= fst (Rng.int (Rng.new 42) 0 2) <= 2)%Z.
Proof. apply (X3_int_inclusive (Rng.new 42) 0 2). lia. Defined.

(** ** Rng.ts: the sequence of states *)

Section RngStates.

#[local] Open Scope Z_scope.

Lemma toInt32_idem (z : Z) : Rng.toInt32 (Rng.toInt32 z) = Rng.toInt32 z.
Proof. unfold Rng.toInt32. Z.div_mod_to_equations. lia. Qed.

Lemma toInt32_add (a b : Z) : Rng.toInt32 (Rng.toInt32 a + b) = Rng.toInt32 (a + b).
Proof. unfold Rng.toInt32. Z.div_mod_to_equations. lia. Qed.

Lemma toInt32_wrap (a k : Z) : Rng.toInt32 (a + k * 4294967296) = Rng.toInt32 a.
Proof.
  unfold Rng.toInt32.
  replace (a + k * 4294967296 + 2147483648) with (a + 2147483648 + k * 4294967296) by ring.
  rewrite Z.mod_add by lia. reflexivity.
Qed.

Lemma toInt32_eq_iff (a b : Z) :
  Rng.toInt32 a = Rng.toInt32 b <-> (a - b) mod 4294967296 = 0.
Proof. unfold Rng.toInt32. split; intros H; Z.div_mod_to_equations; lia. Qed.

(** A draw reads the state through ToInt32 only. *)
Lemma next_u32_state_only (r1 r2 : Rng.t) :
  Rng.toInt32 (Rng.state r1) = Rng.toInt32 (Rng.state r2) ->
  fst (Rng.next_u32 r1) = fst (Rng.next_u32 r2)
  /\ Rng.state (Rng.advance r1) = Rng.state (Rng.advance r2).
Proof.
  intros H. unfold Rng.advance, Rng.next_u32. cbn [fst snd Rng.state].
  assert (E : Rng.jor (Rng.state r1) 0 = Rng.jor (Rng.state r2) 0).
  { unfold Rng.jor. rewrite H. reflexivity. }
  rewrite E. split; reflexivity.
Qed.

Lemma advance_seed (r : Rng.t) : Rng.seed (Rng.advance r) = Rng.seed r.
Proof. reflexivity. Qed.

Lemma iter_advance_seed (n : nat) (r : Rng.t) :
  Rng.seed (Nat.iter n Rng.advance r) = Rng.seed r.
Proof.
  induction n as [| n IH]; [reflexivity |].
  rewrite Nat.iter_succ, advance_seed. exact IH.
Qed.

(** The state after [n] draws, in closed form. *)
Lemma iter_advance_state (n : nat) (s : Z) :
  Rng.toInt32 (Rng.state (Nat.iter n Rng.advance (Rng.new s)))
  = Rng.toInt32 (s + Z.of_nat n * 1831565813).
Proof.
  induction n as [| n IH].
  - simpl. f_equal. ring.
  - rewrite Nat.iter_succ, advance_state, toInt32_idem, IH, toInt32_add.
    f_equal. lia.
Qed.

Lemma iter_advance_state_pos (n : nat) (s : Z) :
  Rng.state (Nat.iter (S n) Rng.advance (Rng.new s))
  = Rng.toInt32 (s + Z.of_nat (S n) * 1831565813).
Proof.
  rewrite Nat.iter_succ, advance_state, iter_advance_state, toInt32_add.
  f_equal. lia.
Qed.

(** The increment of mulberry32 is odd: it has no factor in common with
    2^32. *)
Lemma increment_coprime (d : Z) :
  (d * 1831565813) mod 4294967296 = 0 <-> d mod 4294967296 = 0.
Proof.
  rewrite !Z.mod_divide by lia. split; intros H.
  - apply Z.gauss with 1831565813; [rewrite Z.mul_comm; exact H |].
    vm_compute. reflexivity.
  - apply Z.divide_mul_l. exact H.
Qed.

End RngStates.

(** X4.  Seeds that differ by a multiple of 2^32 give the same draws, draw
    after draw: the generator reads its seed through ToInt32. *)
Theorem X4_seed_modulo (s k : Z) (n : nat) :
  fst (Rng.next (Nat.iter n Rng.advance (Rng.new (s + k * 4294967296))))
  = fst (Rng.next (Nat.iter n Rng.advance (Rng.new s))).
Proof.
  assert (H : Rng.toInt32 (Rng.state (Nat.iter n Rng.advance (Rng.new (s + k * 4294967296))))
              = Rng.toInt32 (Rng.state (Nat.iter n Rng.advance (Rng.new s)))).
  { rewrite !iter_advance_state.
    replace (s + k * 4294967296 + Z.of_nat n * 1831565813)%Z
      with (s + Z.of_nat n * 1831565813 + k * 4294967296)%Z by ring.
    apply toInt32_wrap. }
  destruct (next_u32_state_only _ _ H) as [E _].
  unfold Rng.next.
  destruct (Rng.next_u32 (Nat.iter n Rng.advance (Rng.new (s + k * 4294967296)))) as [u1 r1].
  destruct (Rng.next_u32 (Nat.iter n Rng.advance (Rng.new s))) as [u2 r2].
  cbn [fst] in *. rewrite E. reflexivity.
Qed.

(** X5.  [reset()] after any number of draws gives back the generator as it
    was built from its seed, so the draws that follow repeat the first ones. *)
Theorem X5_reset_replays (s : Z) (n : nat) :
  Rng.reset (Nat.iter n Rng.advance (Rng.new s)) = Rng.new s
  /\ Rng.next (Rng.reset (Nat.iter n Rng.advance (Rng.new s))) = Rng.next (Rng.new s).
Proof.
  assert (E : Rng.reset (Nat.iter n Rng.advance (Rng.new s)) = Rng.new s).
  { unfold Rng.reset. rewrite iter_advance_seed. reflexivity. }
  rewrite E. split; reflexivity.
Qed.

(** X6.  The states of the generator have the full period 2^32: after
    [m + 1] and after [n + 1] draws from the same seed the state is the same
    exactly when [m] and [n] differ by a multiple of 2^32. *)
Theorem X6_state_period (s : Z) (m n : nat) :
  Rng.state (Nat.iter (S m) Rng.advance (Rng.new s))
  = Rng.state (Nat.iter (S n) Rng.advance (Rng.new s))
  <-> ((Z.of_nat m - Z.of_nat n) mod 4294967296 = 0)%Z.
Proof.
  rewrite !iter_advance_state_pos, toInt32_eq_iff.
  replace (s + Z.of_nat (S m) * 1831565813 - (s + Z.of_nat (S n) * 1831565813))%Z
    with ((Z.of_nat m - Z.of_nat n) * 1831565813)%Z by lia.
  apply increment_coprime.
Qed.

(** X7.  [pick] draws once; from a non-empty array it returns one of its
    elements, from the empty array it returns [undefined]. *)
Theorem X7_pick (A : Type) (r : Rng.t) (arr : list A) :
  snd (Rng.pick r arr) = Rng.advance r
  /\ (arr <> [] -> exists x, fst (Rng.pick r arr) = Some x /\ In x arr)
  /\ (arr = [] -> fst (Rng.pick r arr) = None).
Proof.
  unfold Rng.pick. split; [| split].
  - rewrite <- (int_advance r 0 (Z.of_nat (length arr) - 1)).
    destruct (Rng.int r 0 _). reflexivity.
  - intros Hne.
    assert (Hlen : (0 <= Z.of_nat (length arr) - 1)%Z).
    { destruct arr; [contradiction | simpl length; lia]. }
    pose proof (int_between r 0 _ Hlen) as [H0 H1].
    destruct (Rng.int r 0 (Z.of_nat (length arr) - 1)) as [i r']. cbn [fst] in *.
    assert (G : (i <? 0)%Z = false) by (apply Z.ltb_ge; exact H0).
    rewrite G.
    destruct (nth_error arr (Z.to_nat i)) as [x |] eqn:E.
    + exists x. split; [reflexivity |]. apply (nth_error_In arr (Z.to_nat i)). exact E.
    + apply nth_error_None in E. lia.
  - intros ->. unfold Rng.int, Rng.range.
    destruct (Rng.next r) as [u r']. cbn [fst length Z.of_nat].
    replace (IZR 0 + u * (IZR (0 - 1 + 1) - IZR 0)) with 0 by (simpl; ring).
    assert (F : Rng.floor 0 = 0%Z).
    { pose proof (floor_between 0 1 0 ltac:(lra) ltac:(lra)). lia. }
    rewrite F. reflexivity.
Qed.

Lemma X7_pick_witness :
  exists x, fst (Rng.pick (Rng.new 42) [1%nat; 2%nat; 3%nat]) = Some x
            /\ In x [1%nat; 2%nat; 3%nat].
Proof.
  destruct (X7_pick nat (Rng.new 42) [1%nat; 2%nat; 3%nat]) as (_ & H & _).
  apply H. discriminate.
Defined.

(** ** OutcomeController.ts: what the stored probability does *)

(** X8.  With a stored win probability of 1 or more every round is sampled as
    a targeted win, and with 0 or less none is, whatever the seed; in between
    the target is a win exactly when the draw is below the probability. *)
Theorem X8_sample_extremes (c : OutcomeController.t) (r : Rng.t) :
  let c' := fst (OutcomeController.sampleOutcome c r) in
  (OutcomeController.targetWin c' = true
   <-> fst (Rng.next r) < OutcomeController.winChance c)
  /\ (1 <= OutcomeController.winChance c -> OutcomeController.targetWin c' = true)
  /\ (OutcomeController.winChance c <= 0 -> OutcomeController.targetWin c' = false)
  /\ snd (OutcomeController.sampleOutcome c r) = Rng.advance r.
Proof.
  cbv zeta. pose proof (next_range r) as [H0 H1].
  split; [| split; [| split; [| apply sampleOutcome_advance]]];
    unfold OutcomeController.sampleOutcome;
    destruct (Rng.next r) as [u r']; cbn [fst OutcomeController.targetWin] in *.
  - apply Rltb_true.
  - intros H. apply Rltb_true. lra.
  - intros H. apply Rltb_false. lra.
Qed.

Lemma X8_sample_extremes_witness :
  OutcomeController.targetWin
    (fst (OutcomeController.sampleOutcome (OutcomeController.new 1) (Rng.new 42))) = true.
Proof.
  destruct (X8_sample_extremes (OutcomeController.new 1) (Rng.new 42)) as (_ & H & _).
  apply H. simpl. lra.
Defined.

(** X9.  [setWinChance] stores its argument when it is a probability, 0 for
    a negative argument and 1 for an argument above 1; only the last call
    counts, and the bias and the sampled target are left alone. *)
Theorem X9_setWinChance_clamps (c : OutcomeController.t) (p q : R) :
  (0 <= p <= 1 -> OutcomeController.winChance (OutcomeController.setWinChance c p) = p)
  /\ (p < 0 -> OutcomeController.winChance (OutcomeController.setWinChance c p) = 0)
  /\ (1 < p -> OutcomeController.winChance (OutcomeController.setWinChance c p) = 1)
  /\ OutcomeController.setWinChance (OutcomeController.setWinChance c p) q
     = OutcomeController.setWinChance c q
  /\ OutcomeController.bias (OutcomeController.setWinChance c p) = OutcomeController.bias c
  /\ OutcomeController.targetWin (OutcomeController.setWinChance c p)
     = OutcomeController.targetWin c.
Proof.
  unfold OutcomeController.setWinChance. cbn.
  repeat split.
  - intros [H0 H1]. rewrite Rmin_right by lra. apply Rmax_right. lra.
  - intros H. rewrite Rmin_right by lra. apply Rmax_left. lra.
  - intros H. rewrite Rmin_left by lra. apply Rmax_right. lra.
Qed.

Lemma X9_setWinChance_clamps_witness :
  OutcomeController.winChance
    (OutcomeController.setWinChance (OutcomeController.new (1 / 2)) (7 / 10)) = 7 / 10.
Proof.
  destruct (X9_setWinChance_clamps (OutcomeController.new (1 / 2)) (7 / 10) 0) as (H & _).
  apply H. lra.
Defined.

(** ** Entity.ts: speeds *)

Section EntitySpeeds.

Lemma norm2_cos_sin (angle s : R) : norm2 (cos angle * s) (sin angle * s) = Rabs s.
Proof.
  replace (cos angle * s) with (s * cos angle) by ring.
  replace (sin angle * s) with (s * sin angle) by ring.
  rewrite norm2_scale.
  assert (E : norm2 (cos angle) (sin angle) = 1).
  { unfold norm2.
    replace (cos angle * cos angle + sin angle * sin angle) with 1.
    - apply sqrt_1.
    - pose proof (sin2_cos2 angle) as H. unfold Rsqr in H. lra. }
  rewrite E. ring.
Qed.

End EntitySpeeds.

(** X10.  [setVelocityAngle(angle, speed)] gives the entity the speed
    [|speed|] and leaves its position and radius alone. *)
Theorem X10_setVelocityAngle_speed (e : Entity.t) (angle s : R) :
  Entity.speed (Entity.setVelocityAngle e angle s) = Rabs s
  /\ Entity.pos (Entity.setVelocityAngle e angle s) = Entity.pos e
  /\ Entity.radius (Entity.setVelocityAngle e angle s) = Entity.radius e.
Proof.
  unfold Entity.speed, Entity.setVelocityAngle. cbn.
  split; [apply norm2_cos_sin | split; reflexivity].
Qed.

(** X11.  For a limit that is not negative, [clampSpeed] leaves an entity at
    or below the limit as it is, and brings a faster one down to the limit
    along its direction; the speed after is the smaller of the two. *)
Theorem X11_clampSpeed (e : Entity.t) (maxSpeed : R) :
  0 <= maxSpeed ->
  let e' := Entity.clampSpeed e maxSpeed in
  Entity.speed e' = Rmin (Entity.speed e) maxSpeed
  /\ (Entity.speed e <= maxSpeed -> e' = e)
  /\ (maxSpeed < Entity.speed e ->
      Entity.vel e'
      = mkVec2 (maxSpeed / Entity.speed e * vx (Entity.vel e))
               (maxSpeed / Entity.speed e * vy (Entity.vel e)))
  /\ Entity.pos e' = Entity.pos e /\ Entity.radius e' = Entity.radius e.
Proof.
  intros Hm. cbv zeta. unfold Entity.clampSpeed.
  destruct (Rltb maxSpeed (Entity.speed e)) eqn:G.
  - apply Rltb_true in G.
    assert (Hs : 0 < Entity.speed e) by lra.
    split; [| split; [| split; [| split; reflexivity]]].
    + rewrite Rmin_right by lra. unfold Entity.speed in *. cbn.
      replace (vx (Entity.vel e) / norm2 (vx (Entity.vel e)) (vy (Entity.vel e)) * maxSpeed)
        with (maxSpeed * (vx (Entity.vel e) / norm2 (vx (Entity.vel e)) (vy (Entity.vel e))))
        by ring.
      replace (vy (Entity.vel e) / norm2 (vx (Entity.vel e)) (vy (Entity.vel e)) * maxSpeed)
        with (maxSpeed * (vy (Entity.vel e) / norm2 (vx (Entity.vel e)) (vy (Entity.vel e))))
        by ring.
      rewrite norm2_scale, norm2_unit by exact Hs.
      rewrite Rabs_right by lra. ring.
    + intros H. lra.
    + intros _. cbn. f_equal; field; lra.
  - apply Rltb_false in G.
    split; [rewrite Rmin_left by lra; reflexivity |].
    split; [reflexivity |]. split; [intros H; lra | split; reflexivity].
Qed.

Lemma X11_clampSpeed_witness :
  Entity.speed (Entity.clampSpeed (Entity.mk (mkVec2 0 0) (mkVec2 3 4) 28) 2) = 2.
Proof.
  destruct (X11_clampSpeed (Entity.mk (mkVec2 0 0) (mkVec2 3 4) 28) 2) as (H & _); [lra |].
  rewrite H. unfold Entity.speed. cbn. rewrite norm2_3_4. apply Rmin_right. lra.
Defined.

(** ** Physics.ts: walls *)

Section Walls.

(** One axis: where the arena is at least a diameter wide, the position ends
    within the walls, a second bounce changes nothing, and the size of the
    velocity component is kept. *)
Lemma bounceAxis_inside (p v r lo hi : R) :
  lo + r <= hi - r ->
  let p' := fst (Physics.bounceAxis p v r lo hi) in
  let v' := snd (Physics.bounceAxis p v r lo hi) in
  lo + r <= p' <= hi - r
  /\ Physics.bounceAxis p' v' r lo hi = (p', v').
Proof.
  intros Hfit. cbv zeta.
  destruct (bounceAxis_cases p v r lo hi) as (Hl & Hr & Hn).
  destruct (Rlt_le_dec (p - r) lo) as [H1 | H1].
  - rewrite (Hl H1). cbn [fst snd]. split; [lra |].
    destruct (bounceAxis_cases (lo + r) (Rabs v) r lo hi) as (_ & _ & Hn').
    apply Hn'; lra.
  - destruct (Rlt_le_dec hi (p + r)) as [H2 | H2].
    + rewrite (Hr H1 H2). cbn [fst snd]. split; [lra |].
      destruct (bounceAxis_cases (hi - r) (- Rabs v) r lo hi) as (_ & _ & Hn').
      apply Hn'; lra.
    + rewrite (Hn H1 H2). cbn [fst snd]. split; [lra |]. apply Hn; assumption.
Qed.

Lemma bounceAxis_abs (p v r lo hi : R) :
  Rabs (snd (Physics.bounceAxis p v r lo hi)) = Rabs v.
Proof.
  unfold Physics.bounceAxis.
  destruct (Rltb _ _); [cbn; apply Rabs_Rabsolu |].
  destruct (Rltb _ _); [cbn; rewrite Rabs_Ropp; apply Rabs_Rabsolu | reflexivity].
Qed.

Lemma norm2_of_abs (x y x' y' : R) :
  Rabs x' = Rabs x -> Rabs y' = Rabs y -> norm2 x' y' = norm2 x y.
Proof.
  intros Hx Hy. unfold norm2. f_equal.
  assert (forall u, u * u = Rabs u * Rabs u).
  { intros u. rewrite <- Rabs_mult. symmetry. apply Rabs_right. nra. }
  rewrite (H x'), (H y'), (H x), (H y), Hx, Hy. reflexivity.
Qed.

End Walls.

(** X12.  In an arena at least one diameter wide and high, [bounceWalls]
    leaves the body within the walls, [left + radius <= x <= right - radius]
    and the same in y, and bouncing a second time changes nothing. *)
Theorem X12_bounceWalls_contains (e : Entity.t) (a : Arena.t) :
  Arena.left a + Entity.radius e <= Arena.right a - Entity.radius e ->
  Arena.top a + Entity.radius e <= Arena.bottom a - Entity.radius e ->
  let e' := Physics.bounceWalls e a in
  Arena.left a + Entity.radius e <= vx (Entity.pos e') <= Arena.right a - Entity.radius e
  /\ Arena.top a + Entity.radius e <= vy (Entity.pos e') <= Arena.bottom a - Entity.radius e
  /\ Physics.bounceWalls e' a = e'.
Proof.
  intros Hx Hy. cbv zeta.
  destruct (bounceAxis_inside (vx (Entity.pos e)) (vx (Entity.vel e)) (Entity.radius e)
              (Arena.left a) (Arena.right a) Hx) as (Bx & Ix).
  destruct (bounceAxis_inside (vy (Entity.pos e)) (vy (Entity.vel e)) (Entity.radius e)
              (Arena.top a) (Arena.bottom a) Hy) as (By & Iy).
  rewrite (bounceWalls_axes e a). cbn [Entity.pos vx vy].
  split; [exact Bx |]. split; [exact By |].
  rewrite bounceWalls_axes. cbn [Entity.pos Entity.vel Entity.radius vx vy].
  rewrite Ix, Iy. reflexivity.
Qed.

Lemma X12_bounceWalls_contains_witness :
  let e := Entity.mk (mkVec2 500 (-3)) (mkVec2 7 (-2)) 28 in
  let a := Arena.mk 0 0 520 in
  28 <= vx (Entity.pos (Physics.bounceWalls e a)) <= 492
  /\ 28 <= vy (Entity.pos (Physics.bounceWalls e a)) <= 492.
Proof.
  cbv zeta.
  destruct (X12_bounceWalls_contains (Entity.mk (mkVec2 500 (-3)) (mkVec2 7 (-2)) 28)
              (Arena.mk 0 0 520)) as (Hx & Hy & _).
  - unfold Arena.left, Arena.right. simpl. lra.
  - unfold Arena.top, Arena.bottom. simpl. lra.
  - unfold Arena.left, Arena.right, Arena.top, Arena.bottom in *. simpl in *.
    split; lra.
Defined.

(** X13.  [bounceWalls] is elastic: whatever the walls do to the two velocity
    components, the speed of the body and its radius are the same after. *)
Theorem X13_bounceWalls_keeps_speed (e : Entity.t) (a : Arena.t) :
  Entity.speed (Physics.bounceWalls e a) = Entity.speed e
  /\ Entity.radius (Physics.bounceWalls e a) = Entity.radius e.
Proof.
  rewrite bounceWalls_axes. unfold Entity.speed. cbn [Entity.vel Entity.radius vx vy].
  split; [| reflexivity].
  apply norm2_of_abs; apply bounceAxis_abs.
Qed.

(** ** Physics.ts: the collision response *)

Section Collision.

(** The collision normal is a unit vector. *)
Lemma normal_unit (dx dy : R) :
  0 < norm2 dx dy ->
  dx / norm2 dx dy * (dx / norm2 dx dy) + dy / norm2 dx dy * (dy / norm2 dx dy) = 1.
Proof.
  intros Hpos. pose proof (norm2_sqr dx dy) as Hs.
  replace (dx / norm2 dx dy * (dx / norm2 dx dy) + dy / norm2 dx dy * (dy / norm2 dx dy))
    with ((dx * dx + dy * dy) / (norm2 dx dy * norm2 dx dy)) by (field; lra).
  rewrite Hs. field. rewrite <- Hs. nra.
Qed.

(** The velocities after [bounceEntities], in its three cases. *)
Lemma bounceEntities_velocities (a b : Entity.t) :
  let dx := vx (Entity.pos b) - vx (Entity.pos a) in
  let dy := vy (Entity.pos b) - vy (Entity.pos a) in
  let d := norm2 dx dy in
  let nx := dx / d in
  let ny := dy / d in
  let dot := (vx (Entity.vel a) - vx (Entity.vel b)) * nx
             + (vy (Entity.vel a) - vy (Entity.vel b)) * ny in
  let res := Physics.bounceEntities a b in
  (fst res = true -> 1 / 10000 <= d /\ d < Entity.radius a + Entity.radius b)
  /\ (fst res = true -> 0 < dot ->
      Entity.vel (fst (snd res))
      = mkVec2 (vx (Entity.vel a) - dot * nx) (vy (Entity.vel a) - dot * ny)
      /\ Entity.vel (snd (snd res))
         = mkVec2 (vx (Entity.vel b) + dot * nx) (vy (Entity.vel b) + dot * ny))
  /\ (fst res = false \/ dot <= 0 ->
      Entity.vel (fst (snd res)) = Entity.vel a
      /\ Entity.vel (snd (snd res)) = Entity.vel b).
Proof.
  cbv zeta. unfold Physics.bounceEntities.
  destruct (Rleb _ _ || Rltb _ _) eqn:G.
  - cbn [fst snd]. split; [discriminate |]. split; [discriminate |].
    intros _. split; reflexivity.
  - apply collide_guard in G.
    destruct (Rltb 0 _) eqn:D; cbn [fst snd Entity.vel].
    + apply Rltb_true in D. split; [intros _; exact G |].
      split; [intros _ _; split; reflexivity |].
      intros [F | F]; [discriminate | lra].
    + apply Rltb_false in D. split; [intros _; exact G |].
      split; [intros _ F; lra |].
      intros _. split; reflexivity.
Qed.

End Collision.

(** X14.  [bounceEntities] conserves the total momentum and the total kinetic
    energy of the two (equal-mass) bodies, in every case; and when it has
    resolved a collision the bodies no longer approach each other along the
    collision normal, their velocity components across the normal being
    untouched. *)
Theorem X14_bounceEntities_conserves (a b : Entity.t) :
  let res := Physics.bounceEntities a b in
  let a' := fst (snd res) in
  let b' := snd (snd res) in
  let dx := vx (Entity.pos b) - vx (Entity.pos a) in
  let dy := vy (Entity.pos b) - vy (Entity.pos a) in
  let nx := dx / norm2 dx dy in
  let ny := dy / norm2 dx dy in
  vx (Entity.vel a') + vx (Entity.vel b') = vx (Entity.vel a) + vx (Entity.vel b)
  /\ vy (Entity.vel a') + vy (Entity.vel b') = vy (Entity.vel a) + vy (Entity.vel b)
  /\ vx (Entity.vel a') * vx (Entity.vel a') + vy (Entity.vel a') * vy (Entity.vel a')
     + (vx (Entity.vel b') * vx (Entity.vel b') + vy (Entity.vel b') * vy (Entity.vel b'))
     = vx (Entity.vel a) * vx (Entity.vel a) + vy (Entity.vel a) * vy (Entity.vel a)
       + (vx (Entity.vel b) * vx (Entity.vel b) + vy (Entity.vel b) * vy (Entity.vel b))
  /\ (fst res = true ->
      Ai.parOf (vx (Entity.vel a') - vx (Entity.vel b'))
        (vy (Entity.vel a') - vy (Entity.vel b')) nx ny <= 0
      /\ Ai.perpOf (vx (Entity.vel a')) (vy (Entity.vel a')) nx ny
         = Ai.perpOf (vx (Entity.vel a)) (vy (Entity.vel a)) nx ny
      /\ Ai.perpOf (vx (Entity.vel b')) (vy (Entity.vel b')) nx ny
         = Ai.perpOf (vx (Entity.vel b)) (vy (Entity.vel b)) nx ny).
Proof.
  cbv zeta.
  destruct (bounceEntities_velocities a b) as (Hg & Hhit & Hmiss). cbv zeta in *.
  set (dx := vx (Entity.pos b) - vx (Entity.pos a)) in *.
  set (dy := vy (Entity.pos b) - vy (Entity.pos a)) in *.
  set (nx := dx / norm2 dx dy) in *.
  set (ny := dy / norm2 dx dy) in *.
  set (dot := (vx (Entity.vel a) - vx (Entity.vel b)) * nx
              + (vy (Entity.vel a) - vy (Entity.vel b)) * ny) in *.
  destruct (fst (Physics.bounceEntities a b)) eqn:F.
  - destruct (Hg eq_refl) as [Hlo Hhi].
    assert (Hn : nx * nx + ny * ny = 1) by (apply normal_unit; lra).
    destruct (Rlt_le_dec 0 dot) as [D | D].
    + destruct (Hhit eq_refl D) as [Ea Eb]. rewrite Ea, Eb. cbn [vx vy].
      unfold Ai.parOf, Ai.perpOf.
      split; [ring |]. split; [ring |].
      split.
      { transitivity (vx (Entity.vel a) * vx (Entity.vel a)
                      + vy (Entity.vel a) * vy (Entity.vel a)
                      + (vx (Entity.vel b) * vx (Entity.vel b)
                         + vy (Entity.vel b) * vy (Entity.vel b))
                      + 2 * dot * dot * (nx * nx + ny * ny - 1)).
        - unfold dot. ring.
        - rewrite Hn. ring. }
      intros _. split.
      { replace ((vx (Entity.vel a) - dot * nx - (vx (Entity.vel b) + dot * nx)) * nx
                 + (vy (Entity.vel a) - dot * ny - (vy (Entity.vel b) + dot * ny)) * ny)
          with (dot - 2 * dot * (nx * nx + ny * ny)) by (unfold dot; ring).
        rewrite Hn. lra. }
      split; ring.
    + destruct (Hmiss (or_intror D)) as [Ea Eb]. rewrite Ea, Eb.
      split; [reflexivity |]. split; [reflexivity |]. split; [reflexivity |].
      intros _. split; [| split; reflexivity].
      unfold Ai.parOf. fold dot. exact D.
  - destruct (Hmiss (or_introl eq_refl)) as [Ea Eb]. rewrite Ea, Eb.
    split; [reflexivity |]. split; [reflexivity |]. split; [reflexivity |].
    discriminate.
Qed.

Lemma X14_bounceEntities_conserves_witness :
  let a := Entity.mk (mkVec2 0 0) (mkVec2 1 0) 3 in
  let b := Entity.mk (mkVec2 3 4) (mkVec2 0 0) 3 in
  let res := Physics.bounceEntities a b in
  Ai.parOf (vx (Entity.vel (fst (snd res))) - vx (Entity.vel (snd (snd res))))
    (vy (Entity.vel (fst (snd res))) - vy (Entity.vel (snd (snd res))))
    ((3 - 0) / norm2 (3 - 0) (4 - 0)) ((4 - 0) / norm2 (3 - 0) (4 - 0)) <= 0.
Proof.
  cbv zeta.
  assert (Hd : norm2 (3 - 0) (4 - 0) = 5).
  { replace (3 - 0) with 3 by ring. replace (4 - 0) with 4 by ring. apply norm2_3_4. }
  destruct (X14_bounceEntities_conserves (Entity.mk (mkVec2 0 0) (mkVec2 1 0) 3)
              (Entity.mk (mkVec2 3 4) (mkVec2 0 0) 3)) as (_ & _ & _ & H).
  cbn [Entity.pos vx vy] in H.
  destruct H as (H & _); [| exact H].
  destruct (bounceEntities_hit (Entity.mk (mkVec2 0 0) (mkVec2 1 0) 3)
              (Entity.mk (mkVec2 3 4) (mkVec2 0 0) 3)) as (Hr & _).
  - cbn [Entity.pos vx vy]. rewrite Hd. lra.
  - cbn [Entity.pos Entity.radius vx vy]. rewrite Hd. lra.
  - exact Hr.
Defined.

(** ** Physics.ts: queries and the hard clamp *)

(** X15.  [entityDistance] and [entitiesOverlap] do not depend on the order
    of the two entities; a pair that [bounceEntities] resolves overlaps; and a
    pair exactly touching overlaps but is not resolved. *)
Theorem X15_overlap_and_bounce (a b : Entity.t) :
  Physics.entityDistance a b = Physics.entityDistance b a
  /\ Physics.entitiesOverlap a b = Physics.entitiesOverlap b a
  /\ (fst (Physics.bounceEntities a b) = true -> Physics.entitiesOverlap a b = true)
  /\ (Physics.entityDistance a b = Entity.radius a + Entity.radius b ->
      Physics.entitiesOverlap a b = true
      /\ Physics.bounceEntities a b = (false, (a, b))).
Proof.
  assert (Hsym : Physics.entityDistance a b = Physics.entityDistance b a).
  { unfold Physics.entityDistance. rewrite <- norm2_opp. f_equal; ring. }
  split; [exact Hsym |].
  split.
  { unfold Physics.entitiesOverlap. rewrite Hsym. f_equal. ring. }
  split.
  - intros H. destruct (bounceEntities_velocities a b) as (Hg & _). cbv zeta in Hg.
    destruct (Hg H) as [_ Hlt].
    unfold Physics.entitiesOverlap, Physics.entityDistance. apply Rleb_true. lra.
  - intros H. split.
    + unfold Physics.entitiesOverlap. apply Rleb_true. lra.
    + unfold Physics.bounceEntities. unfold Physics.entityDistance in H.
      assert (G : Rleb (Entity.radius a + Entity.radius b)
                    (norm2 (vx (Entity.pos b) - vx (Entity.pos a))
                           (vy (Entity.pos b) - vy (Entity.pos a))) = true)
        by (apply Rleb_true; lra).
      rewrite G. reflexivity.
Qed.

Lemma X15_overlap_and_bounce_witness :
  let a := Entity.mk (mkVec2 0 0) (mkVec2 1 0) 2 in
  let b := Entity.mk (mkVec2 3 4) (mkVec2 0 0) 3 in
  Physics.entitiesOverlap a b = true /\ Physics.bounceEntities a b = (false, (a, b)).
Proof.
  cbv zeta.
  destruct (X15_overlap_and_bounce (Entity.mk (mkVec2 0 0) (mkVec2 1 0) 2)
              (Entity.mk (mkVec2 3 4) (mkVec2 0 0) 3)) as (_ & _ & _ & H).
  apply H. unfold Physics.entityDistance. cbn [Entity.pos Entity.radius vx vy].
  replace (3 - 0) with 3 by ring. replace (4 - 0) with 4 by ring.
  rewrite norm2_3_4. ring.
Defined.

(** X16.  [clampToArena] moves the position only: in an arena at least one
    diameter wide and high the position ends within the walls, and an entity
    already within them is returned unchanged. *)
Theorem X16_clampToArena (e : Entity.t) (a : Arena.t) :
  Arena.left a + Entity.radius e <= Arena.right a - Entity.radius e ->
  Arena.top a + Entity.radius e <= Arena.bottom a - Entity.radius e ->
  let e' := Physics.clampToArena e a in
  Arena.left a + Entity.radius e <= vx (Entity.pos e') <= Arena.right a - Entity.radius e
  /\ Arena.top a + Entity.radius e <= vy (Entity.pos e') <= Arena.bottom a - Entity.radius e
  /\ Entity.vel e' = Entity.vel e /\ Entity.radius e' = Entity.radius e
  /\ (Arena.left a + Entity.radius e <= vx (Entity.pos e) <= Arena.right a - Entity.radius e ->
      Arena.top a + Entity.radius e <= vy (Entity.pos e) <= Arena.bottom a - Entity.radius e ->
      e' = e).
Proof.
  intros Hx Hy. cbv zeta. unfold Physics.clampToArena. cbn.
  assert (B : forall lo hi p, lo <= hi -> lo <= Rmax lo (Rmin hi p) <= hi).
  { intros lo hi p H. split; [apply Rmax_l |].
    apply Rmax_lub; [exact H | apply Rmin_l]. }
  assert (I : forall lo hi p, lo <= p <= hi -> Rmax lo (Rmin hi p) = p).
  { intros lo hi p [H1 H2]. rewrite Rmin_right by exact H2. apply Rmax_right. exact H1. }
  split; [apply B; exact Hx |]. split; [apply B; exact Hy |].
  split; [reflexivity |]. split; [reflexivity |].
  intros Ix Iy. rewrite (I _ _ _ Ix), (I _ _ _ Iy).
  destruct e as [[px py] v r]. reflexivity.
Qed.

Lemma X16_clampToArena_witness :
  let e := Entity.mk (mkVec2 600 (-3)) (mkVec2 7 (-2)) 28 in
  let a := Arena.mk 0 0 520 in
  28 <= vx (Entity.pos (Physics.clampToArena e a)) <= 492.
Proof.
  cbv zeta.
  destruct (X16_clampToArena (Entity.mk (mkVec2 600 (-3)) (mkVec2 7 (-2)) 28)
              (Arena.mk 0 0 520)) as (Hx & _).
  - unfold Arena.left, Arena.right. simpl. lra.
  - unfold Arena.top, Arena.bottom. simpl. lra.
  - unfold Arena.left, Arena.right in *. simpl in *. lra.
Defined.

(** ** Ai.ts: what steering may change *)

Section Steering.

Lemma applyImpulse_keeps (e : Entity.t) (ix iy dt mul : R) :
  Entity.pos (Ai.applyImpulse e ix iy dt mul) = Entity.pos e
  /\ Entity.radius (Ai.applyImpulse e ix iy dt mul) = Entity.radius e.
Proof.
  unfold Ai.applyImpulse.
  destruct (Rltb (1 / 1000) _); [| split; reflexivity].
  destruct (Rltb _ (Rabs _)); split; reflexivity.
Qed.

(** Below the speed guard the impulse is added as it is. *)
Lemma applyImpulse_slow (e : Entity.t) (ix iy dt mul : R) :
  norm2 (vx (Entity.vel e) + ix * mul * dt) (vy (Entity.vel e) + iy * mul * dt) <= 1 / 1000 ->
  Ai.applyImpulse e ix iy dt mul
  = Entity.mk (Entity.pos e)
      (mkVec2 (vx (Entity.vel e) + ix * mul * dt) (vy (Entity.vel e) + iy * mul * dt))
      (Entity.radius e).
Proof.
  intros H. unfold Ai.applyImpulse, Entity.speed, Entity.set_vel. cbn.
  apply Rltb_false in H. rewrite H. reflexivity.
Qed.

End Steering.

(** X17.  The turn-rate limit of [applyImpulse].  When the speed after the
    impulse is above the guard of 0.001 and the cap
    [speed * tan(TURN_RATE_CAP * dt)] is not negative, the velocity change
    applied has a component across the new direction of size at most the cap,
    and is never longer than the impulse proposed. *)
Theorem X17_turn_rate_limit (e : Entity.t) (ix iy dt mul : R) :
  let sx := ix * mul * dt in
  let sy := iy * mul * dt in
  let wx := vx (Entity.vel e) + sx in
  let wy := vy (Entity.vel e) + sy in
  let spd := norm2 wx wy in
  let cap := spd * tan (Ai.TURN_RATE_CAP * dt) in
  let e' := Ai.applyImpulse e ix iy dt mul in
  let ax := vx (Entity.vel e') - vx (Entity.vel e) in
  let ay := vy (Entity.vel e') - vy (Entity.vel e) in
  1 / 1000 < spd -> 0 <= cap ->
  Rabs (Ai.perpOf ax ay (wx / spd) (wy / spd)) <= cap
  /\ norm2 ax ay <= norm2 sx sy.
Proof.
  cbv zeta. intros Hspd Hcap.
  set (sx := ix * mul * dt) in *. set (sy := iy * mul * dt) in *.
  set (spd := norm2 (vx (Entity.vel e) + sx) (vy (Entity.vel e) + sy)) in *.
  set (nx := (vx (Entity.vel e) + sx) / spd). set (ny := (vy (Entity.vel e) + sy) / spd).
  set (cap := spd * tan (Ai.TURN_RATE_CAP * dt)) in *.
  destruct (Rlt_le_dec cap (Rabs (Ai.perpOf sx sy nx ny))) as [Hover | Hunder].
  - rewrite (applyImpulse_capped e ix iy dt mul Hspd Hcap Hover).
    cbn [Entity.vel vx vy]. fold sx sy spd nx ny cap.
    set (perp := Ai.perpOf sx sy nx ny) in *.
    assert (Hpos : 0 < Rabs perp) by lra.
    assert (Hf : 0 <= cap / Rabs perp <= 1).
    { split.
      - apply Rmult_le_pos; [exact Hcap | left; apply Rinv_0_lt_compat; exact Hpos].
      - apply Rmult_le_reg_r with (Rabs perp); [exact Hpos |].
        replace (cap / Rabs perp * Rabs perp) with cap by (field; lra). lra. }
    replace (vx (Entity.vel e) + cap / Rabs perp * sx - vx (Entity.vel e))
      with (cap / Rabs perp * sx) by ring.
    replace (vy (Entity.vel e) + cap / Rabs perp * sy - vy (Entity.vel e))
      with (cap / Rabs perp * sy) by ring.
    split.
    + replace (Ai.perpOf (cap / Rabs perp * sx) (cap / Rabs perp * sy) nx ny)
        with (cap / Rabs perp * perp) by (unfold perp, Ai.perpOf; ring).
      rewrite Rabs_mult, (Rabs_right (cap / Rabs perp)) by lra.
      right. field. lra.
    + rewrite norm2_scale, Rabs_right by lra.
      pose proof (norm2_nonneg sx sy). nra.
  - rewrite (applyImpulse_free e ix iy dt mul Hspd Hunder).
    cbn [Entity.vel vx vy]. fold sx sy.
    replace (vx (Entity.vel e) + sx - vx (Entity.vel e)) with sx by ring.
    replace (vy (Entity.vel e) + sy - vy (Entity.vel e)) with sy by ring.
    split; [exact Hunder | lra].
Qed.

Lemma X17_turn_rate_limit_witness :
  let e := Entity.mk (mkVec2 0 0) (mkVec2 8 (-6)) 28 in
  let e' := Ai.applyImpulse e (-300) 600 (1 / 60) 1 in
  norm2 (vx (Entity.vel e') - 8) (vy (Entity.vel e') - -6)
  <= norm2 (-300 * 1 * (1 / 60)) (600 * 1 * (1 / 60)).
Proof.
  cbv zeta.
  destruct applyImpulse_example as (Hs & _ & _ & Ht & _). cbv zeta in Ht.
  pose proof (X17_turn_rate_limit (Entity.mk (mkVec2 0 0) (mkVec2 8 (-6)) 28)
                (-300) 600 (1 / 60) 1) as H.
  cbv zeta in H. cbn [Entity.vel vx vy] in H. rewrite Hs in H.
  destruct H as (_ & H); [lra | lra |]. exact H.
Defined.

(** X18.  No steering behaviour moves a body or changes its radius: wander,
    knife seek, centre attraction, pursuit and evasion write the velocity
    only. *)
Theorem X18_steering_keeps_position (e other : Entity.t) (r : Rng.t)
  (x y dt k : R) :
  let same := fun e' : Entity.t =>
                Entity.pos e' = Entity.pos e /\ Entity.radius e' = Entity.radius e in
  same (fst (Ai.applyWanderSteering e r dt k))
  /\ same (Ai.applyKnifeSeekSteering e x y dt k)
  /\ same (Ai.applyCenterAttraction e x y dt k)
  /\ same (Ai.applyHunterSteering e other dt k)
  /\ same (fst (Ai.applyRunnerSteering e other r dt k)).
Proof.
  cbv zeta. repeat apply conj.
  - unfold Ai.applyWanderSteering.
    destruct (Rng.range r 0 (PI * 2)) as [angle r1].
    destruct (Rng.range r1 0 Ai.MAX_WANDER_IMPULSE) as [m r2]. apply applyImpulse_keeps.
  - unfold Ai.applyWanderSteering.
    destruct (Rng.range r 0 (PI * 2)) as [angle r1].
    destruct (Rng.range r1 0 Ai.MAX_WANDER_IMPULSE) as [m r2]. apply applyImpulse_keeps.
  - unfold Ai.applyKnifeSeekSteering.
    destruct (Rltb _ _); [reflexivity | apply applyImpulse_keeps].
  - unfold Ai.applyKnifeSeekSteering.
    destruct (Rltb _ _); [reflexivity | apply applyImpulse_keeps].
  - unfold Ai.applyCenterAttraction.
    destruct (Rltb _ _); [reflexivity | apply applyImpulse_keeps].
  - unfold Ai.applyCenterAttraction.
    destruct (Rltb _ _); [reflexivity | apply applyImpulse_keeps].
  - unfold Ai.applyHunterSteering.
    destruct (Rltb _ _); [reflexivity | apply applyImpulse_keeps].
  - unfold Ai.applyHunterSteering.
    destruct (Rltb _ _); [reflexivity | apply applyImpulse_keeps].
  - unfold Ai.applyRunnerSteering.
    destruct (Rltb _ _); [reflexivity |].
    destruct (Rng.range r _ _) as [perp r']. apply applyImpulse_keeps.
  - unfold Ai.applyRunnerSteering.
    destruct (Rltb _ _); [reflexivity |].
    destruct (Rng.range r _ _) as [perp r']. apply applyImpulse_keeps.
Qed.

(** X19.  What steering draws from the generator: wander always draws twice;
    evasion draws once when the pursuer is at least 0.001 away and otherwise
    leaves the runner and the generator untouched; and the seeking behaviours
    are no-ops within 0.001 of their target. *)
Theorem X19_steering_draws (e other : Entity.t) (r : Rng.t) (x y dt k : R) :
  let dRunner := norm2 (vx (Entity.pos e) - vx (Entity.pos other))
                       (vy (Entity.pos e) - vy (Entity.pos other)) in
  let dTarget := norm2 (x - vx (Entity.pos e)) (y - vy (Entity.pos e)) in
  snd (Ai.applyWanderSteering e r dt k) = Rng.advance (Rng.advance r)
  /\ (1 / 1000 <= dRunner -> snd (Ai.applyRunnerSteering e other r dt k) = Rng.advance r)
  /\ (dRunner < 1 / 1000 -> Ai.applyRunnerSteering e other r dt k = (e, r))
  /\ (dTarget < 1 / 1000 ->
      Ai.applyKnifeSeekSteering e x y dt k = e
      /\ Ai.applyCenterAttraction e x y dt k = e)
  /\ (norm2 (vx (Entity.pos other) - vx (Entity.pos e))
            (vy (Entity.pos other) - vy (Entity.pos e)) < 1 / 1000 ->
      Ai.applyHunterSteering e other dt k = e).
Proof.
  cbv zeta. repeat apply conj.
  - unfold Ai.applyWanderSteering.
    rewrite <- (range_advance r 0 (PI * 2)).
    destruct (Rng.range r 0 (PI * 2)) as [angle r1]. cbn [snd].
    rewrite <- (range_advance r1 0 Ai.MAX_WANDER_IMPULSE).
    destruct (Rng.range r1 0 Ai.MAX_WANDER_IMPULSE) as [m r2]. reflexivity.
  - intros H. unfold Ai.applyRunnerSteering.
    apply Rltb_false in H. rewrite H.
    rewrite <- (range_advance r (- (4 / 10)) (4 / 10)).
    destruct (Rng.range r _ _) as [perp r']. reflexivity.
  - intros H. unfold Ai.applyRunnerSteering. apply Rltb_true in H. rewrite H. reflexivity.
  - intros H. unfold Ai.applyKnifeSeekSteering, Ai.applyCenterAttraction.
    apply Rltb_true in H. rewrite H. split; reflexivity.
  - intros H. unfold Ai.applyHunterSteering. apply Rltb_true in H. rewrite H. reflexivity.
Qed.

Lemma X19_steering_draws_witness :
  let e := Entity.mk (mkVec2 100 260) (mkVec2 120 0) 28 in
  Ai.applyRunnerSteering e e (Rng.new 42) (1 / 60) 1 = (e, Rng.new 42).
Proof.
  cbv zeta.
  destruct (X19_steering_draws (Entity.mk (mkVec2 100 260) (mkVec2 120 0) 28)
              (Entity.mk (mkVec2 100 260) (mkVec2 120 0) 28) (Rng.new 42) 0 0 (1 / 60) 1)
    as (_ & _ & H & _).
  apply H. cbn [Entity.pos vx vy].
  replace (100 - 100) with 0 by ring. replace (260 - 260) with 0 by ring.
  rewrite norm2_0_0. lra.
Defined.

(** ** Economy.ts: the ledger *)

Section Rounding.

Import Float64.

Lemma rne_error (x : R) : Rabs (IZR (rne x) - x) <= 1 / 2.
Proof.
  unfold rne. destruct (floor_spec x) as [H1 H2].
  destruct (Rltb (x - IZR (Rng.floor x)) (1 / 2)) eqn:E1.
  - apply Rltb_true in E1. rewrite Rabs_left1 by lra. lra.
  - apply Rltb_false in E1.
    destruct (Rltb (1 / 2) (x - IZR (Rng.floor x))) eqn:E2.
    + apply Rltb_true in E2. rewrite plus_IZR. rewrite Rabs_right by lra. lra.
    + apply Rltb_false in E2. destruct (Z.even (Rng.floor x)).
      * rewrite Rabs_left1 by lra. lra.
      * rewrite plus_IZR. rewrite Rabs_right by lra. lra.
Qed.

(** A real strictly within a half of an integer rounds to it. *)
Lemma rne_near (x : R) (n : Z) :
  IZR n - 1 / 2 < x < IZR n + 1 / 2 -> rne x = n.
Proof.
  intros [Ha Hb]. unfold rne.
  destruct (Rle_dec (IZR n) x) as [Hn | Hn].
  - assert (F : Rng.floor x = n).
    { pose proof (floor_between n (n + 1) x Hn) as H. rewrite plus_IZR in H.
      specialize (H ltac:(lra)). lia. }
    rewrite F.
    assert (G : Rltb (x - IZR n) (1 / 2) = true) by (apply Rltb_true; lra).
    rewrite G. reflexivity.
  - apply Rnot_le_lt in Hn.
    assert (F : Rng.floor x = (n - 1)%Z).
    { pose proof (floor_between (n - 1) n x) as H. rewrite minus_IZR in H.
      specialize (H ltac:(lra) Hn). lia. }
    rewrite F, minus_IZR.
    assert (G1 : Rltb (x - (IZR n - 1)) (1 / 2) = false) by (apply Rltb_false; lra).
    assert (G2 : Rltb (1 / 2) (x - (IZR n - 1)) = true) by (apply Rltb_true; lra).
    rewrite G1, G2. f_equal. lia.
Qed.

(** Half way above an even integer the rounding goes down to it. *)
Lemma rne_tie_even (x : R) (n : Z) :
  x = IZR n + 1 / 2 -> Z.even n = true -> rne x = n.
Proof.
  intros Hx He. unfold rne.
  assert (F : Rng.floor x = n).
  { pose proof (floor_between n (n + 1) x) as H. rewrite plus_IZR in H.
    specialize (H ltac:(lra) ltac:(lra)). lia. }
  rewrite F.
  assert (G1 : Rltb (x - IZR n) (1 / 2) = false) by (apply Rltb_false; lra).
  assert (G2 : Rltb (1 / 2) (x - IZR n) = false) by (apply Rltb_false; lra).
  rewrite G1, G2, He. reflexivity.
Qed.

Lemma ln2_pos : 0 < ln 2.
Proof. pose proof ln_lt_2. lra. Qed.

Lemma pow2_exp (k : Z) : powerRZ 2 k = exp (IZR k * ln 2).
Proof. rewrite powerRZ_Rpower by lra. reflexivity. Qed.

Lemma pow2_pos (k : Z) : 0 < powerRZ 2 k.
Proof. apply powerRZ_lt. lra. Qed.

Lemma pow2_add (a b : Z) : powerRZ 2 (a + b) = powerRZ 2 a * powerRZ 2 b.
Proof. apply powerRZ_add. lra. Qed.

(** The exponent brackets the magnitude. *)
Lemma mag_spec (x : R) :
  x <> 0 -> powerRZ 2 (mag x - 1) <= Rabs x < powerRZ 2 (mag x).
Proof.
  intros Hx. unfold mag.
  assert (Ha : 0 < Rabs x) by (apply Rabs_pos_lt; exact Hx).
  pose proof ln2_pos as L2.
  destruct (floor_spec (ln (Rabs x) / ln 2)) as [H1 H2].
  set (f := Rng.floor (ln (Rabs x) / ln 2)) in *.
  replace (f + 1 - 1)%Z with f by lia.
  rewrite !pow2_exp, plus_IZR.
  assert (Q : ln (Rabs x) = ln (Rabs x) / ln 2 * ln 2) by (field; lra).
  pose proof (exp_ln (Rabs x) Ha) as El.
  split.
  - rewrite <- El.
    destruct (Req_dec (IZR f * ln 2) (ln (Rabs x))) as [E | E].
    + rewrite E. lra.
    + left. apply exp_increasing. nra.
  - rewrite <- El. apply exp_increasing. nra.
Qed.

Lemma mag_unique (x : R) (e : Z) :
  powerRZ 2 (e - 1) <= Rabs x < powerRZ 2 e -> mag x = e.
Proof.
  intros [Hl Hh].
  assert (Hx : x <> 0).
  { intros ->. rewrite Rabs_R0 in Hl. pose proof (pow2_pos (e - 1)). lra. }
  destruct (mag_spec x Hx) as [Ml Mh].
  destruct (Z_lt_le_dec (mag x) e) as [A | A].
  - destruct (Z_lt_le_dec (mag x) (e - 1 + 1)) as [B | B]; [| lia].
    exfalso.
    assert (powerRZ 2 (mag x) <= powerRZ 2 (e - 1)).
    { rewrite !pow2_exp. destruct (Z.eq_dec (mag x) (e - 1)) as [-> | N]; [lra |].
      left. apply exp_increasing. apply Rmult_lt_compat_r; [apply ln2_pos |].
      apply IZR_lt. lia. }
    lra.
  - destruct (Z.eq_dec (mag x) e) as [E | N]; [exact E |]. exfalso.
    assert (powerRZ 2 e <= powerRZ 2 (mag x - 1)).
    { rewrite !pow2_exp. destruct (Z.eq_dec e (mag x - 1)) as [-> | N']; [lra |].
      left. apply exp_increasing. apply Rmult_lt_compat_r; [apply ln2_pos |].
      apply IZR_lt. lia. }
    lra.
Qed.

(** The rounding error is at most half a unit in the last place, so at most
    the unit roundoff relative to the argument. *)
Lemma fl_error (x : R) : Rabs (fl x - x) <= u * Rabs x.
Proof.
  unfold fl. destruct (Req_dec_T x 0) as [-> | Hx].
  - rewrite Rminus_0_r, Rabs_R0. lra.
  - destruct (mag_spec x Hx) as [Ml _].
    set (e := mag x) in *.
    pose proof (rne_error (x * powerRZ 2 (53 - e))) as Hr.
    set (n := IZR (rne (x * powerRZ 2 (53 - e)))) in *.
    assert (P : powerRZ 2 (53 - e) * powerRZ 2 (e - 53) = 1).
    { rewrite <- pow2_add. replace (53 - e + (e - 53))%Z with 0%Z by lia. reflexivity. }
    replace (n * powerRZ 2 (e - 53) - x)
      with ((n - x * powerRZ 2 (53 - e)) * powerRZ 2 (e - 53))
      by (rewrite Rmult_minus_distr_r, Rmult_assoc, P; ring).
    rewrite Rabs_mult, (Rabs_right (powerRZ 2 (e - 53)))
      by (left; apply pow2_pos).
    assert (S : powerRZ 2 (e - 1) = 2 * (u * 9007199254740992 / 2) * powerRZ 2 (e - 1))
      by (unfold u; field).
    assert (T : powerRZ 2 (e - 53) = 2 * u * powerRZ 2 (e - 1)).
    { replace (e - 53)%Z with (-52 + (e - 1))%Z by lia. rewrite pow2_add.
      unfold u. simpl. field. }
    rewrite T. pose proof (pow2_pos (e - 1)) as Pp.
    assert (Up : 0 < u) by (unfold u; lra).
    apply Rle_trans with (1 / 2 * (2 * u * powerRZ 2 (e - 1))).
    + apply Rmult_le_compat_r; [nra | exact Hr].
    + nra.
Qed.

Lemma fl_bounds (x : R) : 0 <= x -> (1 - u) * x <= fl x <= (1 + u) * x.
Proof.
  intros Hx. pose proof (fl_error x) as H.
  rewrite (Rabs_right x) in H by lra.
  pose proof (Rle_abs (fl x - x)) as H1.
  pose proof (Rle_abs (x - fl x)) as H2.
  rewrite (Rabs_minus_sym x (fl x)) in H2. lra.
Qed.

(** The value of [fl] from the exponent and the rounded significand. *)
Lemma fl_value (x : R) (e n : Z) :
  powerRZ 2 (e - 1) <= Rabs x < powerRZ 2 e ->
  rne (x * powerRZ 2 (53 - e)) = n ->
  fl x = IZR n * powerRZ 2 (e - 53).
Proof.
  intros Hb Hn. unfold fl.
  assert (Hx : x <> 0).
  { intros ->. rewrite Rabs_R0 in Hb. pose proof (pow2_pos (e - 1)). lra. }
  destruct (Req_dec_T x 0) as [E | _]; [contradiction |].
  rewrite (mag_unique x e Hb), Hn. reflexivity.
Qed.

End Rounding.

Section Payout.

Import Float64.

(** The double of the literal [1.9]. *)
Lemma fl_1_9 : fl (19 / 10) = 8556839292003942 / 4503599627370496.
Proof.
  rewrite (fl_value (19 / 10) 1 8556839292003942).
  - simpl. lra.
  - rewrite Rabs_right by lra. simpl. lra.
  - apply rne_near. simpl. lra.
Qed.

(** [3 * 1.9] in doubles: half way between two doubles, rounded to the even
    one below. *)
Lemma mul_3_1_9 :
  mul 3 (fl (19 / 10)) = 6417629469002956 / 1125899906842624.
Proof.
  unfold mul. rewrite fl_1_9.
  rewrite (fl_value _ 3 6417629469002956).
  - simpl. lra.
  - rewrite Rabs_right by lra. simpl. lra.
  - apply rne_tie_even; [simpl; lra | reflexivity].
Qed.

Lemma mul_3_1_9_100 :
  mul (mul 3 (fl (19 / 10))) 100 = 5013773022658559 / 8796093022208.
Proof.
  rewrite mul_3_1_9. unfold mul.
  rewrite (fl_value _ 10 5013773022658559).
  - simpl. lra.
  - rewrite Rabs_right by lra. simpl. lra.
  - apply rne_near. simpl. lra.
Qed.

(** Three roundings in a row: the literal, the first product, the second. *)
Lemma product_bounds (b : R) :
  0 <= b ->
  let p := mul (mul b (fl (19 / 10))) 100 in
  b * 190 * (1 - 4 * u) <= p <= b * 190 * (1 + 4 * u).
Proof.
  intros Hb. cbv zeta. unfold mul.
  assert (Hu : 0 < u <= 1 / 8) by (unfold u; lra).
  destruct (fl_bounds (19 / 10) ltac:(lra)) as [C1 C2].
  set (c := fl (19 / 10)) in *.
  assert (Hc : 0 <= c) by nra.
  assert (Hbc : 0 <= b * c) by (apply Rmult_le_pos; assumption).
  destruct (fl_bounds (b * c) Hbc) as [P1 P2].
  set (p1 := fl (b * c)) in *.
  assert (Hp1 : 0 <= p1) by nra.
  destruct (fl_bounds (p1 * 100) ltac:(lra)) as [Q1 Q2].
  set (p2 := fl (p1 * 100)) in *.
  assert (B1 : b * (19 / 10 * (1 - u)) <= b * c) by (apply Rmult_le_compat_l; lra).
  assert (B2 : b * c <= b * (19 / 10 * (1 + u))) by (apply Rmult_le_compat_l; lra).
  assert (D1 : (1 - u) * (b * (19 / 10 * (1 - u))) <= p1).
  { apply Rle_trans with ((1 - u) * (b * c)); [| exact P1].
    apply Rmult_le_compat_l; lra. }
  assert (D2 : p1 <= (1 + u) * (b * (19 / 10 * (1 + u)))).
  { apply Rle_trans with ((1 + u) * (b * c)); [exact P2 |].
    apply Rmult_le_compat_l; lra. }
  assert (E1 : (1 - u) * ((1 - u) * (b * (19 / 10 * (1 - u))) * 100) <= p2).
  { apply Rle_trans with ((1 - u) * (p1 * 100)); [| exact Q1].
    apply Rmult_le_compat_l; lra. }
  assert (E2 : p2 <= (1 + u) * ((1 + u) * (b * (19 / 10 * (1 + u))) * 100)).
  { apply Rle_trans with ((1 + u) * (p1 * 100)); [exact Q2 |].
    apply Rmult_le_compat_l; lra. }
  assert (K1 : 1 - 4 * u <= (1 - u) * (1 - u) * (1 - u)) by nra.
  assert (K2 : (1 + u) * (1 + u) * (1 + u) <= 1 + 4 * u) by nra.
  split.
  - apply Rle_trans with (b * 190 * ((1 - u) * (1 - u) * (1 - u))).
    + apply Rmult_le_compat_l; lra.
    + lra.
  - apply Rle_trans with (b * 190 * ((1 + u) * (1 + u) * (1 + u))).
    + lra.
    + apply Rmult_le_compat_l; lra.
Qed.

End Payout.

(** X20.  [placeBet] accepts a bet exactly when it does not exceed the
    balance; an accepted bet is deducted and remembered, and never leaves the
    balance negative; a refused bet leaves no trace. *)
Theorem X20_placeBet (e : Economy.t) (amount : R) :
  (amount <= Economy.balance e ->
   exists e', Economy.placeBet e amount = Some e'
     /\ Economy.balance e' = Economy.balance e - amount
     /\ Economy.lastBet e' = amount
     /\ 0 <= Economy.balance e')
  /\ (Economy.balance e < amount -> Economy.placeBet e amount = None).
Proof.
  unfold Economy.placeBet. split; intros H.
  - assert (G : Rltb (Economy.balance e) amount = false) by (apply Rltb_false; exact H).
    rewrite G. eexists. split; [reflexivity |]. cbn. repeat split. lra.
  - apply Rltb_true in H. rewrite H. reflexivity.
Qed.

Lemma X20_placeBet_witness :
  exists e', Economy.placeBet (Economy.new 1000) 10 = Some e' /\ Economy.balance e' = 1000 - 10.
Proof.
  destruct (X20_placeBet (Economy.new 1000) 10) as (H & _).
  destruct H as (e' & E & B & _); [simpl; lra |].
  exists e'. split; [exact E | exact B].
Defined.

(** X21.  [applyWin] credits exactly the amount [winPayout] announces and
    keeps the last bet, so a second call credits the same amount again.  The
    amount is [Math.floor] of the double product [lastBet * 1.9 * 100], over
    100: for a bet that is not negative it is not negative, at most 1.9
    times the bet and more than that less a hundredth, up to the relative
    rounding error [4 * 2^-53] of the product.  The rounding is visible: for a
    bet of 3 the double product is 569.9999999999999 and the payout is 5.69,
    a cent less than 1.9 times 3. *)
Theorem X21_applyWin (e : Economy.t) :
  let payout := fst (Economy.applyWin e) in
  let e' := snd (Economy.applyWin e) in
  payout = Economy.winPayout e
  /\ Economy.balance e' = Economy.balance e + payout
  /\ Economy.lastBet e' = Economy.lastBet e
  /\ fst (Economy.applyWin e') = payout
  /\ (0 <= Economy.lastBet e ->
      0 <= payout
      /\ payout <= Economy.lastBet e * Economy.PAYOUT_MULTIPLIER * (1 + 4 * Float64.u)
      /\ Economy.lastBet e * Economy.PAYOUT_MULTIPLIER * (1 - 4 * Float64.u) - 1 / 100
         < payout)
  /\ (Economy.lastBet e = 3 -> payout = 569 / 100).
Proof.
  cbv zeta. unfold Economy.applyWin, Economy.winPayout, Economy.PAYOUT_MULTIPLIER.
  cbn [fst snd Economy.balance Economy.lastBet].
  split; [reflexivity |]. split; [reflexivity |]. split; [reflexivity |].
  split; [reflexivity |]. split.
  - intros Hb. destruct (product_bounds (Economy.lastBet e) Hb) as [P1 P2].
    cbv zeta in P1, P2.
    set (p := Float64.mul _ 100) in *.
    destruct (floor_spec p) as [F1 F2].
    assert (Hu : 0 < Float64.u <= 1 / 8) by (unfold Float64.u; lra).
    assert (Hp : 0 <= p) by nra.
    assert (H0 : (0 <= Rng.floor p)%Z).
    { assert (IZR (-1) < IZR (Rng.floor p)) by (simpl; lra).
      apply lt_IZR in H. lia. }
    apply IZR_le in H0.
    repeat split; lra.
  - intros ->. rewrite mul_3_1_9_100.
    assert (F : Rng.floor (5013773022658559 / 8796093022208) = 569%Z).
    { pose proof (floor_between 569 570 (5013773022658559 / 8796093022208)) as H.
      specialize (H ltac:(lra) ltac:(lra)). lia. }
    rewrite F. reflexivity.
Qed.

Lemma X21_applyWin_witness :
  fst (Economy.applyWin (Economy.mk 997 3)) = 569 / 100.
Proof.
  destruct (X21_applyWin (Economy.mk 997 3)) as (_ & _ & _ & _ & _ & H).
  apply H. reflexivity.
Defined.

(** ** Game.ts: starting a round *)

Section RoundStart.

Import Game.

(** What [_startRound] sets up, whatever the draws. *)
Lemma startRound_bodies (g : Game.t) :
  let g' := _startRound g in
  let cx := Arena.centerX (arena g) in
  let cy := Arena.centerY (arena g) in
  Entity.pos (Dictator.entity (dA g')) = mkVec2 (cx - BALL_RADIUS * 3) cy
  /\ Entity.pos (Dictator.entity (dB g')) = mkVec2 (cx + BALL_RADIUS * 3) cy
  /\ Entity.speed (Dictator.entity (dA g')) = BASE_SPEED
  /\ Entity.speed (Dictator.entity (dB g')) = BASE_SPEED
  /\ Dictator.role (dA g') = Dictator.none /\ Dictator.role (dB g') = Dictator.none
  /\ Dictator.speedMul (dA g') = OutcomeController.speedMultiplier (outcome g)
  /\ Dictator.speedMul (dB g') = 1
  /\ Dictator.baseSpeed (dA g') = 120 /\ Dictator.baseSpeed (dB g') = 120
  /\ knifePickedUp g' = false /\ accumulator g' = 0
  /\ economy g' = economy g.
Proof.
  cbv zeta. unfold _startRound.
  destruct (_pickOpponent (rng (_cleanupKnife g)) (playerDictId (_cleanupKnife g)))
    as [opp r1].
  destruct (Rng.range r1 0 (PI * 2)) as [angle1 r2].
  destruct (Rng.range r2 (- (1 / 2)) (1 / 2)) as [j r3].
  cbn [dA dB set_accumulator set_phase set_rng set_dictators Dictator.setRole place
       Dictator.set_entity Dictator.entity Dictator.role Dictator.speedMul
       Dictator.baseSpeed Dictator.set_speedMul Dictator.new knifePickedUp accumulator
       economy _cleanupKnife set_knife arena outcome].
  assert (Hb : Rabs BASE_SPEED = BASE_SPEED)
    by (apply Rabs_right; unfold BASE_SPEED; lra).
  repeat split.
  - unfold Entity.speed, Entity.setVelocityAngle. cbn. rewrite norm2_cos_sin. exact Hb.
  - unfold Entity.speed, Entity.setVelocityAngle. cbn. rewrite norm2_cos_sin. exact Hb.
Qed.

(** A round that [_onPlay] starts does not depend on the generator the game
    held before: [_onPlay] assigns a fresh one, seeded, before any draw. *)
Lemma onPlay_assigns_rng (g : Game.t) (r : Rng.t) (bet p : R) (id : Dictator.Config)
  (seed : Z) :
  phase_eqb (phase g) idle || phase_eqb (phase g) ended = true ->
  bet <= Economy.balance (economy g) ->
  _onPlay (set_rng g r) bet id p seed = _onPlay g bet id p seed.
Proof.
  intros Hp Hb. unfold _onPlay.
  cbn [set_rng phase economy outcome arena dA dB knife phaseTimer accumulator
       knifePickedUp playerWon].
  destruct (negb (phase_eqb (phase g) idle) && negb (phase_eqb (phase g) ended)) eqn:E.
  - destruct (phase g); discriminate.
  - destruct (Economy.placeBet (economy g) bet) as [eco |] eqn:Ep.
    + destruct (OutcomeController.sampleOutcome _ _) as [oc r']. reflexivity.
    + unfold Economy.placeBet in Ep.
      assert (G : Rltb (Economy.balance (economy g)) bet = false)
        by (apply Rltb_false; exact Hb).
      rewrite G in Ep. discriminate.
Qed.

End RoundStart.

(** X22.  [_onPlay] does nothing while a round is running, and nothing when
    the bet exceeds the balance.  Otherwise it deducts the bet, stores a win
    probability within [0, 1], and starts the round in [prewait]: the two
    bodies three radii left and right of the arena centre, both at the base
    speed of 120, without roles, the knife not picked up. *)
Theorem X22_onPlay (g : Game.t) (bet p : R) (id : Dictator.Config) (seed : Z) :
  let g' := Game._onPlay g bet id p seed in
  let running := negb (Game.phase_eqb (Game.phase g) Game.idle)
                 && negb (Game.phase_eqb (Game.phase g) Game.ended) in
  (running = true -> g' = g)
  /\ (Economy.balance (Game.economy g) < bet -> g' = g)
  /\ (running = false -> bet <= Economy.balance (Game.economy g) ->
      Game.phase g' = Game.prewait
      /\ Game.phaseTimer g' = Game.PREWAIT_DURATION
      /\ Economy.balance (Game.economy g') = Economy.balance (Game.economy g) - bet
      /\ 0 <= OutcomeController.winChance (Game.outcome g') <= 1
      /\ Game.rng g' = Nat.iter 4 Rng.advance (Rng.new seed)
      /\ vx (Entity.pos (Dictator.entity (Game.dB g')))
         - vx (Entity.pos (Dictator.entity (Game.dA g'))) = 6 * Game.BALL_RADIUS
      /\ Entity.speed (Dictator.entity (Game.dA g')) = Game.BASE_SPEED
      /\ Entity.speed (Dictator.entity (Game.dB g')) = Game.BASE_SPEED
      /\ Dictator.role (Game.dA g') = Dictator.none
      /\ Dictator.role (Game.dB g') = Dictator.none
      /\ Game.knifePickedUp g' = false).
Proof.
  cbv zeta. unfold Game._onPlay.
  destruct (negb (Game.phase_eqb (Game.phase g) Game.idle)
            && negb (Game.phase_eqb (Game.phase g) Game.ended)).
  - split; [reflexivity |]. split; [reflexivity | discriminate].
  - split; [discriminate |]. unfold Economy.placeBet. split.
    + intros H. apply Rltb_true in H. rewrite H. reflexivity.
    + intros _ H.
      assert (G : Rltb (Economy.balance (Game.economy g)) bet = false)
        by (apply Rltb_false; exact H).
      rewrite G.
      pose proof (onPlay_winChance_unit (Game.outcome g) p (Rng.new seed)) as Hw.
      pose proof (sampleOutcome_advance
                    (OutcomeController.setWinChance (Game.outcome g) p) (Rng.new seed)) as Ha.
      destruct (OutcomeController.sampleOutcome _ (Rng.new seed)) as [oc r].
      cbn [fst snd] in Hw, Ha.
      match goal with
      | |- context [Game._startRound ?g0] =>
          destruct (startRound_facts g0) as (F1 & F2 & F3 & _ & F5);
          destruct (startRound_bodies g0)
            as (B1 & B2 & B3 & B4 & B5 & B6 & _ & _ & _ & _ & B11 & _ & B13)
      end.
      cbv zeta in *. cbn [Game.rng Game.outcome Game.arena Game.economy] in *.
      rewrite F2, F3, F5, B1, B2, B3, B4, B5, B6, B11, B13, F1, Ha.
      cbn [vx Economy.balance].
      repeat split; try reflexivity; try lra.
Qed.

Lemma X22_onPlay_witness :
  Game.phase (Game._onPlay (Game.new 560 560) 10 Dictator.arafat (1 / 2) 42) = Game.prewait.
Proof.
  destruct (X22_onPlay (Game.new 560 560) 10 (1 / 2) Dictator.arafat 42) as (_ & _ & H).
  destruct H as (H & _); [reflexivity | simpl; lra |]. exact H.
Defined.

(** ** Game.ts: the order of the phases and the end of the chase *)

Section ChaseOutcome.

Import Game.

Lemma hunterSteering_keeps (e o : Entity.t) (dt k : R) :
  Entity.pos (Ai.applyHunterSteering e o dt k) = Entity.pos e
  /\ Entity.radius (Ai.applyHunterSteering e o dt k) = Entity.radius e.
Proof.
  unfold Ai.applyHunterSteering.
  destruct (Rltb _ _); [split; reflexivity | apply applyImpulse_keeps].
Qed.

Lemma runnerSteering_keeps (e o : Entity.t) (r : Rng.t) (dt k : R) :
  Entity.pos (fst (Ai.applyRunnerSteering e o r dt k)) = Entity.pos e
  /\ Entity.radius (fst (Ai.applyRunnerSteering e o r dt k)) = Entity.radius e.
Proof.
  unfold Ai.applyRunnerSteering.
  destruct (Rltb _ _); [split; reflexivity |].
  destruct (Rng.range r _ _) as [perp r']. apply applyImpulse_keeps.
Qed.

Lemma entityDistance_sym (a b : Entity.t) :
  Physics.entityDistance a b = Physics.entityDistance b a.
Proof.
  unfold Physics.entityDistance. rewrite <- norm2_opp. f_equal; ring.
Qed.

Lemma entityDistance_pos (a b a' b' : Entity.t) :
  Entity.pos a' = Entity.pos a -> Entity.pos b' = Entity.pos b ->
  Physics.entityDistance a' b' = Physics.entityDistance a b.
Proof. intros Ha Hb. unfold Physics.entityDistance. rewrite Ha, Hb. reflexivity. Qed.

(** The three ways out of [_tickChase] when both roles are assigned. *)
Lemma tickChase_outcome (g : Game.t) (dt : R) :
  rolesAssigned g ->
  let d := Physics.entityDistance (Dictator.entity (dA g)) (Dictator.entity (dB g)) in
  let rs := Entity.radius (Dictator.entity (dA g))
            + Entity.radius (Dictator.entity (dB g)) in
  let playerHunts := Dictator.role_eqb (Dictator.role (dA g)) Dictator.hunter in
  exists g1, _tickChase g dt = Some g1
    /\ (d <= rs -> phase g1 = ended /\ playerWon g1 = Some playerHunts /\ economy g1 =
          (if playerHunts then snd (Economy.applyWin (economy g)) else economy g))
    /\ (rs < d -> phaseTimer g - dt <= 0 ->
        phase g1 = ended /\ playerWon g1 = Some (negb playerHunts) /\ economy g1 =
          (if negb playerHunts then snd (Economy.applyWin (economy g)) else economy g))
    /\ (rs < d -> 0 < phaseTimer g - dt ->
        phase g1 = phase g /\ phaseTimer g1 = phaseTimer g - dt
        /\ playerWon g1 = playerWon g /\ economy g1 = economy g
        /\ rolesAssigned g1).
Proof.
  intros Hr. cbv zeta. unfold _tickChase, findRole.
  destruct Hr as [[Ha Hb] | [Ha Hb]]; rewrite Ha, Hb; cbn [Dictator.role_eqb].
  - pose proof (hunterSteering_keeps (Dictator.entity (dA g)) (Dictator.entity (dB g)) dt
                  (OutcomeController.steeringMultiplier (outcome g) true)) as [Hp Hq].
    set (hE := Ai.applyHunterSteering _ _ _ _) in *.
    pose proof (runnerSteering_keeps (Dictator.entity (dB g)) hE (rng g) dt 1) as [Rp Rq].
    destruct (Ai.applyRunnerSteering _ _ _ _ _) as [rE r']. cbn [fst] in Rp, Rq.
    rewrite (entityDistance_pos _ _ hE rE Hp Rp), Hq, Rq.
    destruct (Rleb _ _) eqn:E1.
    + apply Rleb_true in E1. eexists. split; [reflexivity |].
      split; [intros _; repeat split |]. split; intros; lra.
    + apply Rleb_false in E1. destruct (Rleb (phaseTimer g - dt) 0) eqn:E2.
      * apply Rleb_true in E2. eexists. split; [reflexivity |].
        split; [intros; lra |]. split; [intros _ _; repeat split | intros; lra].
      * apply Rleb_false in E2. eexists. split; [reflexivity |].
        split; [intros; lra |]. split; [intros; lra |]. intros _ _.
        repeat split. left. split; assumption.
  - pose proof (hunterSteering_keeps (Dictator.entity (dB g)) (Dictator.entity (dA g)) dt 1)
      as [Hp Hq].
    set (hE := Ai.applyHunterSteering _ _ _ _) in *.
    pose proof (runnerSteering_keeps (Dictator.entity (dA g)) hE (rng g) dt
                  (OutcomeController.steeringMultiplier (outcome g) false)) as [Rp Rq].
    destruct (Ai.applyRunnerSteering _ _ _ _ _) as [rE r']. cbn [fst] in Rp, Rq.
    rewrite (entityDistance_pos _ _ hE rE Hp Rp), Hq, Rq.
    rewrite (entityDistance_sym (Dictator.entity (dB g))).
    rewrite (Rplus_comm (Entity.radius (Dictator.entity (dB g)))).
    destruct (Rleb _ _) eqn:E1.
    + apply Rleb_true in E1. eexists. split; [reflexivity |].
      split; [intros _; repeat split |]. split; intros; lra.
    + apply Rleb_false in E1. destruct (Rleb (phaseTimer g - dt) 0) eqn:E2.
      * apply Rleb_true in E2. eexists. split; [reflexivity |].
        split; [intros; lra |]. split; [intros _ _; repeat split | intros; lra].
      * apply Rleb_false in E2. eexists. split; [reflexivity |].
        split; [intros; lra |]. split; [intros; lra |]. intros _ _.
        repeat split. right. split; assumption.
Qed.

(** The tail of a step leaves everything but the two bodies as it was. *)
Lemma tail_frame (g1 : Game.t) (dt : R) :
  exists g2,
    (let a := move (dA g1) (arena g1) dt in
     let b := move (dB g1) (arena g1) dt in
     let '(_, (ea, eb)) := Physics.bounceEntities (Dictator.entity a) (Dictator.entity b) in
     Some (set_dictators g1 (Dictator.set_entity a ea) (Dictator.set_entity b eb))) = Some g2
    /\ phase g2 = phase g1 /\ phaseTimer g2 = phaseTimer g1
    /\ playerWon g2 = playerWon g1 /\ economy g2 = economy g1
    /\ rng g2 = rng g1 /\ outcome g2 = outcome g1
    /\ Dictator.role (dA g2) = Dictator.role (dA g1)
    /\ Dictator.role (dB g2) = Dictator.role (dB g1).
Proof.
  cbv zeta.
  destruct (Physics.bounceEntities _ _) as [c [ea eb]].
  eexists. split; [reflexivity |]. repeat split.
Qed.

(** One step of the chase: it ends the round with a result, or goes on with
    the timer lowered by the step. *)
Lemma chase_step (g : Game.t) (dt : R) :
  phase g = chase -> rolesAssigned g ->
  let d := Physics.entityDistance (Dictator.entity (dA g)) (Dictator.entity (dB g)) in
  let rs := Entity.radius (Dictator.entity (dA g))
            + Entity.radius (Dictator.entity (dB g)) in
  let playerHunts := Dictator.role_eqb (Dictator.role (dA g)) Dictator.hunter in
  let pay := fun won : bool =>
               if won then snd (Economy.applyWin (economy g)) else economy g in
  exists g1, _tick g dt = Some g1
    /\ (d <= rs -> phase g1 = ended /\ playerWon g1 = Some playerHunts
                   /\ economy g1 = pay playerHunts)
    /\ (rs < d -> phaseTimer g - dt <= 0 ->
        phase g1 = ended /\ playerWon g1 = Some (negb playerHunts)
        /\ economy g1 = pay (negb playerHunts))
    /\ (rs < d -> 0 < phaseTimer g - dt ->
        phase g1 = chase /\ phaseTimer g1 = phaseTimer g - dt
        /\ playerWon g1 = playerWon g /\ economy g1 = economy g
        /\ rolesAssigned g1).
Proof.
  intros Hc Hr. cbv zeta.
  destruct (tickChase_outcome g dt Hr) as (g1 & E & H1 & H2 & H3). cbv zeta in *.
  unfold _tick. rewrite Hc, E.
  set (d := Physics.entityDistance _ _) in *.
  set (rs := Entity.radius _ + Entity.radius _) in *.
  destruct (Rle_dec d rs) as [Hd | Hd].
  - destruct (H1 Hd) as (P & G1 & G2).
    rewrite P. cbn [phase_eqb]. exists g1. split; [reflexivity |].
    split; [| split; intros; lra]. intros _.
    split; [exact P |]. split; [exact G1 | exact G2].
  - apply Rnot_le_lt in Hd. destruct (Rle_dec (phaseTimer g - dt) 0) as [Ht | Ht].
    + destruct (H2 Hd Ht) as (P & G1 & G2).
      rewrite P. cbn [phase_eqb]. exists g1. split; [reflexivity |].
      split; [intros; lra |]. split; [| intros; lra]. intros _ _.
      split; [exact P |]. split; [exact G1 | exact G2].
    + apply Rnot_le_lt in Ht. destruct (H3 Hd Ht) as (P & T & W & Ec & Ro).
      rewrite P, Hc. cbn [phase_eqb].
      destruct (tail_frame g1 dt) as (g2 & E2 & P2 & T2 & W2 & Ec2 & _ & _ & Ra & Rb).
      cbv zeta in E2. exists g2. split; [exact E2 |].
      split; [intros; lra |]. split; [intros; lra |]. intros _ _.
      repeat split; try congruence.
      unfold rolesAssigned in *. rewrite Ra, Rb. exact Ro.
Qed.

(** A chase whose timer is at most [S k] steps ends within [S k] steps. *)
Lemma chase_ends (k : nat) (g : Game.t) :
  phase g = chase -> rolesAssigned g ->
  phaseTimer g <= INR (S k) * FIXED_DT ->
  exists g' b, ticks (S k) g = Some g' /\ phase g' = ended /\ playerWon g' = Some b
    /\ economy g' = (if b then snd (Economy.applyWin (economy g)) else economy g).
Proof.
  revert g. induction k as [| k IH]; intros g Hc Hr Ht.
  - cbn [ticks]. rewrite Hc. cbn [phase_eqb].
    destruct (chase_step g FIXED_DT Hc Hr) as (g1 & E & H1 & H2 & H3). cbv zeta in *.
    rewrite E.
    set (d := Physics.entityDistance _ _) in *.
    set (rs := Entity.radius _ + Entity.radius _) in *.
    destruct (Rle_dec d rs) as [Hd | Hd].
    + destruct (H1 Hd) as (P & W & Ec). exists g1. eexists. repeat split; eassumption.
    + apply Rnot_le_lt in Hd.
      assert (T : phaseTimer g - FIXED_DT <= 0) by (simpl in Ht; lra).
      destruct (H2 Hd T) as (P & W & Ec). exists g1. eexists. repeat split; eassumption.
  - change (ticks (S (S k)) g)
      with (if phase_eqb (phase g) ended then Some g
            else match _tick g FIXED_DT with
                 | None => None
                 | Some g' => ticks (S k) g'
                 end).
    rewrite Hc. cbn [phase_eqb].
    destruct (chase_step g FIXED_DT Hc Hr) as (g1 & E & H1 & H2 & H3). cbv zeta in *.
    rewrite E.
    set (d := Physics.entityDistance _ _) in *.
    set (rs := Entity.radius _ + Entity.radius _) in *.
    assert (Done : forall b, phase g1 = ended -> playerWon g1 = Some b ->
              economy g1 = (if b then snd (Economy.applyWin (economy g)) else economy g) ->
              exists g' b', ticks (S k) g1 = Some g' /\ phase g' = ended
                /\ playerWon g' = Some b'
                /\ economy g' = (if b' then snd (Economy.applyWin (economy g))
                                 else economy g)).
    { intros b P W Ec. exists g1, b. cbn [ticks]. rewrite P. cbn [phase_eqb].
      repeat split; assumption. }
    destruct (Rle_dec d rs) as [Hd | Hd].
    + destruct (H1 Hd) as (P & W & Ec). eapply Done; eassumption.
    + apply Rnot_le_lt in Hd. destruct (Rle_dec (phaseTimer g - FIXED_DT) 0) as [T | T].
      * destruct (H2 Hd T) as (P & W & Ec). eapply Done; eassumption.
      * apply Rnot_le_lt in T. destruct (H3 Hd T) as (P & T1 & W & Ec & Ro).
        destruct (IH g1 P Ro) as (g' & b & E' & P' & W' & Ec').
        { rewrite T1. rewrite S_INR in Ht. lra. }
        exists g', b. rewrite Ec in Ec'. repeat split; assumption.
Qed.

End ChaseOutcome.

(** X23.  A step of the interactive round never goes back and never skips a
    phase: from each phase it stays or moves to the next one in the order
    prewait, preknife, kniferace, chase, ended; an ended round is left as it
    is.  The step can fail (the TypeError of steering an undefined dictator)
    in the chase only. *)
Theorem X23_phase_order (g : Game.t) (dt : R) :
  match Game._tick g dt with
  | Some g1 =>
      match Game.phase g with
      | Game.idle => Game.phase g1 = Game.idle
      | Game.ended => g1 = g
      | Game.prewait => Game.phase g1 = Game.prewait \/ Game.phase g1 = Game.preknife
      | Game.preknife => Game.phase g1 = Game.preknife \/ Game.phase g1 = Game.kniferace
      | Game.kniferace => Game.phase g1 = Game.kniferace \/ Game.phase g1 = Game.chase
      | Game.chase => Game.phase g1 = Game.chase \/ Game.phase g1 = Game.ended
      end
  | None => Game.phase g = Game.chase
  end.
Proof.
  assert (Tail : forall g1 : Game.t, exists g2,
            (if Game.phase_eqb (Game.phase g1) Game.ended then Some g1
             else
               let a := Game.move (Game.dA g1) (Game.arena g1) dt in
               let b := Game.move (Game.dB g1) (Game.arena g1) dt in
               let '(_, (ea, eb)) :=
                 Physics.bounceEntities (Dictator.entity a) (Dictator.entity b) in
               Some (Game.set_dictators g1 (Dictator.set_entity a ea)
                       (Dictator.set_entity b eb))) = Some g2
            /\ Game.phase g2 = Game.phase g1
            /\ (Game.phase g1 = Game.ended -> g2 = g1)).
  { intros g1. destruct (Game.phase_eqb (Game.phase g1) Game.ended) eqn:E.
    - exists g1. repeat split.
    - destruct (tail_frame g1 dt) as (g2 & E2 & P2 & _). exists g2.
      split; [exact E2 |]. split; [exact P2 |].
      intros P. rewrite P in E. discriminate. }
  unfold Game._tick.
  destruct (Game.phase g) eqn:Hp.
  - destruct (Tail g) as (g2 & E & P & _). cbv zeta in E. rewrite E. congruence.
  - destruct (Tail (Game._tickPrewait g dt)) as (g2 & E & P & _). cbv zeta in E.
    rewrite E, P. unfold Game._tickPrewait.
    destruct (Game.wander (Game.dA g) _ _ _) as [a r1].
    destruct (Game.wander (Game.dB g) _ _ _) as [b r2].
    destruct (Rleb _ _); [right; reflexivity | left; exact Hp].
  - destruct (Tail (Game._tickPreknife g dt)) as (g2 & E & P & _). cbv zeta in E.
    rewrite E, P. unfold Game._tickPreknife.
    destruct (Game.wander (Game.dA g) _ _ _) as [a r1].
    destruct (Game.wander (Game.dB g) _ _ _) as [b r2].
    destruct (Rleb _ _); [right; reflexivity | left; exact Hp].
  - destruct (Tail (Game._tickKnifeRace g dt)) as (g2 & E & P & _). cbv zeta in E.
    rewrite E, P. unfold Game._tickKnifeRace.
    destruct (Game.knife g) as [k |]; [| left; exact Hp].
    destruct (Rleb _ _ || Rleb _ _); [right; reflexivity | left; exact Hp].
  - destruct (Game._tickChase g dt) as [g1 |] eqn:E1; [| reflexivity].
    destruct (Tail g1) as (g2 & E & P & _). cbv zeta in E. rewrite E, P.
    revert E1. unfold Game._tickChase.
    destruct (Game.findRole g Dictator.hunter) as [hA |]; [| discriminate].
    destruct (Game.findRole g Dictator.runner) as [rA |]; [| discriminate].
    destruct (Ai.applyRunnerSteering _ _ _ _ _) as [rE r'].
    destruct (Rleb _ _); [| destruct (Rleb _ _)];
      intros E1; injection E1 as <-; [right | right | left; exact Hp]; reflexivity.
  - destruct (Tail g) as (g2 & E & _ & P). cbv zeta in E. rewrite E. exact (P Hp).
Qed.

(** X24.  In the chase with both roles assigned a step first tests the
    capture, then the timer: if the two bodies are within the sum of their
    radii the round ends and the player has won exactly when the player is
    the hunter; otherwise, when the timer runs out, the round ends and the
    player has won exactly when the player is the runner; otherwise the chase
    goes on with the timer lowered by the step.  Only a win pays. *)
Theorem X24_chase_result (g : Game.t) (dt : R) :
  Game.phase g = Game.chase -> rolesAssigned g ->
  let d := Physics.entityDistance (Dictator.entity (Game.dA g))
             (Dictator.entity (Game.dB g)) in
  let rs := Entity.radius (Dictator.entity (Game.dA g))
            + Entity.radius (Dictator.entity (Game.dB g)) in
  let playerHunts := Dictator.role_eqb (Dictator.role (Game.dA g)) Dictator.hunter in
  let pay := fun won : bool =>
               if won then snd (Economy.applyWin (Game.economy g)) else Game.economy g in
  exists g1, Game._tick g dt = Some g1
    /\ (d <= rs -> Game.phase g1 = Game.ended /\ Game.playerWon g1 = Some playerHunts
                   /\ Game.economy g1 = pay playerHunts)
    /\ (rs < d -> Game.phaseTimer g - dt <= 0 ->
        Game.phase g1 = Game.ended /\ Game.playerWon g1 = Some (negb playerHunts)
        /\ Game.economy g1 = pay (negb playerHunts))
    /\ (rs < d -> 0 < Game.phaseTimer g - dt ->
        Game.phase g1 = Game.chase /\ Game.phaseTimer g1 = Game.phaseTimer g - dt
        /\ Game.playerWon g1 = Game.playerWon g /\ Game.economy g1 = Game.economy g
        /\ rolesAssigned g1).
Proof. intros Hc Hr. exact (chase_step g dt Hc Hr). Qed.

Lemma X24_chase_result_witness :
  exists g1, Game._tick (Game._assignRoles (Game.new 560 560) true) Game.FIXED_DT = Some g1.
Proof.
  destruct (X24_chase_result (Game._assignRoles (Game.new 560 560) true) Game.FIXED_DT)
    as (g1 & E & _).
  - reflexivity.
  - left. split; reflexivity.
  - exists g1. exact E.
Defined.

(** X25.  The chase is bounded by its timer: from a chase with both roles
    assigned and at most [S k] steps left on the timer, the round has ended
    after [S k] steps of 1/60 s, with a result, and the balance is the one at
    the start of the chase plus the payout exactly when the player won.  With
    the ten seconds that [_assignRoles] sets, that is 600 steps. *)
Theorem X25_chase_ends (k : nat) (g : Game.t) :
  Game.phase g = Game.chase -> rolesAssigned g ->
  Game.phaseTimer g <= INR (S k) * Game.FIXED_DT ->
  exists g' b, Game.ticks (S k) g = Some g' /\ Game.phase g' = Game.ended
    /\ Game.playerWon g' = Some b
    /\ Economy.balance (Game.economy g')
       = Economy.balance (Game.economy g)
         + (if b then Economy.winPayout (Game.economy g) else 0).
Proof.
  intros Hc Hr Ht.
  destruct (chase_ends k g Hc Hr Ht) as (g' & b & E & P & W & Ec).
  exists g', b. repeat split; try assumption.
  rewrite Ec. destruct b; [reflexivity | lra].
Qed.

Lemma X25_chase_ends_witness :
  exists g' b, Game.ticks 600 (Game._assignRoles (Game.new 560 560) true) = Some g'
    /\ Game.phase g' = Game.ended /\ Game.playerWon g' = Some b.
Proof.
  destruct (X25_chase_ends 599 (Game._assignRoles (Game.new 560 560) true))
    as (g' & b & E & P & W & _).
  - reflexivity.
  - left. split; reflexivity.
  - change (Game.phaseTimer (Game._assignRoles (Game.new 560 560) true)) with 10.
    unfold Game.FIXED_DT. rewrite INR_IZR_INZ. simpl. lra.
  - exists g', b. repeat split; assumption.
Defined.

(** X26.  [_update] leaves an idle or ended round alone.  On a running round
    it adds the frame time to the accumulator and makes some number [n] of
    fixed steps of 1/60 s, each paid for with one step of accumulated time,
    so that no time is lost or invented; when it returns, the round has
    ended or less than one step is left in the accumulator. *)
Theorem X26_update_fixed_steps (g : Game.t) (dt : R) :
  let resting := Game.phase_eqb (Game.phase g) Game.idle
                 || Game.phase_eqb (Game.phase g) Game.ended in
  (resting = true -> Game._update g dt = Some g)
  /\ (resting = false ->
      (exists n, Game._update g dt
                 = option_map
                     (fun g' => Game.set_accumulator g'
                                  (Game.accumulator g + dt - INR n * Game.FIXED_DT))
                     (Game.ticks n g))
      /\ (forall g', Game._update g dt = Some g' ->
            Game.phase g' = Game.ended \/ Game.accumulator g' < Game.FIXED_DT)).
Proof.
  cbv zeta. split.
  - intros H. unfold Game._update. rewrite H. reflexivity.
  - intros H. apply orb_false_iff in H. destruct H as [Hi He]. split.
    + unfold Game._update. rewrite Hi, He. cbn [orb]. cbn zeta.
      cbn [Game.accumulator Game.set_accumulator].
      set (acc := Game.accumulator g + dt).
      destruct (drain_ticks (Z.to_nat (Rng.floor (acc / Game.FIXED_DT)))
                  (Game.set_accumulator g acc) He) as (n & _ & Hd).
      exists n. rewrite Hd, ticks_acc.
      cbn [Game.accumulator Game.set_accumulator].
      destruct (Game.ticks n g) as [g1 |]; reflexivity.
    + intros g' E. destruct (update_ticks g g' dt Hi He E) as [_ [P | A]].
      * left. destruct (Game.phase g'); first [reflexivity | discriminate].
      * right. exact A.
Qed.

(** X26 on the round that [_onPlay] has just started from a new game, for a
    frame of 1/30 s. *)
Lemma X26_update_fixed_steps_witness :
  let g := Game._onPlay (Game.new 560 560) 10 Dictator.arafat (1 / 2) 42 in
  exists n, Game._update g (1 / 30)
            = option_map
                (fun g' => Game.set_accumulator g'
                             (Game.accumulator g + 1 / 30 - INR n * Game.FIXED_DT))
                (Game.ticks n g).
Proof.
  cbv zeta.
  destruct (X26_update_fixed_steps
              (Game._onPlay (Game.new 560 560) 10 Dictator.arafat (1 / 2) 42) (1 / 30))
    as [_ H].
  destruct H as [H _]; [| exact H].
  destruct (onPlay_facts 10 (1 / 2) Dictator.arafat 42 560 560 ltac:(lra)) as (_ & P & _).
  cbv zeta in P. rewrite P. reflexivity.
Defined.

(** ** Game.ts: the knife race and the choice of the opponent *)

Section KnifeRace.

Import Game.

Lemma knifeSeek_keeps (e : Entity.t) (x y dt k : R) :
  Entity.pos (Ai.applyKnifeSeekSteering e x y dt k) = Entity.pos e
  /\ Entity.radius (Ai.applyKnifeSeekSteering e x y dt k) = Entity.radius e.
Proof.
  unfold Ai.applyKnifeSeekSteering.
  destruct (Rltb _ _); [split; reflexivity | apply applyImpulse_keeps].
Qed.

Lemma tickKnifeRace_pickup (g : Game.t) (k : Knife.t) (dt : R) :
  knife g = Some k ->
  let distTo := fun d : Dictator.t =>
                  norm2 (vx (Entity.pos (Dictator.entity d)) - vx (Knife.pos k))
                        (vy (Entity.pos (Dictator.entity d)) - vy (Knife.pos k)) in
  let reach := BALL_RADIUS + Knife.radius in
  let g1 := _tickKnifeRace g dt in
  (distTo (dA g) <= reach \/ distTo (dB g) <= reach ->
   phase g1 = chase /\ phaseTimer g1 = CHASE_DURATION
   /\ knifePickedUp g1 = true /\ knife g1 = Some (Knife.hide k)
   /\ (distTo (dA g) < distTo (dB g) ->
       Dictator.role (dA g1) = Dictator.hunter /\ Dictator.role (dB g1) = Dictator.runner)
   /\ (distTo (dB g) <= distTo (dA g) ->
       Dictator.role (dA g1) = Dictator.runner /\ Dictator.role (dB g1) = Dictator.hunter)
   /\ Dictator.currentSpeed (dA g1)
      = BASE_SPEED * CHASE_SPEED_MUL * Dictator.speedMul (dA g)
   /\ Dictator.currentSpeed (dB g1)
      = BASE_SPEED * CHASE_SPEED_MUL * Dictator.speedMul (dB g))
  /\ (reach < distTo (dA g) -> reach < distTo (dB g) ->
      phase g1 = phase g /\ phaseTimer g1 = phaseTimer g
      /\ knifePickedUp g1 = knifePickedUp g /\ knife g1 = knife g
      /\ Dictator.role (dA g1) = Dictator.role (dA g)
      /\ Dictator.role (dB g1) = Dictator.role (dB g)).
Proof.
  intros Hk. cbv zeta. unfold _tickKnifeRace. rewrite Hk.
  cbn [Dictator.set_entity Dictator.entity].
  pose proof (knifeSeek_keeps (Dictator.entity (dA g)) (vx (Knife.pos k)) (vy (Knife.pos k))
                dt (biasDelta (outcome g))) as [Pa _].
  pose proof (knifeSeek_keeps (Dictator.entity (dB g)) (vx (Knife.pos k)) (vy (Knife.pos k))
                dt 0) as [Pb _].
  rewrite Pa, Pb.
  set (da := norm2 _ _). set (db := norm2 _ _).
  destruct (Rleb da (BALL_RADIUS + Knife.radius)) eqn:Ea;
    destruct (Rleb db (BALL_RADIUS + Knife.radius)) eqn:Eb; cbn [orb].
  4: { apply Rleb_false in Ea. apply Rleb_false in Eb. split; [intros [H | H]; lra |].
       intros _ _. repeat split; exact Hk. }
  all: (split; [intros _ | intros Ha Hb;
                  try (apply Rleb_true in Ea; lra); try (apply Rleb_true in Eb; lra)]).
  all: unfold _assignRoles; rewrite ?Hk;
    cbn [dA dB set_phase set_dictators set_knife Dictator.role Dictator.set_entity
         Dictator.set_baseSpeed Dictator.setRole phase phaseTimer knifePickedUp knife
         option_map Dictator.currentSpeed Dictator.baseSpeed Dictator.speedMul].
  all: (destruct (Rltb da db) eqn:El;
        [apply Rltb_true in El | apply Rltb_false in El]);
    repeat split; intros; try lra; rewrite Hk; reflexivity.
Qed.

Lemma pickOpponent_differs (r : Rng.t) (c : Dictator.Config) :
  fst (_pickOpponent r c) <> c /\ In (fst (_pickOpponent r c)) Dictator.DICTATOR_CONFIGS
  /\ snd (_pickOpponent r c) = Rng.advance r.
Proof.
  unfold _pickOpponent.
  set (others := filter _ _).
  assert (Hl : (0 <= Z.of_nat (length others) - 1)%Z /\ length others = 3%nat)
    by (destruct c; split; vm_compute; congruence).
  destruct Hl as [Hl Hn].
  pose proof (int_between r 0 (Z.of_nat (length others) - 1) Hl) as Hi.
  pose proof (int_advance r 0 (Z.of_nat (length others) - 1)) as Ha.
  destruct (Rng.int r 0 _) as [i r']. cbn [fst snd] in *.
  rewrite Hn in Hi.
  assert (Hc : i = 0%Z \/ i = 1%Z \/ i = 2%Z) by lia.
  split; [| split; [| exact Ha]].
  - destruct c; destruct Hc as [-> | [-> | ->]]; vm_compute; discriminate.
  - destruct c; destruct Hc as [-> | [-> | ->]]; vm_compute; tauto.
Qed.

End KnifeRace.

(** X27.  In the knife race the knife is picked up in the step in which a
    dictator is within the sum of the ball radius and the knife radius of it:
    the one strictly closer becomes the hunter (the opponent on a tie), the
    knife is hidden, both base speeds become the chase speed of 240, and the
    chase starts with ten seconds on the timer.  Otherwise the phase, the
    roles and the timer stay as they are: the knife race has no time limit of
    its own. *)
Theorem X27_knife_pickup (g : Game.t) (k : Knife.t) (dt : R) :
  Game.knife g = Some k ->
  let distTo := fun d : Dictator.t =>
                  norm2 (vx (Entity.pos (Dictator.entity d)) - vx (Knife.pos k))
                        (vy (Entity.pos (Dictator.entity d)) - vy (Knife.pos k)) in
  let reach := Game.BALL_RADIUS + Knife.radius in
  let g1 := Game._tickKnifeRace g dt in
  (distTo (Game.dA g) <= reach \/ distTo (Game.dB g) <= reach ->
   Game.phase g1 = Game.chase /\ Game.phaseTimer g1 = Game.CHASE_DURATION
   /\ Game.knifePickedUp g1 = true /\ Game.knife g1 = Some (Knife.hide k)
   /\ (distTo (Game.dA g) < distTo (Game.dB g) ->
       Dictator.role (Game.dA g1) = Dictator.hunter
       /\ Dictator.role (Game.dB g1) = Dictator.runner)
   /\ (distTo (Game.dB g) <= distTo (Game.dA g) ->
       Dictator.role (Game.dA g1) = Dictator.runner
       /\ Dictator.role (Game.dB g1) = Dictator.hunter)
   /\ Dictator.currentSpeed (Game.dA g1)
      = Game.BASE_SPEED * Game.CHASE_SPEED_MUL * Dictator.speedMul (Game.dA g)
   /\ Dictator.currentSpeed (Game.dB g1)
      = Game.BASE_SPEED * Game.CHASE_SPEED_MUL * Dictator.speedMul (Game.dB g))
  /\ (reach < distTo (Game.dA g) -> reach < distTo (Game.dB g) ->
      Game.phase g1 = Game.phase g /\ Game.phaseTimer g1 = Game.phaseTimer g
      /\ Game.knifePickedUp g1 = Game.knifePickedUp g /\ Game.knife g1 = Game.knife g
      /\ Dictator.role (Game.dA g1) = Dictator.role (Game.dA g)
      /\ Dictator.role (Game.dB g1) = Dictator.role (Game.dB g)).
Proof. intros Hk. exact (tickKnifeRace_pickup g k dt Hk). Qed.

Lemma X27_knife_pickup_witness :
  Game.phase (Game._tickKnifeRace
                (Game.set_knife (Game.new 560 560) (Some (Knife.new 0 0)) false)
                Game.FIXED_DT) = Game.chase.
Proof.
  destruct (X27_knife_pickup
              (Game.set_knife (Game.new 560 560) (Some (Knife.new 0 0)) false)
              (Knife.new 0 0) Game.FIXED_DT eq_refl) as [H _].
  destruct H as (H & _); [| exact H].
  left. cbn [Game.dA Game.set_knife Game.new Dictator.new Dictator.entity Entity.pos
             Knife.pos Knife.new vx vy].
  unfold norm2, Game.BALL_RADIUS, Knife.radius.
  replace ((0 - 0) * (0 - 0) + (0 - 0) * (0 - 0)) with 0 by ring.
  rewrite sqrt_0. lra.
Defined.

(** X28.  [_pickOpponent] never picks the player's own dictator: whatever the
    draw, the opponent is one of the three other configurations, and the
    choice costs exactly one draw of the generator. *)
Theorem X28_opponent_differs (r : Rng.t) (c : Dictator.Config) :
  fst (Game._pickOpponent r c) <> c
  /\ In (fst (Game._pickOpponent r c)) Dictator.DICTATOR_CONFIGS
  /\ snd (Game._pickOpponent r c) = Rng.advance r.
Proof. exact (pickOpponent_differs r c). Qed.

(** ** Simulation.ts: the figures of a batch and the headless chase *)

Section HeadlessChase.

Import Simulation.

Variable oc : OutcomeController.t.
Variable arena : SimArena.

Lemma independentWins_le (n : nat) (i baseSeed : Z) (c : OutcomeController.t) :
  (independentWins n i baseSeed c <= n)%nat.
Proof.
  revert i. induction n as [| n IH]; intros i; cbn [independentWins]; [lia |].
  specialize (IH (i + 1)%Z). destruct (simulateRound _ _ _); lia.
Qed.

Lemma dist2D_sym (a b : Vec2) : dist2D a b = dist2D b a.
Proof. unfold dist2D. rewrite <- norm2_opp. f_equal; ring. Qed.

Lemma phaseOf_chase (st : Loop) :
  phaseOf st = Game.chase ->
  prewaitDone st = true /\ knifeSpawned st = true /\ knifePickedUp st = true.
Proof.
  unfold phaseOf.
  destruct (prewaitDone st), (knifeSpawned st), (knifePickedUp st); cbn [negb];
    first [discriminate | repeat split].
Qed.

(** The three ways out of an iteration of the headless chase. *)
Lemma sim_chase_step (st : Loop) :
  phaseOf st = Game.chase ->
  let d := dist2D (pos (ePlayer st)) (pos (eOpponent st)) in
  let rs := radius (ePlayer st) + radius (eOpponent st) in
  (d <= rs -> tickBody oc arena st = inl (playerIsHunter st))
  /\ (rs < d -> chaseTimer st - FIXED_DT <= 0 ->
      tickBody oc arena st = inl (negb (playerIsHunter st)))
  /\ (rs < d -> 0 < chaseTimer st - FIXED_DT ->
      exists st', tickBody oc arena st = inr st'
        /\ phaseOf st' = Game.chase
        /\ chaseTimer st' = chaseTimer st - FIXED_DT
        /\ playerIsHunter st' = playerIsHunter st).
Proof.
  intros Hc. destruct (phaseOf_chase st Hc) as (Hp & Hk & Hu). cbv zeta.
  unfold tickBody, phaseStep. rewrite Hp, Hk, Hu. cbn [negb]. cbv zeta.
  set (isH := playerIsHunter st).
  set (h0 := if isH then ePlayer st else eOpponent st).
  set (r0 := if isH then eOpponent st else ePlayer st).
  set (hm := if isH then OutcomeController.steeringMultiplier oc isH else 1).
  set (rm := if negb isH then OutcomeController.steeringMultiplier oc isH else 1).
  destruct (hunterImpulse_keeps h0 r0 FIXED_DT hm) as (Hp1 & Hr1 & _).
  set (h1 := hunterImpulse h0 r0 FIXED_DT hm) in *.
  destruct (runnerImpulse_keeps r0 h1 (rng st) FIXED_DT rm) as (Rp1 & Rr1 & _).
  destruct (runnerImpulse r0 h1 (rng st) FIXED_DT rm) as [r1 g1]. cbn [fst] in Rp1, Rr1.
  destruct (normSpeed_keeps h1 (BASE_SPEED * CHASE_SPEED_MUL * speedMul h1))
    as (Hp2 & Hr2 & _).
  destruct (normSpeed_keeps r1 (BASE_SPEED * CHASE_SPEED_MUL * speedMul r1))
    as (Rp2 & Rr2 & _).
  rewrite Hp2, Hr2, Rp2, Rr2, Hp1, Hr1, Rp1, Rr1.
  assert (Ed : dist2D (pos h0) (pos r0) = dist2D (pos (ePlayer st)) (pos (eOpponent st)))
    by (unfold h0, r0; destruct isH; [reflexivity | apply dist2D_sym]).
  assert (Er : radius h0 + radius r0 = radius (ePlayer st) + radius (eOpponent st))
    by (unfold h0, r0; destruct isH; [reflexivity | apply Rplus_comm]).
  rewrite Ed, Er.
  destruct (Rleb _ _) eqn:E1.
  - apply Rleb_true in E1. split; [reflexivity |]. split; intros; lra.
  - apply Rleb_false in E1. destruct (Rleb (chaseTimer st - FIXED_DT) 0) eqn:E2.
    + apply Rleb_true in E2. split; [intros; lra |]. split; [reflexivity | intros; lra].
    + apply Rleb_false in E2. split; [intros; lra |]. split; [intros; lra |].
      intros _ _. unfold integrateAndBounce.
      destruct (bounceEntities _ _) as [p' o'].
      eexists. split; [reflexivity |].
      unfold phaseOf. cbn [prewaitDone knifeSpawned knifePickedUp preIntegrate chaseTimer
                             playerIsHunter].
      rewrite ?Hp, ?Hk, ?Hu. repeat split.
Qed.

(** A headless chase with at most [S k] steps on its timer returns within
    [S k] iterations: at most [k] are completed. *)
Lemma sim_chase_ends (k fuel : nat) (st : Loop) :
  phaseOf st = Game.chase ->
  chaseTimer st <= INR (S k) * FIXED_DT -> (k < fuel)%nat ->
  (length (fst (loop fuel oc arena st)) <= k)%nat
  /\ (snd (loop fuel oc arena st) = playerIsHunter st
      \/ snd (loop fuel oc arena st) = negb (playerIsHunter st)).
Proof.
  revert fuel st. induction k as [| k IH]; intros fuel st Hc Ht Hf.
  - destruct fuel as [| fuel]; [lia |]. cbn [loop].
    destruct (sim_chase_step st Hc) as (H1 & H2 & _). cbv zeta in *.
    destruct (Rle_dec (dist2D (pos (ePlayer st)) (pos (eOpponent st)))
                (radius (ePlayer st) + radius (eOpponent st))) as [Hd | Hd].
    + rewrite (H1 Hd). cbn. split; [lia | left; reflexivity].
    + apply Rnot_le_lt in Hd. rewrite (H2 Hd) by (simpl in Ht; lra).
      cbn. split; [lia | right; reflexivity].
  - destruct fuel as [| fuel]; [lia |]. cbn [loop].
    destruct (sim_chase_step st Hc) as (H1 & H2 & H3). cbv zeta in *.
    destruct (Rle_dec (dist2D (pos (ePlayer st)) (pos (eOpponent st)))
                (radius (ePlayer st) + radius (eOpponent st))) as [Hd | Hd].
    + rewrite (H1 Hd). cbn. split; [lia | left; reflexivity].
    + apply Rnot_le_lt in Hd.
      destruct (Rle_dec (chaseTimer st - FIXED_DT) 0) as [T | T].
      * rewrite (H2 Hd T). cbn. split; [lia | right; reflexivity].
      * apply Rnot_le_lt in T. destruct (H3 Hd T) as (st' & E & P & T' & I').
        rewrite E.
        destruct (IH fuel st' P) as [L B]; [| lia |].
        { rewrite T'. rewrite (S_INR (S k)) in Ht. lra. }
        destruct (loop fuel oc arena st') as [tr b]. cbn [fst snd length] in *.
        rewrite I' in B. split; [lia | exact B].
Qed.

End HeadlessChase.

(** X29.  The figures of [runSimulation].  The rounds of a batch are
    independent although one controller object is handed from round to
    round: the wins are the rounds that win when run alone from a fresh
    controller, wins and losses add up to the rounds, every win pays 1.9
    times the bet, and for at least one round the observed win rate is
    within [0, 1] and, for a bet that is not zero, the realised RTP is 1.9
    times that rate. *)
Theorem X29_batch_figures (rounds : nat) (p bet : R) (baseSeed : Z) :
  let res := Simulation.runSimulation rounds p bet baseSeed in
  let w := independentWins rounds 0 baseSeed (OutcomeController.new p) in
  Simulation.wins res = w
  /\ (Simulation.wins res + Simulation.losses res = rounds)%nat
  /\ Simulation.totalBet res = INR rounds * bet
  /\ Simulation.totalPayout res = INR w * (bet * Simulation.PAYOUT_MUL)
  /\ (rounds <> 0%nat ->
      0 <= Simulation.observedWinRate res <= 1
      /\ (bet <> 0 ->
          Simulation.rtp res = Simulation.PAYOUT_MUL * Simulation.observedWinRate res)).
Proof.
  cbv zeta.
  destruct (runSimulation_figures rounds p bet baseSeed) as (Hw & Hp & Hb & Ho & _).
  cbv zeta in *.
  pose proof (independentWins_le rounds 0 baseSeed (OutcomeController.new p)) as Hle.
  split; [exact Hw |]. split.
  { assert (L : Simulation.losses (Simulation.runSimulation rounds p bet baseSeed)
                = (rounds - Simulation.wins
                              (Simulation.runSimulation rounds p bet baseSeed))%nat).
    { unfold Simulation.runSimulation.
      destruct (Simulation.batch _ _ _ _ _ _ _) as [w tp]. reflexivity. }
    rewrite L, Hw. lia. }
  split; [exact Hb |]. split; [exact Hp |].
  intros Hr. split.
  - rewrite Ho.
    assert (0 < INR rounds) by (apply lt_0_INR; lia).
    assert (0 <= INR (independentWins rounds 0 baseSeed (OutcomeController.new p)))
      by apply pos_INR.
    assert (INR (independentWins rounds 0 baseSeed (OutcomeController.new p))
            <= INR rounds) by (apply le_INR; exact Hle).
    split.
    + apply Rmult_le_pos; [assumption | left; apply Rinv_0_lt_compat; assumption].
    + apply (Rmult_le_reg_r (INR rounds)); [assumption |].
      unfold Rdiv. rewrite Rmult_assoc, Rinv_l by lra. lra.
  - intros Hbet. apply runSimulation_rtp; assumption.
Qed.

(** X30.  The headless chase tests the capture first, then the timer: when
    the two bodies are within the sum of their radii the round returns
    whether the player is the hunter; otherwise, when the chase timer runs
    out, it returns whether the player is the runner; otherwise the chase
    goes on with the timer lowered by one step.  So a chase with at most
    [S k] steps on its timer returns within [S k] iterations, and what it
    returns is decided by the role alone. *)
Theorem X30_headless_chase (oc : OutcomeController.t) (arena : Simulation.SimArena)
  (st : Simulation.Loop) :
  Simulation.phaseOf st = Game.chase ->
  let d := Simulation.dist2D (Simulation.pos (Simulation.ePlayer st))
             (Simulation.pos (Simulation.eOpponent st)) in
  let rs := Simulation.radius (Simulation.ePlayer st)
            + Simulation.radius (Simulation.eOpponent st) in
  (d <= rs -> Simulation.tickBody oc arena st = inl (Simulation.playerIsHunter st))
  /\ (rs < d -> Simulation.chaseTimer st - Simulation.FIXED_DT <= 0 ->
      Simulation.tickBody oc arena st = inl (negb (Simulation.playerIsHunter st)))
  /\ (rs < d -> 0 < Simulation.chaseTimer st - Simulation.FIXED_DT ->
      exists st', Simulation.tickBody oc arena st = inr st'
        /\ Simulation.phaseOf st' = Game.chase
        /\ Simulation.chaseTimer st' = Simulation.chaseTimer st - Simulation.FIXED_DT
        /\ Simulation.playerIsHunter st' = Simulation.playerIsHunter st)
  /\ (forall k fuel : nat,
        Simulation.chaseTimer st <= INR (S k) * Simulation.FIXED_DT -> (k < fuel)%nat ->
        (length (fst (Simulation.loop fuel oc arena st)) <= k)%nat
        /\ (snd (Simulation.loop fuel oc arena st) = Simulation.playerIsHunter st
            \/ snd (Simulation.loop fuel oc arena st)
               = negb (Simulation.playerIsHunter st))).
Proof.
  intros Hc. cbv zeta.
  destruct (sim_chase_step oc arena st Hc) as (H1 & H2 & H3). cbv zeta in *.
  split; [exact H1 |]. split; [exact H2 |]. split; [exact H3 |].
  intros k fuel Ht Hf. exact (sim_chase_ends oc arena k fuel st Hc Ht Hf).
Qed.

Lemma X30_headless_chase_witness :
  let e := Simulation.mkEntity (mkVec2 0 0) (mkVec2 0 0) 28 1 in
  let st := Simulation.mkLoop e e (Rng.new 0) true true 10 true true 0 0 in
  Simulation.tickBody (OutcomeController.new (1 / 2)) Simulation.defaultArena st = inl true.
Proof.
  cbv zeta.
  destruct (X30_headless_chase (OutcomeController.new (1 / 2)) Simulation.defaultArena
              (Simulation.mkLoop (Simulation.mkEntity (mkVec2 0 0) (mkVec2 0 0) 28 1)
                 (Simulation.mkEntity (mkVec2 0 0) (mkVec2 0 0) 28 1)
                 (Rng.new 0) true true 10 true true 0 0) eq_refl) as (H & _).
  apply H.
  cbn [Simulation.ePlayer Simulation.eOpponent Simulation.pos Simulation.radius].
  unfold Simulation.dist2D, norm2. cbn [vx vy].
  replace ((0 - 0) * (0 - 0) + (0 - 0) * (0 - 0)) with 0 by ring.
  rewrite sqrt_0. lra.
Defined.
